(** * Genvoy: job-completion orchestration, result extraction and safe paths

    A shallow embedding of the orchestration core of the Genvoy server
    ([genvoy/fal_client.py], [genvoy/server.py], [genvoy/filesystem.py])
    together with the properties its specification states about it.

    Conventions of the embedding:
    - Python [str] values are [string]s; the case and whitespace helpers act
      on the ASCII range.
    - Decoded JSON payloads are values of [json]; a Python [dict] is an
      association list in insertion order, looked up by first match.
    - Python numbers are exact rationals ([Q]): [inf], [nan], rounding and
      integers too large for a [float] are outside the model.
    - A Python exception is a value of [exn]; fallible code returns
      [result], and code that also acts on a store runs in [Eff.M].
    - What belongs to Python and its libraries rather than to the
      repository ([json.loads], [urlparse], [float] and [str] of arbitrary
      values) is a [Variable] of the section that uses it; an error such a
      function raises is part of the model only where the code handles it
      ([None] of [json_loads] and of [py_float_str]).
    - The file system has directories and files, no symbolic links and no
      permissions; [pathlib] and [os.mkdir] are modelled on it.
    - Loops that the code bounds by time or by the state of the file system
      take fuel; the properties give the fuel that suffices. *)

From Stdlib Require Import List String Ascii Bool Arith ZArith QArith Lia Lqa.
From Stdlib Require Import DecimalString DecimalNat FinFun.
Import ListNotations.

Local Close Scope Q_scope.
Local Open Scope nat_scope.
Local Open Scope string_scope.
Local Open Scope list_scope.

(* ================================================================== *)
(** ** Python string primitives *)

Module Py.

Definition code (c : ascii) : nat := nat_of_ascii c.

(** [str.isspace] on the ASCII range. *)
Definition is_space (c : ascii) : bool :=
  let n := code c in
  ((Nat.leb 9 n) && (Nat.leb n 13)) || ((Nat.leb 28 n) && (Nat.leb n 32)).

Definition is_digit (c : ascii) : bool :=
  let n := code c in (Nat.leb 48 n) && (Nat.leb n 57).

Definition is_upper (c : ascii) : bool :=
  let n := code c in (Nat.leb 65 n) && (Nat.leb n 90).

Definition is_lower (c : ascii) : bool :=
  let n := code c in (Nat.leb 97 n) && (Nat.leb n 122).

Definition is_alnum (c : ascii) : bool :=
  is_digit c || is_upper c || is_lower c.

Definition to_upper (c : ascii) : ascii :=
  if is_lower c then ascii_of_nat (code c - 32) else c.

Definition to_lower (c : ascii) : ascii :=
  if is_upper c then ascii_of_nat (code c + 32) else c.

Fixpoint smap (f : ascii -> ascii) (s : string) : string :=
  match s with
  | EmptyString => EmptyString
  | String c r => String (f c) (smap f r)
  end.

Definition upper : string -> string := smap to_upper.
Definition lower : string -> string := smap to_lower.

Definition startswith (s p : string) : bool := String.prefix p s.

Fixpoint lstrip (s : string) : string :=
  match s with
  | EmptyString => EmptyString
  | String c r => if is_space c then lstrip r else s
  end.

Fixpoint rev_onto (s acc : string) : string :=
  match s with
  | EmptyString => acc
  | String c r => rev_onto r (String c acc)
  end.

Definition srev (s : string) : string := rev_onto s EmptyString.

Definition rstrip (s : string) : string := srev (lstrip (srev s)).

Definition strip (s : string) : string := rstrip (lstrip s).

(** [s[n:]] *)
Fixpoint drop (n : nat) (s : string) : string :=
  match n, s with
  | O, _ => s
  | S m, String _ r => drop m r
  | S _, EmptyString => EmptyString
  end.

(** [sep.join(parts)] *)
Fixpoint join (sep : string) (parts : list string) : string :=
  match parts with
  | [] => EmptyString
  | [p] => p
  | p :: rest => p ++ sep ++ join sep rest
  end.

(** Truthiness of a [str]. *)
Definition nonempty (s : string) : bool :=
  match s with EmptyString => false | _ => true end.

Definition newline : string := String (ascii_of_nat 10) EmptyString.

(** [s.rfind(".")] as the pieces before and from the last dot. *)
Fixpoint rsplit_dot (s : string) : option (string * string) :=
  match s with
  | EmptyString => None
  | String c r =>
      match rsplit_dot r with
      | Some (a, b) => Some (String c a, b)
      | None => if Ascii.eqb c "."%char then Some (EmptyString, s) else None
      end
  end.

Definition str_of_nat (n : nat) : string :=
  NilZero.string_of_uint (Nat.to_uint n).

End Py.

(* ================================================================== *)
(** ** Decoded JSON payloads *)

Module Json.

Unset Elimination Schemes.
Inductive json : Type :=
| JNull
| JBool (b : bool)
| JNum (q : Q)
| JStr (s : string)
| JArr (items : list json)
| JObj (fields : list (string * json)).
Set Elimination Schemes.

Definition dict := list (string * json).

(** Structural induction that reaches the values nested in arrays and
    objects. *)
Fixpoint json_ind (P : json -> Prop)
    (Hnull : P JNull)
    (Hbool : forall b, P (JBool b))
    (Hnum : forall q, P (JNum q))
    (Hstr : forall s, P (JStr s))
    (Harr : forall items, Forall P items -> P (JArr items))
    (Hobj : forall fields,
        Forall (fun kv => P (snd kv)) fields -> P (JObj fields))
    (j : json) {struct j} : P j :=
  let rec_ := json_ind P Hnull Hbool Hnum Hstr Harr Hobj in
  match j with
  | JNull => Hnull
  | JBool b => Hbool b
  | JNum q => Hnum q
  | JStr s => Hstr s
  | JArr items =>
      Harr items
        ((fix go (l : list json) : Forall P l :=
            match l with
            | [] => Forall_nil P
            | x :: r => Forall_cons x (rec_ x) (go r)
            end) items)
  | JObj fields =>
      Hobj fields
        ((fix go (l : list (string * json)) : Forall (fun kv => P (snd kv)) l :=
            match l with
            | [] => Forall_nil _
            | kv :: r => Forall_cons kv (rec_ (snd kv)) (go r)
            end) fields)
  end.

(** [key in d] and [d[key]]: first binding of the key. *)
Fixpoint lookup {A : Type} (k : string) (d : list (string * A)) : option A :=
  match d with
  | [] => None
  | (k', v) :: r => if String.eqb k k' then Some v else lookup k r
  end.

Definition has_key {A : Type} (k : string) (d : list (string * A)) : bool :=
  match lookup k d with Some _ => true | None => false end.

(** [d.get(key)]: a missing key reads as [None]. *)
Definition get (d : dict) (k : string) : json :=
  match lookup k d with Some v => v | None => JNull end.

Definition values {A : Type} (d : list (string * A)) : list A := map snd d.

Definition is_zero (q : Q) : bool := (Qnum q =? 0)%Z.

(** Python truthiness of a decoded value. *)
Definition truthy (v : json) : bool :=
  match v with
  | JNull => false
  | JBool b => b
  | JNum q => negb (is_zero q)
  | JStr s => Py.nonempty s
  | JArr l => match l with [] => false | _ => true end
  | JObj l => match l with [] => false | _ => true end
  end.

(** [a or b] *)
Definition por (a b : json) : json := if truthy a then a else b.

Definition is_none (v : json) : bool :=
  match v with JNull => true | _ => false end.

(** [isinstance(v, dict)] *)
Definition as_dict (v : json) : option dict :=
  match v with JObj d => Some d | _ => None end.

End Json.

(* ================================================================== *)
(** ** Exceptions ([genvoy/errors.py]) *)

Module Errors.
Import Json.

(** The human-readable message of a [GenvoyToolError]; an f-string that
    interpolates a payload keeps the payload. *)
Inductive message : Type :=
| Msg (text : string)
| MsgWith (text : string) (interpolated : json).

(** Python exceptions the modelled code raises or lets through.
    [GenvoyToolError] carries its stable machine-readable [code];
    [HTTPStatusError] and [HTTPError] are the [httpx] errors, the first a
    subclass of the second. *)
Inductive exn : Type :=
| GenvoyToolError (code : string) (msg : message)
| HTTPStatusError (status_code : nat)
| HTTPError (text : string)
| OSError (kind : string)
| OtherError (name : string).

Inductive result (A : Type) : Type :=
| Ok (a : A)
| Raise (e : exn).
Arguments Ok {A} a.
Arguments Raise {A} e.

(** [getattr(exc, "code", None)] *)
Definition code_of (e : exn) : option string :=
  match e with
  | GenvoyToolError c _ => Some c
  | _ => None
  end.

Definition has_code (c : string) (e : exn) : bool :=
  match code_of e with
  | Some c' => String.eqb c' c
  | None => false
  end.

End Errors.

(* ================================================================== *)
(** ** Media type detection ([genvoy/filesystem.py]) *)

Module MediaType.

Definition EXT_TO_MEDIA : list (string * string) :=
  [ (".png", "image"); (".jpg", "image"); (".jpeg", "image");
    (".webp", "image"); (".mp4", "video"); (".mp3", "audio");
    (".wav", "audio"); (".flac", "audio") ].

Definition CONTENT_TYPE_TO_EXT : list (string * string) :=
  [ ("image/png", ".png"); ("image/jpeg", ".jpg"); ("image/webp", ".webp");
    ("video/mp4", ".mp4"); ("audio/mpeg", ".mp3"); ("audio/wav", ".wav");
    ("audio/x-wav", ".wav"); ("audio/flac", ".flac") ].

(** [d.get(key, "unknown")] *)
Definition media_of_ext (ext : string) : string :=
  match Json.lookup ext EXT_TO_MEDIA with
  | Some m => m
  | None => "unknown"
  end.

(** Splitting on ["/"]. *)
Fixpoint split_slash (s : string) (cur : string) : list string :=
  match s with
  | EmptyString => [Py.srev cur]
  | String c r =>
      if Ascii.eqb c "/"%char then Py.srev cur :: split_slash r EmptyString
      else split_slash r (String c cur)
  end.

Definition is_real_part (p : string) : bool :=
  negb (String.eqb p EmptyString || String.eqb p ".").

(** [PurePath(p).name]: the last component, once empty and ["."]
    components are dropped. *)
Definition path_name (p : string) : string :=
  last (filter is_real_part (split_slash p EmptyString)) EmptyString.

(** [PurePath.suffix] of a file name: from the last dot, when that dot is
    neither the first nor the last character. *)
Definition name_suffix (name : string) : string :=
  match Py.rsplit_dot name with
  | Some (before, ext) =>
      if Py.nonempty before && Nat.ltb 1 (String.length ext) then ext
      else EmptyString
  | None => EmptyString
  end.

(** [content_type.split(";")[0]] *)
Fixpoint before_semicolon (s : string) : string :=
  match s with
  | EmptyString => EmptyString
  | String c r =>
      if Ascii.eqb c ";"%char then EmptyString
      else String c (before_semicolon r)
  end.

Section Detect.
(** [urllib.parse.urlparse(url).path] belongs to the Python library. *)
Variable urlparse_path : string -> string.

Definition detect_type_and_ext (url : string) (content_type : option string)
  : string * option string :=
  let ext := Py.lower (name_suffix (path_name (urlparse_path url))) in
  let media_type := media_of_ext ext in
  if negb (String.eqb media_type "unknown") then (media_type, Some ext)
  else
    match content_type with
    | None => ("unknown", None)
    | Some ct =>
        if negb (Py.nonempty ct) then ("unknown", None)
        else
          let norm := Py.lower (Py.strip (before_semicolon ct)) in
          match Json.lookup norm CONTENT_TYPE_TO_EXT with
          | None => ("unknown", None)
          | Some canonical_ext =>
              if negb (Py.nonempty canonical_ext) then ("unknown", None)
              else (media_of_ext canonical_ext, Some canonical_ext)
          end
    end.

(** [media_type in {"image", "video", "audio"}] for a bare URL. *)
Definition is_media_url (url : string) : bool :=
  let m := fst (detect_type_and_ext url None) in
  String.eqb m "image" || String.eqb m "video" || String.eqb m "audio".
End Detect.

(** A reading of [urlparse(url).path] for URLs of the shape
    [scheme://authority/path?query#fragment]. *)
Fixpoint until_delims (s : string) : string :=
  match s with
  | EmptyString => EmptyString
  | String c r =>
      if Ascii.eqb c "?"%char || Ascii.eqb c "#"%char then EmptyString
      else String c (until_delims r)
  end.

Fixpoint from_slash (s : string) : string :=
  match s with
  | EmptyString => EmptyString
  | String c r => if Ascii.eqb c "/"%char then s else from_slash r
  end.

Fixpoint after_scheme (s : string) : string :=
  match s with
  | EmptyString => EmptyString
  | String c r =>
      if Ascii.eqb c ":"%char then
        (if Py.startswith r "//" then from_slash (Py.drop 2 (until_delims r))
         else until_delims r)
      else after_scheme r
  end.

Definition simple_urlparse_path (url : string) : string := after_scheme url.

End MediaType.

(* ================================================================== *)
(** ** Result extraction ([genvoy/server.py]) *)

Module Extraction.
Import Json.

Definition PREFERRED_KEYS : list string :=
  ["images"; "videos"; "audio"; "url"; "image"; "video"; "result"; "output"].

Definition is_http (s : string) : bool :=
  Py.startswith s "http://" || Py.startswith s "https://".

(** The [if found: urls.append(found)] step. *)
Definition found_urls (found : option string) : list string :=
  match found with
  | Some u => if Py.nonempty u then [u] else []
  | None => []
  end.

Section MediaUrl.
Variable urlparse_path : string -> string.

(** The tail of [_extract_first_media_url]: the first URL with a
    recognised media extension, otherwise the first URL. *)
Definition choose_url (urls : list string) : option string :=
  match urls with
  | [] => None
  | first :: _ =>
      match find (MediaType.is_media_url urlparse_path) urls with
      | Some candidate => Some candidate
      | None => Some first
      end
  end.

(** The loop over the preferred keys, given what the recursive call
    returns for each field. *)
Definition preferred_found (found : list (string * option string))
  : list string :=
  flat_map (fun preferred =>
              match lookup preferred found with
              | Some f => found_urls f
              | None => []
              end) PREFERRED_KEYS.

Definition values_found (found : list (string * option string))
  : list string :=
  flat_map found_urls (values found).

(** The recursive call is made on every field before the loops read its
    results, which keeps the recursion structural;
    [MediaUrlFacts.extract_obj] restates the dictionary case with the calls
    where the source has them. *)
Fixpoint _extract_first_media_url (payload : json) : option string :=
  match payload with
  | JStr s => choose_url (if is_http s then [s] else [])
  | JObj fields =>
      let found :=
        map (fun kv => (fst kv, _extract_first_media_url (snd kv))) fields in
      choose_url (preferred_found found ++ values_found found)
  | JArr items =>
      choose_url (flat_map found_urls (map _extract_first_media_url items))
  | _ => None
  end.
End MediaUrl.

(** *** Status and progress *)

Section Status.
(** [str(v)] of a value that is not a [str] belongs to Python. *)
Variable py_repr : json -> string.
(** [float(s)] of a [str]: [None] stands for [ValueError]. *)
Variable py_float_str : string -> option Q.

Definition py_str (v : json) : string :=
  match v with
  | JStr s => s
  | _ => py_repr v
  end.

Definition _status_from_payload (payload : dict) : string :=
  match as_dict (get payload "data") with
  | Some nested =>
      Py.upper (py_str
        (por (get nested "status")
          (por (get nested "state")
            (por (get payload "status")
              (por (get payload "state") (JStr EmptyString))))))
  | None =>
      Py.upper (py_str
        (por (get payload "status")
          (por (get payload "state") (JStr EmptyString))))
  end.

(** [float(v)]: [None] stands for [TypeError] or [ValueError]. *)
Definition py_float (v : json) : option Q :=
  match v with
  | JNum q => Some q
  | JBool b => Some (if b then 1%Q else 0%Q)
  | JStr s => py_float_str s
  | _ => None
  end.

(** [min(a, b)] and [max(a, b)] as Python evaluates them. *)
Definition py_min (a b : Q) : Q := if Qlt_le_dec b a then b else a.
Definition py_max (a b : Q) : Q := if Qlt_le_dec a b then b else a.

Definition or_if_none (raw : json) (next : json) : json :=
  if is_none raw then next else raw.

(** The value [_progress_from_payload] reads before converting it. *)
Definition progress_raw (payload : dict) : json :=
  let source :=
    match as_dict (get payload "data") with
    | Some d => d
    | None => payload
    end in
  let raw := get source "progress" in
  let raw := or_if_none raw (get source "progress_percent") in
  let raw := or_if_none raw (get source "percentage") in
  if is_none raw then
    match as_dict (get source "metrics") with
    | Some metrics => get metrics "progress"
    | None => raw
    end
  else raw.

Definition _progress_from_payload (payload : dict) : Q :=
  let raw := progress_raw payload in
  match py_float (if is_none raw then JNum 0%Q else raw) with
  | None => 0%Q
  | Some value =>
      let value :=
        if Qle_bool 0 value && Qle_bool value 1 then (value * 100)%Q
        else value in
      py_max 0%Q (py_min 100%Q value)
  end.

(** One call of [ctx.report_progress(progress, total, message)]. *)
Record progress_event : Type := ProgressEvent {
  progress : Q;
  total : Q;
  label : string
}.

(** The [_on_status] closure of [_wait_for_completion_with_progress]:
    the progress reports it has sent so far are threaded through. *)
Definition _on_status (model_id : string) (ctx : bool)
    (reported : list progress_event) (status : dict)
  : list progress_event :=
  let state := _status_from_payload status in
  let progress := _progress_from_payload status in
  let progress := if String.eqb state "COMPLETED" then 100%Q else progress in
  if ctx then
    reported ++
      [ProgressEvent progress 100%Q
         (model_id ++ " status=" ++
            (if Py.nonempty state then state else "UNKNOWN"))]
  else reported.
End Status.

(** *** Cost and duration *)

Fixpoint _get_nested_from (cursor : json) (path : list string) : json :=
  match path with
  | [] => cursor
  | key :: rest =>
      match cursor with
      | JObj d =>
          match lookup key d with
          | Some v => _get_nested_from v rest
          | None => JNull
          end
      | _ => JNull
      end
  end.

Definition _get_nested (data : dict) (path : list string) : json :=
  _get_nested_from (JObj data) path.

(** [sources = [payload]], plus [payload["data"]] when it is a [dict]. *)
Definition sources (payload : dict) : list dict :=
  payload ::
    match as_dict (get payload "data") with
    | Some d => [d]
    | None => []
    end.

(** The (source, path) pairs in the order the two nested loops visit. *)
Definition probes (candidate_paths : list (list string)) (payload : dict)
  : list json :=
  flat_map (fun source => map (_get_nested source) candidate_paths)
           (sources payload).

(** First [Some] of a function over a list: a loop that returns at its
    first hit and continues otherwise. *)
Fixpoint first_some {A B : Type} (f : A -> option B) (l : list A) : option B :=
  match l with
  | [] => None
  | x :: r =>
      match f x with
      | Some y => Some y
      | None => first_some f r
      end
  end.

(** [re.search(r"-?\d+(?:\.\d+)?", raw)] *)
Fixpoint take_digits (s : string) : string * string :=
  match s with
  | EmptyString => (EmptyString, EmptyString)
  | String c r =>
      if Py.is_digit c then
        let (ds, rest) := take_digits r in (String c ds, rest)
      else (EmptyString, s)
  end.

Record decimal_match : Type := DecimalMatch {
  negative : bool;
  int_digits : string;
  frac_digits : string
}.

Definition match_digits_here (neg : bool) (s : string) : option decimal_match :=
  let (ds, rest) := take_digits s in
  if Py.nonempty ds then
    match rest with
    | String "."%char r =>
        let (fs, _) := take_digits r in
        Some (DecimalMatch neg ds fs)
    | _ => Some (DecimalMatch neg ds EmptyString)
    end
  else None.

Definition match_decimal_here (s : string) : option decimal_match :=
  match s with
  | String "-"%char r =>
      match match_digits_here true r with
      | Some m => Some m
      | None => None
      end
  | _ => match_digits_here false s
  end.

Fixpoint search_decimal (s : string) : option decimal_match :=
  match match_decimal_here s with
  | Some m => Some m
  | None =>
      match s with
      | EmptyString => None
      | String _ r => search_decimal r
      end
  end.

Fixpoint digits_value (s : string) (acc : Z) : Z :=
  match s with
  | EmptyString => acc
  | String c r => digits_value r (10 * acc + Z.of_nat (Py.code c - 48))%Z
  end.

(** [float(match.group(0))] *)
Definition decimal_value (m : decimal_match) : Q :=
  let scale := Pos.pow 10 (Pos.of_nat (String.length (frac_digits m))) in
  let scale := if Py.nonempty (frac_digits m) then scale else 1%positive in
  let magnitude :=
    Qmake (digits_value (int_digits m ++ frac_digits m) 0) scale in
  if negative m then Qopp magnitude else magnitude.

Definition COST_PATHS : list (list string) :=
  [ ["cost_usd"]; ["cost"]; ["usage"; "cost_usd"]; ["usage"; "cost"];
    ["usage"; "total_cost"]; ["metrics"; "cost"] ].

Definition DURATION_PATHS : list (list string) :=
  [ ["duration_ms"]; ["latency_ms"]; ["timings"; "duration_ms"];
    ["timings"; "total_ms"]; ["metrics"; "duration_ms"] ].

(** The body of the inner loop of [_extract_cost_usd]: [Some] is a
    [return], [None] goes on to the next path. *)
Definition cost_of_raw (raw : json) : option Q :=
  match raw with
  | JNull => None
  | JNum q => Some q
  | JBool b => Some (if b then 1%Q else 0%Q)
  | JStr s =>
      match search_decimal s with
      | Some m => Some (decimal_value m)
      | None => None
      end
  | _ => None
  end.

Definition _extract_cost_usd (payload : dict) : option Q :=
  first_some cost_of_raw (probes COST_PATHS payload).

(** [int(x)] of a float: truncation towards zero. *)
Definition py_int (q : Q) : Z := Z.quot (Qnum q) (Zpos (Qden q)).

Section Duration.
Variable py_float_str : string -> option Q.

Definition duration_of_raw (raw : json) : option Z :=
  match raw with
  | JNull => None
  | _ =>
      match py_float (py_float_str) raw with
      | Some q => Some (py_int q)
      | None => None
      end
  end.

Definition _extract_duration_ms (payload : dict) : option Z :=
  first_some duration_of_raw (probes DURATION_PATHS payload).
End Duration.

(** [a or b] on [float | None] and on [int | None], as [_generate_once]
    combines the result payload with the terminal status payload. *)
Definition or_cost (a b : option Q) : option Q :=
  match a with
  | Some q => if is_zero q then b else a
  | None => b
  end.

Definition or_duration (a b : option Z) : option Z :=
  match a with
  | Some z => if (z =? 0)%Z then b else a
  | None => b
  end.

Definition generate_cost_usd (result_payload terminal_status : dict)
  : option Q :=
  or_cost (_extract_cost_usd result_payload)
          (_extract_cost_usd terminal_status).

Definition generate_duration_ms (py_float_str : string -> option Q)
    (result_payload terminal_status : dict) : option Z :=
  or_duration (_extract_duration_ms py_float_str result_payload)
              (_extract_duration_ms py_float_str terminal_status).

End Extraction.

(* ================================================================== *)
(** ** State and exceptions *)

Module Eff.
Import Errors.

(** A computation over a mutable store [S] that returns or raises; the
    store survives a raise. *)
Definition M (S A : Type) : Type := S -> result A * S.

Definition ret {S A : Type} (a : A) : M S A := fun s => (Ok a, s).
Definition raise {S A : Type} (e : exn) : M S A := fun s => (Raise e, s).

Definition mbind {S A B : Type} (m : M S A) (k : A -> M S B) : M S B :=
  fun s =>
    match m s with
    | (Ok a, s') => k a s'
    | (Raise e, s') => (Raise e, s')
    end.

Definition lift {S A : Type} (r : result A) : M S A := fun s => (r, s).

(** [try: m except <any exception> as e: handler(e)] *)
Definition catch {S A : Type} (m : M S A) (handler : exn -> M S A) : M S A :=
  fun s =>
    match m s with
    | (Ok a, s') => (Ok a, s')
    | (Raise e, s') => handler e s'
    end.

End Eff.

Notation "x <~ c1 ;; c2" := (Eff.mbind c1 (fun x => c2))
  (at level 61, c1 at next level, right associativity).
Notation "c1 ;;; c2" := (Eff.mbind c1 (fun _ => c2))
  (at level 61, right associativity).

(* ================================================================== *)
(** ** Paths and the file system ([genvoy/filesystem.py]) *)

Module Filesystem.
Import Errors Eff.

(** A [pathlib] path: whether it is rooted, and its components.  Empty
    and ["."] components are dropped on construction; [".."] is kept. *)
Record Path : Type := MkPath {
  is_absolute : bool;
  parts : list string
}.

Definition Path_of_string (s : string) : Path :=
  MkPath (Py.startswith s "/")
         (filter MediaType.is_real_part (MediaType.split_slash s EmptyString)).

(** [a / b] *)
Definition joinpath (a b : Path) : Path :=
  if is_absolute b then b else MkPath (is_absolute a) (parts a ++ parts b).

Definition parent (p : Path) : Path :=
  MkPath (is_absolute p) (removelast (parts p)).

Definition name (p : Path) : string := last (parts p) EmptyString.
Definition suffix (p : Path) : string := MediaType.name_suffix (name p).

Definition stem (p : Path) : string :=
  let n := name p in
  String.substring 0 (String.length n - String.length (suffix p)) n.

Definition with_name (p : Path) (n : string) : Path :=
  MkPath (is_absolute p) (removelast (parts p) ++ [n]).

(** [p.with_suffix(ext)]; [ValueError] on an empty name or a suffix
    that does not start with a dot. *)
Definition with_suffix (p : Path) (ext : string) : result Path :=
  if negb (Py.nonempty (name p)) then Raise (OtherError "ValueError")
  else if negb (Py.startswith ext ".") || String.eqb ext "."
  then Raise (OtherError "ValueError")
  else Ok (with_name p (stem p ++ ext)%string).

(** *** The file system

    A physical location is the list of names from the root; the store
    maps the locations that exist to their kind.  The root always exists.
    There are no symbolic links and no permissions in the model. *)

Inductive kind : Type := Dir | File.

Definition location := list string.
Definition fs := list (location * kind).

Definition loc_eqb (a b : location) : bool :=
  if list_eq_dec string_dec a b then true else false.

Fixpoint stat_loc (store : fs) (l : location) : option kind :=
  match l with
  | [] => Some Dir
  | _ =>
      match store with
      | [] => None
      | (l', k) :: r => if loc_eqb l l' then Some k else stat_loc r l
      end
  end.

Inductive errno : Type := ENOENT | ENOTDIR | EEXIST | EISDIR.

Definition os_error (e : errno) : exn :=
  match e with
  | ENOENT => OSError "FileNotFoundError"
  | ENOTDIR => OSError "NotADirectoryError"
  | EEXIST => OSError "FileExistsError"
  | EISDIR => OSError "IsADirectoryError"
  end.

(** Name resolution through directories: each component must name an
    existing directory; [".."] moves to the parent. *)
Fixpoint walk_dirs (store : fs) (cur : location) (comps : list string)
  : errno + location :=
  match comps with
  | [] => inr cur
  | c :: rest =>
      if String.eqb c ".." then walk_dirs store (removelast cur) rest
      else
        match stat_loc store (cur ++ [c]) with
        | Some Dir => walk_dirs store (cur ++ [c]) rest
        | Some File => inl ENOTDIR
        | None => inl ENOENT
        end
  end.

(** Splits a component list into its last component and what precedes. *)
Definition split_last (comps : list string) : option (list string * string) :=
  match rev comps with
  | [] => None
  | l :: rinit => Some (rev rinit, l)
  end.

(** [os.stat(p)] for a rooted path. *)
Definition stat (store : fs) (p : Path) : errno + (location * kind) :=
  match split_last (parts p) with
  | None => inr ([], Dir)
  | Some (init, l) =>
      match walk_dirs store [] init with
      | inl e => inl e
      | inr d =>
          let loc := if String.eqb l ".." then removelast d else d ++ [l] in
          match stat_loc store loc with
          | Some k => inr (loc, k)
          | None => inl ENOENT
          end
      end
  end.

Definition exists_ (store : fs) (p : Path) : bool :=
  match stat store p with inr _ => true | inl _ => false end.

Definition is_dir (store : fs) (p : Path) : bool :=
  match stat store p with inr (_, Dir) => true | _ => false end.

(** [os.mkdir(p)] *)
Definition os_mkdir (store : fs) (p : Path) : errno + fs :=
  match split_last (parts p) with
  | None => inl EEXIST
  | Some (init, l) =>
      match walk_dirs store [] init with
      | inl e => inl e
      | inr d =>
          if String.eqb l ".." then inl EEXIST
          else
            match stat_loc store (d ++ [l]) with
            | Some _ => inl EEXIST
            | None => inr (store ++ [(d ++ [l], Dir)])
            end
      end
  end.

(** [p.mkdir(parents=True, exist_ok=True)], following [pathlib]: try
    [os.mkdir]; on a missing parent create the parent first and retry;
    on any other error succeed only when [p] already is a directory. *)
Fixpoint mkdir_parents_fuel (fuel : nat) (p : Path) : M fs unit :=
  fun store =>
    match os_mkdir store p with
    | inr store' => (Ok tt, store')
    | inl ENOENT =>
        match fuel, parts p with
        | S fuel', _ :: _ =>
            match mkdir_parents_fuel fuel' (parent p) store with
            | (Ok _, store1) =>
                match os_mkdir store1 p with
                | inr store2 => (Ok tt, store2)
                | inl ENOENT => (Raise (os_error ENOENT), store1)
                | inl e =>
                    if is_dir store1 p then (Ok tt, store1)
                    else (Raise (os_error e), store1)
                end
            | (Raise e, store1) => (Raise e, store1)
            end
        | _, _ => (Raise (os_error ENOENT), store)
        end
    | inl e =>
        if is_dir store p then (Ok tt, store) else (Raise (os_error e), store)
    end.

Definition mkdir_parents (p : Path) : M fs unit :=
  mkdir_parents_fuel (S (List.length (parts p))) p.

(** [p.resolve()] without symbolic links: the path made absolute against
    the working directory, with [".."] components applied. *)
Fixpoint normalize (cur : location) (comps : list string) : location :=
  match comps with
  | [] => cur
  | c :: rest =>
      if String.eqb c ".." then normalize (removelast cur) rest
      else normalize (cur ++ [c]) rest
  end.

Section WorkingDirectory.
(** [Path.cwd()]: the working directory of the process. *)
Variable cwd : Path.

Definition resolve (p : Path) : Path :=
  MkPath true (normalize [] (parts (joinpath cwd p))).

(** [path.relative_to(root)] succeeds. *)
Fixpoint is_prefix (root l : location) : bool :=
  match root, l with
  | [], _ => true
  | r :: root', x :: l' => String.eqb r x && is_prefix root' l'
  | _ :: _, [] => false
  end.

Definition _is_within (path root : Path) : bool :=
  Bool.eqb (is_absolute path) (is_absolute root)
  && is_prefix (parts root) (parts path).

Definition ensure_safe_path (path : Path) (cwd_arg : option Path)
  : result Path :=
  let root := resolve (match cwd_arg with Some c => c | None => cwd end) in
  let resolved := resolve path in
  if negb (_is_within resolved root) then
    Raise (GenvoyToolError "PATH_TRAVERSAL_BLOCKED"
             (Msg "Resolved path is outside working directory."))
  else Ok resolved.

(** The candidate [parent / f"{stem}_{idx}{suffix}"]. *)
Definition numbered (path : Path) (idx : nat) : Path :=
  joinpath (parent path)
    (MkPath false
       [(stem path ++ "_" ++ Py.str_of_nat idx ++ suffix path)%string]).

(** The [while True] loop of [unique_path]; the fuel bounds the number
    of candidates tried. *)
Fixpoint unique_from (fuel : nat) (store : fs) (path : Path) (idx : nat)
  : option Path :=
  let candidate := numbered path idx in
  if negb (exists_ store candidate) then Some candidate
  else
    match fuel with
    | O => None
    | S fuel' => unique_from fuel' store path (S idx)
    end.

(** [unique_path]: a store with [n] entries holds at most [n] of the
    candidates, so [n] further tries suffice and the last branch is never
    taken ([UniquePathFacts.unique_path_free]). *)
Definition unique_path (path : Path) : M fs Path :=
  fun store =>
    if negb (exists_ store path) then (Ok path, store)
    else
      match unique_from (List.length store) store path 1 with
      | Some candidate => (Ok candidate, store)
      | None => (Raise (OtherError "unreachable"), store)
      end.

Definition absolute_against_cwd (raw : Path) : Path :=
  if negb (is_absolute raw) then joinpath cwd raw else raw.

Definition resolve_output_path (output_path : Path)
    (preferred_ext : option string) : M fs Path :=
  let raw := absolute_against_cwd output_path in
  mkdir_parents (parent raw) ;;;
  safe <~ lift (ensure_safe_path raw None) ;;
  safe <~ lift
    (match preferred_ext with
     | Some ext =>
         if negb (Py.nonempty (suffix safe)) && Py.nonempty ext
         then with_suffix safe ext else Ok safe
     | None => Ok safe
     end) ;;
  unique_path safe.

(** [shutil.copy2(src, target)]: the source must be a file; the target
    becomes a file. *)
Definition copy2 (src target : Path) : M fs unit :=
  fun store =>
    match stat store src with
    | inl e => (Raise (os_error e), store)
    | inr (_, Dir) => (Raise (os_error EISDIR), store)
    | inr (_, File) =>
        match stat store target with
        | inr (_, Dir) => (Raise (os_error EISDIR), store)
        | inr (loc, File) => (Ok tt, store)
        | inl _ =>
            match split_last (parts target) with
            | None => (Raise (os_error EISDIR), store)
            | Some (init, l) =>
                match walk_dirs store [] init with
                | inl e => (Raise (os_error e), store)
                | inr d => (Ok tt, store ++ [(d ++ [l], File)])
                end
            end
        end
    end.

Definition copy_to_repo (src : Path) (dst : Path) : M fs Path :=
  let target := absolute_against_cwd dst in
  mkdir_parents (parent target) ;;;
  target <~ lift (ensure_safe_path target None) ;;
  target <~ unique_path target ;;
  copy2 src target ;;;
  ret target.

(** The locations of the store that do not lie under [root]. *)
Definition outside (root : location) (store : fs) : list location :=
  map fst (filter (fun e => negb (is_prefix root (fst e))) store).
End WorkingDirectory.

End Filesystem.

(* ================================================================== *)
(** ** The remote job client ([genvoy/fal_client.py]) *)

Module FalClient.
Import Json Errors Eff.

Definition BASE_API : string := "https://api.fal.ai/v1".
Definition QUEUE_API : string := "https://queue.fal.run".

(** An HTTP response as [httpx] hands it over. *)
Record response : Type := Response {
  status_code : nat;
  headers : list (string * string);
  content : string
}.

(** What one HTTP exchange produced: a transport failure
    ([httpx.HTTPError]) or a response. *)
Inductive exchange : Type :=
| Failed (text : string)
| Answered (r : response).

(** [response.headers.get(name)]: header names compare without case. *)
Fixpoint header (name : string) (hs : list (string * string)) : option string :=
  match hs with
  | [] => None
  | (k, v) :: r =>
      if String.eqb (Py.lower k) (Py.lower name) then Some v else header name r
  end.

(** [needle in s] *)
Fixpoint contains (needle s : string) : bool :=
  Py.startswith s needle ||
  match s with
  | EmptyString => false
  | String _ r => contains needle r
  end.

Definition is_success (code : nat) : bool :=
  Nat.leb 200 code && Nat.leb code 299.

(** [response.text[:500]] *)
Definition body_excerpt (r : response) : string :=
  String.substring 0 500 (content r).

Section Client.
(** [json.loads]: [None] stands for a decoding error. *)
Variable json_loads : string -> option json.
(** [str(v)] of a value that is not a [str]. *)
Variable py_repr : json -> string.

Definition _request (method url : string) (x : exchange) : result json :=
  match x with
  | Failed text =>
      Raise (GenvoyToolError "NETWORK_ERROR"
               (Msg ("fal.ai request failed: " ++ text)))
  | Answered r =>
      if Nat.eqb (status_code r) 429 then
        Raise (GenvoyToolError "RATE_LIMITED"
                 (Msg ("Rate limited by fal.ai. Retry-After=" ++
                       match header "Retry-After" (headers r) with
                       | Some v => v
                       | None => "unknown"
                       end ++ ".")))
      else if Nat.eqb (status_code r) 404 then
        Raise (GenvoyToolError "MODEL_NOT_FOUND"
                 (Msg "Model or request ID not found."))
      else if Nat.eqb (status_code r) 403 && contains "/models/usage" url then
        Raise (GenvoyToolError "ADMIN_KEY_REQUIRED"
                 (Msg "fal.ai usage history requires an Admin API key."))
      else if Nat.eqb (status_code r) 504 &&
              match header "X-Fal-Request-Timeout-Type" (headers r) with
              | Some v => String.eqb v "user"
              | None => false
              end then
        Raise (GenvoyToolError "QUEUE_START_TIMEOUT"
          (Msg "Queue job did not start within the requested timeout window."))
      else if negb (is_success (status_code r)) then
        Raise (GenvoyToolError "FAL_API_ERROR"
                 (Msg (Py.str_of_nat (status_code r) ++
                       " response from fal.ai: " ++ body_excerpt r)))
      else if negb (Py.nonempty (content r)) then Ok (JObj [])
      else
        match json_loads (content r) with
        | Some v => Ok v
        | None =>
            Raise (GenvoyToolError "INVALID_RESPONSE"
                     (Msg "fal.ai returned non-JSON payload."))
        end
  end.

Definition py_str (v : json) : string :=
  match v with
  | JStr s => s
  | _ => py_repr v
  end.

Definition _status_value (payload : dict) : string :=
  match as_dict (get payload "data") with
  | Some nested =>
      Py.upper (py_str
        (por (get nested "status")
          (por (get nested "state")
            (por (get payload "status")
              (por (get payload "state") (JStr EmptyString))))))
  | None =>
      Py.upper (py_str
        (por (get payload "status")
          (por (get payload "state") (JStr EmptyString))))
  end.

(** [state in {"COMPLETED", "FAILED"}] *)
Definition is_terminal (state : string) : bool :=
  String.eqb state "COMPLETED" || String.eqb state "FAILED".

(** *** The queue calls *)

Definition request_url (model_id request_id : string) : string :=
  QUEUE_API ++ "/" ++ model_id ++ "/requests/" ++ request_id.

Definition submit_job (model_id : string) (x : exchange) : result json :=
  _request "POST" (QUEUE_API ++ "/" ++ model_id) x.

Definition get_job_status (model_id request_id : string) (x : exchange)
  : result json :=
  _request "GET" (request_url model_id request_id ++ "/status") x.

Definition get_job_result (model_id request_id : string) (x : exchange)
  : result json :=
  _request "GET" (request_url model_id request_id) x.

Definition cancel_job (model_id request_id : string) (x : exchange)
  : result json :=
  _request "PUT" (request_url model_id request_id ++ "/cancel") x.

(** *** Waiting for a terminal state *)

(** What the client has done so far: the number of status requests it
    has sent and the payloads it has handed to the callback. *)
Record world : Type := World {
  polls : nat;
  callback_log : list json
}.

Definition start : world := World 0 [].

(** How a server-sent event stream goes: the connection fails, or a
    response arrives whose lines are read until the server closes the
    stream or the transport breaks. *)
Inductive stream_end : Type := Closed | Broken (text : string).

Inductive stream_attempt : Type :=
| ConnectFailed (text : string)
| Stream (code : nat) (lines : list string) (ending : stream_end).

(** The callback: given the payloads it has already seen and the new
    one, it returns ([None]) or raises. *)
Definition callback := list json -> json -> option exn.

Section Waiting.
Variable on_status : option callback.
(** The exchange that answers the [k]-th status request. *)
Variable status_exchange : nat -> exchange.

(** [if on_status: maybe_awaitable = on_status(payload); ...] *)
Definition notify (payload : json) : M world unit :=
  fun w =>
    match on_status with
    | None => (Ok tt, w)
    | Some cb =>
        let w' := World (polls w) (callback_log w ++ [payload]) in
        match cb (callback_log w) payload with
        | None => (Ok tt, w')
        | Some e => (Raise e, w')
        end
    end.

(** The local variables of the line loop of [stream_job_status]. *)
Record locals : Type := Locals {
  data_lines : list string;
  last_payload : option dict
}.

Inductive control : Type :=
| Continue (l : locals)
| Return (payload : dict).

(** One iteration of [async for line in response.aiter_lines()]. *)
Definition on_line (l : locals) (line : string) : M world control :=
  if Py.startswith line "data:" then
    ret (Continue (Locals (data_lines l ++ [Py.lstrip (Py.drop 5 line)])
                          (last_payload l)))
  else if Py.nonempty (Py.strip line) then ret (Continue l)
  else
    match data_lines l with
    | [] => ret (Continue l)
    | _ :: _ =>
        let raw := Py.strip (Py.join Py.newline (data_lines l)) in
        let l := Locals [] (last_payload l) in
        if negb (Py.nonempty raw) then ret (Continue l)
        else
          match json_loads raw with
          | None => ret (Continue l)
          | Some (JObj payload) =>
              let l := Locals [] (Some payload) in
              notify (JObj payload) ;;;
              if is_terminal (_status_value payload)
              then ret (Return payload)
              else ret (Continue l)
          | Some _ => ret (Continue l)
          end
    end.

Fixpoint read_lines (l : locals) (lines : list string) : M world control :=
  match lines with
  | [] => ret (Continue l)
  | line :: rest =>
      c <~ on_line l line ;;
      match c with
      | Continue l' => read_lines l' rest
      | Return payload => ret (Return payload)
      end
  end.

Definition sse_unavailable (text : string) : exn :=
  GenvoyToolError "SSE_UNAVAILABLE" (Msg text).

(** The [except] clauses of [stream_job_status]. *)
Definition stream_handlers {A : Type} (e : exn) : M world A :=
  match e with
  | GenvoyToolError _ _ => raise e
  | HTTPStatusError _ => raise (sse_unavailable "SSE stream request failed.")
  | HTTPError _ => raise (sse_unavailable "SSE stream unavailable.")
  | _ => raise e
  end.

(** The body of the [try] of [stream_job_status]: [Return] leaves the
    function, [Continue] reaches the code after the [try]. *)
Definition stream_body (attempt : stream_attempt) : M world control :=
  match attempt with
  | ConnectFailed text => raise (HTTPError text)
  | Stream code lines ending =>
      if Nat.eqb code 404 || Nat.eqb code 405 || Nat.eqb code 501 then
        raise (sse_unavailable "SSE stream unavailable.")
      else if negb (is_success code) then raise (HTTPStatusError code)
      else
        c <~ read_lines (Locals [] None) lines ;;
        match c with
        | Return payload => ret (Return payload)
        | Continue l =>
            match ending with
            | Closed => ret (Continue l)
            | Broken text => raise (HTTPError text)
            end
        end
  end.

Definition stream_job_status (attempt : stream_attempt) : M world dict :=
  c <~ catch (stream_body attempt) stream_handlers ;;
  match c with
  | Return payload => ret payload
  | Continue l =>
      match last_payload l with
| Some ((_ :: _) as last) =>
          if is_terminal (_status_value last) then ret last
          else raise (sse_unavailable
                        "SSE stream ended without usable status events.")
      | _ => raise (sse_unavailable
                      "SSE stream ended without usable status events.")
      end
  end.

Definition job_failed (payload : dict) : exn :=
  GenvoyToolError "JOB_FAILED" (MsgWith "fal.ai job failed: " (JObj payload)).

Definition job_timeout (request_id : string) : exn :=
  GenvoyToolError "JOB_TIMEOUT" (Msg ("Job " ++ request_id ++ " timed out.")).

(** The [try] of [wait_for_completion]: [Some] is a [return], [None]
    reaches the polling loop. *)
Definition stream_path (attempt : stream_attempt) : M world (option dict) :=
  catch
    (terminal <~ stream_job_status attempt ;;
     let state := _status_value terminal in
     if String.eqb state "COMPLETED" then ret (Some terminal)
     else if String.eqb state "FAILED" then raise (job_failed terminal)
     else ret None)
    (fun e =>
       match e with
       | GenvoyToolError _ _ =>
           if negb (has_code "SSE_UNAVAILABLE" e) then raise e else ret None
       | _ => raise e
       end).

Section Polling.
Variables model_id request_id : string.
Variables timeout_seconds poll_interval_seconds : Q.

(** One status request: the [polls w]-th exchange answers it. *)
Definition poll_status : M world json :=
  fun w =>
    (get_job_status model_id request_id (status_exchange (polls w)),
     World (S (polls w)) (callback_log w)).

(** The body of the [while]: [Some] leaves the function. *)
Definition poll_once : M world (option dict) :=
  status <~ poll_status ;;
  notify status ;;;
  match status with
  | JObj payload =>
      let state := _status_value payload in
      if String.eqb state "COMPLETED" then ret (Some payload)
      else if String.eqb state "FAILED" then raise (job_failed payload)
      else ret None
  | _ => raise (OtherError "AttributeError")
  end.

(** [while elapsed < timeout_seconds: ...]; [None] when the fuel
    runs out before the loop ends. *)
Fixpoint poll_loop (fuel : nat) (elapsed : Q) (w : world)
  : option (result dict * world) :=
  if Qlt_le_dec elapsed timeout_seconds then
    match fuel with
    | O => None
    | S fuel' =>
        match poll_once w with
        | (Ok (Some payload), w') => Some (Ok payload, w')
        | (Ok None, w') =>
            poll_loop fuel' (elapsed + poll_interval_seconds)%Q w'
        | (Raise e, w') => Some (Raise e, w')
        end
    end
  else Some (Raise (job_timeout request_id), w).

Definition wait_for_completion (fuel : nat) (attempt : stream_attempt)
    (w : world) : option (result dict * world) :=
  match stream_path attempt w with
  | (Ok (Some terminal), w') => Some (Ok terminal, w')
  | (Ok None, w') => poll_loop fuel 0%Q w'
  | (Raise e, w') => Some (Raise e, w')
  end.

(** Iterations after which the loop has certainly ended when the
    interval is positive. *)
Definition enough_fuel : nat :=
  Z.to_nat (Qnum timeout_seconds * Zpos (Qden poll_interval_seconds)).
End Polling.
End Waiting.
End Client.

End FalClient.

(* ================================================================== *)
(** ** Batch and compare fan-out ([genvoy/server.py], [genvoy/models.py]) *)

Module Server.
Import Json Errors Eff Filesystem.

Definition MAX_PROMPT_LENGTH : nat := 100 * 100.
Definition MAX_BATCH_COUNT : Z := 10.
Definition MAX_COMPARE_MODELS : nat := 6.

Record GenerateResult : Type := MkGenerateResult {
  request_id : string;
  output_path : string;
  repo_path : option string;
  media_type : string;
  file_size_kb : Q;
  model_id : string;
  cost_usd : option Q;
  duration_ms : option Z;
  result_url : string
}.

(** The keyword arguments of one [_generate_once] call. *)
Record GenerateArgs : Type := MkGenerateArgs {
  arg_model_id : string;
  arg_prompt : string;
  arg_params : dict;
  arg_output_path : Path;
  arg_repo_path : option Path;
  arg_timeout_seconds : Q
}.

Record BatchInput : Type := MkBatchInput {
  batch_model_id : string;
  batch_prompt : string;
  batch_count : Z;
  batch_output_dir : string;
  batch_repo_dir : option string;
  batch_params : dict
}.

Record CompareInput : Type := MkCompareInput {
  compare_model_ids : list string;
  compare_prompt : string;
  compare_output_dir : string;
  compare_repo_dir : option string;
  compare_params : dict
}.

(** [BatchResult] and [CompareResult] have the same two fields. *)
Record FanoutResult : Type := MkFanoutResult {
  files : list GenerateResult;
  failed : list dict
}.

(** *** Validation ([MODEL_ID_PATTERN] and the field bounds) *)

Definition is_id_char (c : ascii) : bool :=
  Py.is_alnum c || Ascii.eqb c "."%char || Ascii.eqb c "_"%char
  || Ascii.eqb c "-"%char.

Fixpoint all_chars (f : ascii -> bool) (s : string) : bool :=
  match s with
  | EmptyString => true
  | String c r => f c && all_chars f r
  end.

(** One [[A-Za-z0-9][A-Za-z0-9._-]*] segment. *)
Definition is_id_segment (s : string) : bool :=
  match s with
  | EmptyString => false
  | String c r => Py.is_alnum c && all_chars is_id_char r
  end.

(** [$] also matches just before a final newline. *)
Definition drop_final_newline (s : string) : string :=
  match Py.srev s with
  | String c r => if Nat.eqb (Py.code c) 10 then Py.srev r else s
  | EmptyString => s
  end.

Definition matches_model_id (s : string) : bool :=
  let segments := MediaType.split_slash (drop_final_newline s) EmptyString in
  Nat.leb 2 (List.length segments) && forallb is_id_segment segments.

Definition validation_error (code text : string) : exn :=
  GenvoyToolError code (Msg text).

Definition check_model_id {S : Type} (m : string) : M S unit :=
  if matches_model_id m then ret tt
  else raise (validation_error "INVALID_MODEL_ID" "Invalid model ID format.").

Definition check_prompt {S : Type} (p : string) : M S unit :=
  if Nat.leb (String.length p) MAX_PROMPT_LENGTH then ret tt
  else raise (validation_error "PROMPT_TOO_LONG"
                "Prompt exceeds MAX_PROMPT_LENGTH.").

Definition validate_batch {S : Type} (data : BatchInput) : M S unit :=
  check_model_id (batch_model_id data) ;;;
  check_prompt (batch_prompt data) ;;;
  if ((1 <=? batch_count data) && (batch_count data <=? MAX_BATCH_COUNT))%Z
  then ret tt
  else raise (validation_error "VALIDATION_ERROR" "count out of range").

Fixpoint check_model_ids {S : Type} (ms : list string) : M S unit :=
  match ms with
  | [] => ret tt
  | m :: r => check_model_id m ;;; check_model_ids r
  end.

Definition validate_compare {S : Type} (data : CompareInput) : M S unit :=
  (if Nat.leb 2 (List.length (compare_model_ids data))
      && Nat.leb (List.length (compare_model_ids data)) MAX_COMPARE_MODELS
   then check_model_ids (compare_model_ids data)
   else raise (validation_error "VALIDATION_ERROR"
                 "model_ids size out of range")) ;;;
  check_prompt (compare_prompt data).

(** *** [_slugify_model_id] *)

(** [re.sub(r"[^a-zA-Z0-9._-]+", "-", s)]: every maximal run of other
    characters becomes one dash. *)
Fixpoint sub_runs (in_run : bool) (s : string) : string :=
  match s with
  | EmptyString => EmptyString
  | String c r =>
      if is_id_char c then String c (sub_runs false r)
      else if in_run then sub_runs true r
      else String "-"%char (sub_runs true r)
  end.

Fixpoint lstrip_dash (s : string) : string :=
  match s with
  | String "-"%char r => lstrip_dash r
  | _ => s
  end.

Definition strip_dash (s : string) : string :=
  Py.srev (lstrip_dash (Py.srev (lstrip_dash s))).

Definition _slugify_model_id (m : string) : string :=
  Py.lower (strip_dash (sub_runs false m)).

(** *** Fan-out *)

Definition child (base : Path) (n : string) : Path :=
  joinpath base (MkPath false [n]).

(** [Path(repo_dir) / name if repo_dir else None] *)
Definition repo_target (repo_dir : option string) (n : string) : option Path :=
  match repo_dir with
  | Some d => if Py.nonempty d then Some (child (Path_of_string d) n) else None
  | None => None
  end.

Definition batch_tasks (data : BatchInput) : list GenerateArgs :=
  let output_base := Path_of_string (batch_output_dir data) in
  let slug := _slugify_model_id (batch_model_id data) in
  map (fun idx =>
         let n := (slug ++ "_" ++ Py.str_of_nat (idx + 1))%string in
         MkGenerateArgs (batch_model_id data) (batch_prompt data)
           (batch_params data) (child output_base n)
           (repo_target (batch_repo_dir data) n) 600%Q)
      (seq 0 (Z.to_nat (batch_count data))).

Definition compare_tasks (data : CompareInput) : list GenerateArgs :=
  let output_base := Path_of_string (compare_output_dir data) in
  map (fun m =>
         let slug := _slugify_model_id m in
         MkGenerateArgs m (compare_prompt data) (compare_params data)
           (child output_base slug)
           (repo_target (compare_repo_dir data) slug) 600%Q)
      (compare_model_ids data).

Definition int_value (n : nat) : json := JNum (inject_Z (Z.of_nat n)).

(** The loop over [enumerate(results)] of [generate_batch]. *)
Fixpoint collect_batch (str_exn : exn -> string) (idx : nat)
    (results : list (result GenerateResult)) : FanoutResult :=
  match results with
  | [] => MkFanoutResult [] []
  | item :: rest =>
      let acc := collect_batch str_exn (S idx) rest in
      match item with
      | Raise e =>
          MkFanoutResult (files acc)
            ([("index", int_value (idx + 1)); ("error", JStr (str_exn e))]
               :: failed acc)
      | Ok r => MkFanoutResult (r :: files acc) (failed acc)
      end
  end.

(** The loop over [zip(data.model_ids, results)] of [generate_compare]. *)
Fixpoint collect_compare (str_exn : exn -> string)
    (pairs : list (string * result GenerateResult)) : FanoutResult :=
  match pairs with
  | [] => MkFanoutResult [] []
  | (m, item) :: rest =>
      let acc := collect_compare str_exn rest in
      match item with
      | Raise e =>
          MkFanoutResult (files acc)
            ([("model_id", JStr m); ("error", JStr (str_exn e))] :: failed acc)
      | Ok r => MkFanoutResult (r :: files acc) (failed acc)
      end
  end.

Section Fanout.
(** The store the orchestrations act on. *)
Variable cwd : Path.
(** One orchestration, from submission to download and copy. *)
Variable _generate_once : GenerateArgs -> M fs GenerateResult.
(** [str(exc)] *)
Variable str_exn : exn -> string.

(** [asyncio.gather] with [return_exceptions=True]: every task runs
    to its end and contributes its result or its exception. *)
Fixpoint gather (tasks : list GenerateArgs) (store : fs)
  : list (result GenerateResult) * fs :=
  match tasks with
  | [] => ([], store)
  | t :: rest =>
      let (item, store1) := _generate_once t store in
      let (items, store2) := gather rest store1 in
      (item :: items, store2)
  end.

Definition generate_batch (data : BatchInput) : M fs FanoutResult :=
  validate_batch data ;;;
  mkdir_parents
    (absolute_against_cwd cwd (Path_of_string (batch_output_dir data))) ;;;
  (fun store =>
     let (results, store') := gather (batch_tasks data) store in
     (Ok (collect_batch str_exn 0 results), store')).

Definition generate_compare (data : CompareInput) : M fs FanoutResult :=
  validate_compare data ;;;
  mkdir_parents
    (absolute_against_cwd cwd (Path_of_string (compare_output_dir data))) ;;;
  (fun store =>
     let (results, store') := gather (compare_tasks data) store in
     (Ok (collect_compare str_exn
            (combine (compare_model_ids data) results)), store')).
End Fanout.

End Server.

(* ================================================================== *)
(** ** Specification-side notions and a concrete environment *)

Module Spec.
Import Json Errors.

(** *** Media URL candidates, as the specification words them *)

Definition is_preferred (k : string) : bool :=
  existsb (String.eqb k) Extraction.PREFERRED_KEYS.

(** Every dictionary, at every depth, binds each key once. *)
Fixpoint keys_unique (k : list string) : bool :=
  match k with
  | [] => true
  | x :: r => negb (existsb (String.eqb x) r) && keys_unique r
  end.

Fixpoint well_formed (v : json) : bool :=
  match v with
  | JArr items => forallb well_formed items
  | JObj fields =>
      keys_unique (map fst fields)
      && forallb (fun kv => well_formed (snd kv)) fields
  | _ => true
  end.

(** The candidate URLs in traversal order: a string that starts with an
    http(s) scheme is a candidate; an array is searched item by item; a
    dictionary is searched under its preferred keys, in their fixed
    order, and then under its remaining keys. *)
Fixpoint candidates (v : json) : list string :=
  match v with
  | JStr s => if Extraction.is_http s then [s] else []
  | JArr items => flat_map candidates items
  | JObj fields =>
      let sub := map (fun kv => (fst kv, candidates (snd kv))) fields in
      flat_map (fun k => match lookup k sub with Some c => c | None => [] end)
               Extraction.PREFERRED_KEYS
      ++ flat_map snd (filter (fun kc => negb (is_preferred (fst kc))) sub)
  | _ => []
  end.

(** The candidates in the order the code visits them: after the
    preferred keys it scans every value again. *)
Fixpoint visited (v : json) : list string :=
  match v with
  | JStr s => if Extraction.is_http s then [s] else []
  | JArr items => flat_map visited items
  | JObj fields =>
      let sub := map (fun kv => (fst kv, visited (snd kv))) fields in
      flat_map (fun k => match lookup k sub with Some c => c | None => [] end)
               Extraction.PREFERRED_KEYS
      ++ flat_map snd sub
  | _ => []
  end.

(** The first candidate of a recognised media kind; failing that the
    first candidate; failing that nothing. *)
Definition preferred_candidate (is_media : string -> bool)
    (urls : list string) : option string :=
  match find is_media urls with
  | Some u => Some u
  | None => head urls
  end.

(** Two candidate lists that [preferred_candidate] cannot tell apart. *)
Definition agree (P : string -> bool) (a b : list string) : Prop :=
  find P a = find P b /\ (find P a = None -> head a = head b).

(** *** Cost and duration, as the specification words them *)

(** A candidate key-path is present in a source. *)
Fixpoint path_present (cursor : json) (path : list string) : bool :=
  match path with
  | [] => true
  | key :: rest =>
      match cursor with
      | JObj d =>
          match lookup key d with
          | Some v => path_present v rest
          | None => false
          end
      | _ => false
      end
  end.

Definition some_path_present (paths : list (list string)) (payload : dict)
  : bool :=
  existsb (fun source => existsb (path_present (JObj source)) paths)
          (Extraction.sources payload).

(** [v] is what [f] gives on the first element of [l] it accepts. *)
Definition first_usable {A B : Type} (f : A -> option B) (l : list A) (v : B)
  : Prop :=
  exists before x after,
    l = before ++ x :: after
    /\ Forall (fun y => f y = None) before
    /\ f x = Some v.

(** *** The queue calls of the client *)

Definition queue_calls (json_loads : string -> option json)
    (model_id request_id : string)
  : list (FalClient.exchange -> result json) :=
  [ FalClient.submit_job json_loads model_id;
    FalClient.get_job_status json_loads model_id request_id;
    FalClient.get_job_result json_loads model_id request_id;
    FalClient.cancel_job json_loads model_id request_id ].

(** *** Assumptions on the environment of [wait_for_completion] *)

(** The per-event callback returns whenever it is called. *)
Definition callback_returns (on_status : option FalClient.callback) : Prop :=
  forall cb, on_status = Some cb -> forall seen payload, cb seen payload = None.

(** Every status request is answered by a status event: a response whose
    body decodes to a dictionary. *)
Definition polls_observe_events (json_loads : string -> option json)
    (status_exchange : nat -> FalClient.exchange)
    (model_id request_id : string) : Prop :=
  forall k, exists payload : dict,
    FalClient.get_job_status json_loads model_id request_id (status_exchange k)
    = Ok (JObj payload).

(** The outcomes the specification allows [wait_for_completion]: a
    COMPLETED payload, JOB_FAILED for a FAILED payload, or JOB_TIMEOUT. *)
Definition allowed_outcome (py_repr : json -> string) (request_id : string)
    (r : result dict) : Prop :=
  match r with
  | Ok payload => FalClient._status_value py_repr payload = "COMPLETED"
  | Raise e =>
      (exists payload,
          e = FalClient.job_failed payload
          /\ FalClient._status_value py_repr payload = "FAILED")
      \/ e = FalClient.job_timeout request_id
  end.

(** *** Fan-out *)

(** The failed entries a batch and a compare report. *)
Definition batch_failure (str_exn : exn -> string) (index : nat) (e : exn)
  : dict :=
  [("index", Server.int_value index); ("error", JStr (str_exn e))].

Definition compare_failure (str_exn : exn -> string) (model_id : string)
    (e : exn) : dict :=
  [("model_id", JStr model_id); ("error", JStr (str_exn e))].

(** The results of the items that succeeded, in order. *)
Definition successes {A : Type} (results : list (result A)) : list A :=
  flat_map (fun item => match item with Ok r => [r] | Raise _ => [] end)
           results.

(** The items that failed, each with the model it was started for. *)
Definition failures_by_model {A : Type} (pairs : list (string * result A))
  : list (string * exn) :=
  flat_map (fun p => match snd p with
                     | Raise e => [(fst p, e)]
                     | Ok _ => []
                     end) pairs.

(** *** A concrete environment for evaluating the model *)

Definition quote : string := String (ascii_of_nat 34) EmptyString.

(** The body of a status object with the one field [status]. *)
Definition status_body (state : string) : string :=
  "{" ++ quote ++ "status" ++ quote ++ ":" ++ quote ++ state ++ quote ++ "}".

(** A decoder that knows a handful of bodies. *)
Definition sample_loads (s : string) : option json :=
  if String.eqb s "{}" then Some (JObj [])
  else if String.eqb s "[]" then Some (JArr [])
  else if String.eqb s (status_body "COMPLETED")
  then Some (JObj [("status", JStr "COMPLETED")])
  else if String.eqb s (status_body "FAILED")
  then Some (JObj [("status", JStr "FAILED")])
  else if String.eqb s (status_body "IN_PROGRESS")
  then Some (JObj [("status", JStr "IN_PROGRESS")])
  else None.

(** A stream endpoint that is not there, and a job that is in progress at
    the first status request and completed at the second. *)
Definition sample_stream : FalClient.stream_attempt :=
  FalClient.Stream 404 [] FalClient.Closed.

Definition sample_status (k : nat) : FalClient.exchange :=
  FalClient.Answered
    (FalClient.Response 200 []
       (status_body (if Nat.ltb k 1 then "IN_PROGRESS" else "COMPLETED"))).

(** An orchestration that fails for the output name that ends in [_2] and
    for the model [fal-ai/bad/model], and otherwise succeeds without
    touching the store. *)
Definition sample_result (args : Server.GenerateArgs)
  : Server.GenerateResult :=
  Server.MkGenerateResult "req" (Filesystem.name (Server.arg_output_path args))
    None "image" 1 (Server.arg_model_id args) None None
    "https://cdn.fal.ai/out.png".

Definition sample_generate_once (args : Server.GenerateArgs)
  : Eff.M Filesystem.fs Server.GenerateResult :=
  if String.eqb (Filesystem.name (Server.arg_output_path args))
       "fal-ai-flux-dev_2"
     || String.eqb (Server.arg_model_id args) "fal-ai/bad/model"
  then Eff.raise (GenvoyToolError "JOB_FAILED" (Msg "forced failure"))
  else Eff.ret (sample_result args).

Definition sample_str_exn (e : exn) : string :=
  match e with
  | GenvoyToolError code (Msg text) => code ++ ": " ++ text
  | GenvoyToolError code (MsgWith text _) => code ++ ": " ++ text
  | HTTPStatusError _ => "HTTPStatusError"
  | HTTPError text => text
  | OSError kind => kind
  | OtherError name => name
  end.

Definition sample_cwd : Filesystem.Path := Filesystem.Path_of_string "/work".

Definition sample_store : Filesystem.fs :=
  [ (["work"], Filesystem.Dir); (["outside.txt"], Filesystem.File);
    (["work"; "hero.png"], Filesystem.File) ].

Definition sample_batch : Server.BatchInput :=
  Server.MkBatchInput "fal-ai/flux/dev" "batch item" 3 "batch" None [].

Definition sample_compare : Server.CompareInput :=
  Server.MkCompareInput ["fal-ai/good/model"; "fal-ai/bad/model"]
    "compare item" "compare" None [].

(** A result whose first candidates carry no media extension. *)
Definition sample_media_payload : json :=
  JObj
    [ ("logs", JStr "https://fal.ai/logs/42");
      ("result", JObj [("url", JStr "https://cdn.fal.ai/a.bin")]);
      ("images", JArr [JStr "https://cdn.fal.ai/b.png"]) ].

Definition sample_repr (v : json) : string :=
  match v with
  | JNull => "None"
  | JBool true => "True"
  | JBool false => "False"
  | JNum _ => "0"
  | JStr s => s
  | JArr _ => "[]"
  | JObj _ => "{}"
  end.

(** [float] of decimal literals. *)
Definition sample_float (s : string) : option Q :=
  match Extraction.match_decimal_here (Py.strip s) with
  | Some m =>
      if String.eqb (Py.strip s)
           ((if Extraction.negative m then "-" else EmptyString) ++
            Extraction.int_digits m ++
            (if Py.nonempty (Extraction.frac_digits m)
             then "." ++ Extraction.frac_digits m else EmptyString))
      then Some (Extraction.decimal_value m) else None
  | None => None
  end.

End Spec.


(* ================================================================== *)
(** ** Settings ([genvoy/config.py]) *)

Module Config.
Import Errors.

Record Settings : Type := MkSettings { fal_key : string }.

(** [get_settings]: [environ] is the value of [FAL_KEY] once
    [load_dotenv] has run, [None] when the variable is not set. *)
Definition get_settings (environ : option string) (require_key : bool)
  : result Settings :=
  let key :=
    Py.strip (match environ with Some v => v | None => EmptyString end) in
  let key :=
    if Py.nonempty key && negb (Py.startswith (Py.lower key) "key ")
    then ("Key " ++ key)%string else key in
  if require_key && negb (Py.nonempty key)
  then Raise (OtherError "RuntimeError")
  else Ok (MkSettings key).

End Config.

(* ================================================================== *)
(** ** The catalogue calls of the client ([genvoy/fal_client.py]) *)

Module FalApi.
Import Json Errors Eff FalClient.

(** One call of [self.client.request(method, url, params=, json=)]. *)
Record call : Type := Call {
  call_method : string;
  call_url : string;
  call_params : dict;
  call_json : option json
}.

(** The network as the clients have used it: the calls made so far, in
    order, and the number of [httpx] clients created and not closed. *)
Record net : Type := Net {
  sent : list call;
  open_clients : nat
}.

Record client : Type := Client {
  fal_key : string;
  default_headers : list (string * string)
}.

(** [FalClient(fal_key)]: the check of the key and the headers of the
    [httpx] client it creates. *)
Definition __init__ (fal_key : string) : result client :=
  if negb (Py.nonempty fal_key) then
    Raise (GenvoyToolError "MISSING_FAL_KEY" (Msg "FAL_KEY is not configured."))
  else
    Ok (Client fal_key
          [ ("Authorization", fal_key);
            ("Content-Type", "application/json");
            ("Accept", "application/json") ]).

(** Creating and closing the [httpx] client. *)
Definition opened : M net unit :=
  fun n => (Ok tt, Net (sent n) (S (open_clients n))).

Definition aclose : M net unit :=
  fun n => (Ok tt, Net (sent n) (Nat.pred (open_clients n))).

(** Truthiness, [a or b] and [a != b] on [str | None]. *)
Definition truthy_str (o : option string) : bool :=
  match o with Some s => Py.nonempty s | None => false end.

Definition str_or (a b : option string) : option string :=
  if truthy_str a then a else b.

Definition str_ne (a b : option string) : bool :=
  match a, b with
  | Some x, Some y => negb (String.eqb x y)
  | None, None => false
  | _, _ => true
  end.

Definition str_json (o : option string) : json :=
  match o with Some s => JStr s | None => JNull end.

(** [d[k] = v] *)
Fixpoint set_item (d : dict) (k : string) (v : json) : dict :=
  match d with
  | [] => [(k, v)]
  | (k', v') :: r =>
      if String.eqb k' k then (k', v) :: r else (k', v') :: set_item r k v
  end.

Definition ambiguous_cursor : exn :=
  GenvoyToolError "AMBIGUOUS_PAGINATION_CURSOR"
    (Msg "Provide only one of cursor or page, or set both to the same value.").

Section Api.
Variable json_loads : string -> option json.
(** The exchange a call leads to, given the calls made before it. *)
Variable transport : list call -> call -> exchange.

(** A call goes out and [handle] turns its exchange into the result. *)
Definition perform (c : call) (handle : exchange -> result json)
  : M net json :=
  fun n =>
    (handle (transport (sent n) c), Net (sent n ++ [c]) (open_clients n)).

(** [self._request(method, url, params=params, json=body)] *)
Definition request (method url : string) (params : dict)
    (body : option json) : M net json :=
  perform (Call method url params body) (_request json_loads method url).

Definition search_models (query : string)
    (category cursor page : option string) : M net json :=
  if truthy_str cursor && truthy_str page && str_ne cursor page then
    raise ambiguous_cursor
  else
    let effective_cursor := str_or cursor page in
    let params := [("q", JStr query)] in
    let params :=
      if truthy_str category
      then set_item params "category" (str_json category) else params in
    let params :=
      if truthy_str effective_cursor
      then set_item params "cursor" (str_json effective_cursor)
      else params in
    request "GET" (BASE_API ++ "/models") params None.

Definition list_models (category cursor page : option string) : M net json :=
  if truthy_str cursor && truthy_str page && str_ne cursor page then
    raise ambiguous_cursor
  else
    let effective_cursor := str_or cursor page in
    let params := [] in
    let params :=
      if truthy_str category
      then set_item params "category" (str_json category) else params in
    let params :=
      if truthy_str effective_cursor
      then set_item params "cursor" (str_json effective_cursor)
      else params in
    request "GET" (BASE_API ++ "/models") params None.

Definition get_schema (model_id : string) : M net json :=
  payload <~ request "GET" (BASE_API ++ "/models")
               [("endpoint_id", JStr model_id); ("expand", JStr "openapi-3.0")]
               None ;;
  match payload with
  | JObj fields =>
      match get fields "models" with
      | JArr (model_entry :: _) =>
          match model_entry with
          | JObj entry =>
              ret (match lookup "openapi" entry with
                   | Some v => v
                   | None => model_entry
                   end)
          | _ => raise (OtherError "AttributeError")
          end
      | _ =>
          ret (match lookup "openapi" fields with
               | Some v => v
               | None => payload
               end)
      end
  | _ => raise (OtherError "AttributeError")
  end.

Definition estimate_cost (model_id : string) (count : Z) : M net json :=
  pricing <~ request "GET" (BASE_API ++ "/models/pricing")
               [("endpoint_id", JStr model_id)] None ;;
  estimate <~ request "POST" (BASE_API ++ "/models/pricing/estimate") []
                (Some (JObj
                   [ ("estimate_type", JStr "historical_api_price");
                     ("endpoints",
                      JObj [(model_id,
                             JObj [("call_quantity",
                                    JNum (inject_Z count))])]) ])) ;;
  ret (JObj [("pricing", pricing); ("estimate", estimate)]).

Definition list_recent (model_id : option string) (limit : Z) : M net json :=
  let params := [("limit", JNum (inject_Z limit))] in
  let params :=
    if truthy_str model_id
    then set_item params "endpoint_id" (str_json model_id) else params in
  request "GET" (BASE_API ++ "/models/usage") params None.

(** The queue calls, with the call that goes out recorded. *)
Definition get_job_status (model_id request_id : string) : M net json :=
  perform (Call "GET" (request_url model_id request_id ++ "/status") [] None)
          (FalClient.get_job_status json_loads model_id request_id).

Definition cancel_job (model_id request_id : string) : M net json :=
  perform (Call "PUT" (request_url model_id request_id ++ "/cancel") [] None)
          (FalClient.cancel_job json_loads model_id request_id).
End Api.

End FalApi.

(* ================================================================== *)
(** ** The tools other than generation ([genvoy/server.py],
       [genvoy/models.py]) *)

Module Tools.
Import Json Errors Eff FalClient FalApi.

(** [try: m finally: cleanup] *)
Definition finally {S A : Type} (m : M S A) (cleanup : M S unit) : M S A :=
  fun s =>
    match m s with
    | (r, s1) =>
        match cleanup s1 with
        | (Ok _, s2) => (r, s2)
        | (Raise e, s2) => (Raise e, s2)
        end
    end.

(** [_raise_validation_error]: [errors] holds, for each entry of
    [exc.errors()], its ["msg"], [None] when the entry has none. *)
Definition _raise_validation_error (errors : list (option string)) : exn :=
  let message :=
    match errors with
    | first :: _ =>
        match first with Some msg => msg | None => "Validation failed" end
    | [] => "Validation failed"
    end in
  if contains "INVALID_MODEL_ID" message then
    GenvoyToolError "INVALID_MODEL_ID" (Msg "Invalid model ID format.")
  else if contains "PROMPT_TOO_LONG" message then
    GenvoyToolError "PROMPT_TOO_LONG"
      (Msg ("Prompt exceeds MAX_PROMPT_LENGTH (" ++
            Py.str_of_nat Server.MAX_PROMPT_LENGTH ++ ")."))
  else if contains "AMBIGUOUS_PAGINATION_CURSOR" message then
    GenvoyToolError "AMBIGUOUS_PAGINATION_CURSOR"
      (Msg "Provide only one of cursor or page, or set both to the same value.")
  else GenvoyToolError "VALIDATION_ERROR" (Msg message).

(** What constructing a [pydantic] model gives: the messages of
    [ValidationError.errors()], in field order, or the validated model.
    A [ValueError(code)] of a validator reads [Value error, code]. *)
Definition validated (A : Type) : Type := (list (option string) + A)%type.

Definition value_error (code : string) : option string :=
  Some ("Value error, " ++ code)%string.

Record SearchModelsInput : Type := MkSearchModelsInput {
  search_query : string;
  search_category : option string;
  search_cursor : option string;
  search_page : option string
}.

(** [SearchModelsInput(...)]: the bounds of [query], then
    [normalize_cursor]. *)
Definition make_SearchModelsInput (query : string)
    (category cursor page : option string) : validated SearchModelsInput :=
  if Nat.ltb (String.length query) 1 then
    inl [Some "String should have at least 1 character"]
  else if Nat.ltb 200 (String.length query) then
    inl [Some "String should have at most 200 characters"]
  else if truthy_str cursor && truthy_str page && str_ne cursor page then
    inl [value_error "AMBIGUOUS_PAGINATION_CURSOR"]
  else
    inr (MkSearchModelsInput query category
           (match cursor with None => page | Some _ => cursor end) page).

Record EstimateCostInput : Type := MkEstimateCostInput {
  estimate_model_id : string;
  estimate_count : Z
}.

Definition make_EstimateCostInput (model_id : string) (count : Z)
  : validated EstimateCostInput :=
  let errors :=
    (if Server.matches_model_id model_id then []
     else [value_error "INVALID_MODEL_ID"])
    ++ (if (1 <=? count)%Z then []
        else [Some "Input should be greater than or equal to 1"]) in
  match errors with
  | [] => inr (MkEstimateCostInput model_id count)
  | _ :: _ => inl errors
  end.

Record JobLookupInput : Type := MkJobLookupInput {
  lookup_request_id : string;
  lookup_model_id : string
}.

Definition make_JobLookupInput (request_id model_id : string)
  : validated JobLookupInput :=
  let errors :=
    (if Nat.ltb (String.length request_id) 1
     then [Some "String should have at least 1 character"] else [])
    ++ (if Server.matches_model_id model_id then []
        else [value_error "INVALID_MODEL_ID"]) in
  match errors with
  | [] => inr (MkJobLookupInput request_id model_id)
  | _ :: _ => inl errors
  end.

(** [try: data = Model(...) except ValidationError as exc:
    _raise_validation_error(exc)] *)
Definition checked {S A : Type} (v : validated A) : M S A :=
  match v with
  | inr data => ret data
  | inl errors => raise (_raise_validation_error errors)
  end.

Section Calls.
Variable json_loads : string -> option json.
Variable transport : list call -> call -> exchange.
(** The value of [FAL_KEY] in the environment. *)
Variable environ : option string.

Definition _get_client : M net client :=
  settings <~ lift (Config.get_settings environ true) ;;
  client <~ lift (__init__ (Config.fal_key settings)) ;;
  opened ;;;
  ret client.

Definition search_models (query : string)
    (category cursor page : option string) : M net json :=
  data <~ checked (make_SearchModelsInput query category cursor page) ;;
  client <~ _get_client ;;
  finally
    (FalApi.search_models json_loads transport (search_query data)
       (search_category data) (search_cursor data) None)
    aclose.

Definition get_schema (model_id : string) : M net json :=
  data <~ checked (make_EstimateCostInput model_id 1) ;;
  client <~ _get_client ;;
  finally (FalApi.get_schema json_loads transport (estimate_model_id data))
          aclose.

Definition estimate_cost (model_id : string) (count : Z) : M net json :=
  data <~ checked (make_EstimateCostInput model_id count) ;;
  client <~ _get_client ;;
  finally
    (FalApi.estimate_cost json_loads transport (estimate_model_id data)
       (estimate_count data))
    aclose.

Definition get_job_status (request_id model_id : string) : M net json :=
  data <~ checked (make_JobLookupInput request_id model_id) ;;
  client <~ _get_client ;;
  finally
    (FalApi.get_job_status json_loads transport (lookup_model_id data)
       (lookup_request_id data))
    aclose.

Definition cancel_job (request_id model_id : string) : M net json :=
  data <~ checked (make_JobLookupInput request_id model_id) ;;
  client <~ _get_client ;;
  finally
    (FalApi.cancel_job json_loads transport (lookup_model_id data)
       (lookup_request_id data))
    aclose.

(** The payloads behind the two resources, before [json.dumps]. *)
Definition models_resource : M net json :=
  client <~ _get_client ;;
  finally (FalApi.list_models json_loads transport None None None) aclose.

Definition recent_resource : M net json :=
  client <~ _get_client ;;
  finally (FalApi.list_recent json_loads transport None 20) aclose.
End Calls.

End Tools.

(* ================================================================== *)
(** ** Downloading the result ([genvoy/filesystem.py]) *)

Module Download.
Import Json Errors Eff Filesystem FalClient.

Record DownloadResult : Type := MkDownloadResult {
  path : Path;
  media_type : string;
  file_size_bytes : nat;
  content_type : option string
}.

(** How one [client.stream("GET", url)] goes: no response at all, or a
    response whose body arrives in chunks until it is complete or the
    transport breaks. *)
Inductive transfer : Type :=
| Refused (text : string)
| Served (code : nat) (headers : list (string * string))
         (chunks : list string) (ending : stream_end).

Definition retries : list Q := [1 # 2; 1; 2]%Q.

(** [open(p, "wb")]: the file is created, or emptied when it is there. *)
Definition open_wb (p : Path) : M fs unit :=
  fun store =>
    match stat store p with
    | inr (_, Dir) => (Raise (os_error EISDIR), store)
    | inr (_, File) => (Ok tt, store)
    | inl _ =>
        match split_last (parts p) with
        | None => (Raise (os_error EISDIR), store)
        | Some (init, l) =>
            match walk_dirs store [] init with
            | inl e => (Raise (os_error e), store)
            | inr d => (Ok tt, store ++ [(d ++ [l], File)])
            end
        end
    end.

Definition cdn_expired : exn :=
  GenvoyToolError "CDN_EXPIRED" (Msg "CDN URL expired or inaccessible.").

Definition download_failed : exn :=
  GenvoyToolError "DOWNLOAD_FAILED" (Msg "CDN download failed.").

(** [sum(len(chunk) for chunk in chunks)] *)
Definition total_size (chunks : list string) : nat :=
  fold_left (fun total chunk => total + String.length chunk) chunks 0.

Section Fetch.
Variable cwd : Path.
Variable urlparse_path : string -> string.
(** The [k]-th attempt to fetch the URL. *)
Variable transfers : nat -> transfer.

(** The body of the [try] of [download_to_file].  The operating system
    reads a relative path from the working directory, which
    [absolute_against_cwd] spells out where the path goes to [exists] and
    to [mkdir]. *)
Definition attempt_body (url : string) (output_path : Path) (t : transfer)
  : M fs DownloadResult :=
  match t with
  | Refused text => raise (HTTPError text)
  | Served code hs chunks ending =>
      if Nat.eqb code 403 || Nat.eqb code 404 then raise cdn_expired
      else if negb (is_success code) then raise (HTTPStatusError code)
      else
        let content_type := header "Content-Type" hs in
        let (media_type, ext) :=
          MediaType.detect_type_and_ext urlparse_path url content_type in
        path <~ (match ext with
                 | Some e =>
                     if negb (Py.nonempty (suffix output_path))
                        && Py.nonempty e
                     then
                       renamed <~ lift (with_suffix output_path e) ;;
                       unique_path (absolute_against_cwd cwd renamed)
                     else ret output_path
                 | None => ret output_path
                 end) ;;
        mkdir_parents (absolute_against_cwd cwd (parent path)) ;;;
        path <~ lift (ensure_safe_path cwd path None) ;;
        open_wb path ;;;
        match ending with
        | Broken text => raise (HTTPError text)
        | Closed =>
            ret (MkDownloadResult path media_type (total_size chunks)
                   content_type)
        end
  end.

(** The [while True] loop: [attempt] counts the retries made; sleeping
    between attempts leaves no trace in the store.  The budget is the
    number of retries left, so its last branch is never taken
    ([DownloadFacts.budget_suffices]). *)
Fixpoint download_from (budget : nat) (url : string) (output_path : Path)
    (attempt : nat) : M fs DownloadResult :=
  catch (attempt_body url output_path (transfers attempt))
    (fun e =>
       match e with
       | GenvoyToolError _ _ => raise e
       | HTTPStatusError _ => raise download_failed
       | HTTPError _ =>
           if Nat.leb (List.length retries) attempt then raise download_failed
           else
             match budget with
             | S budget' => download_from budget' url output_path (S attempt)
             | O => raise (OtherError "unreachable")
             end
       | _ => raise e
       end).

Definition download_to_file (url : string) (output_path : Path)
  : M fs DownloadResult :=
  download_from (List.length retries) url output_path 0.
End Fetch.

End Download.

(* ================================================================== *)
(** ** One generation, from submission to the copy ([genvoy/server.py]) *)

Module Pipeline.
Import Json Errors Eff Filesystem FalClient Server.

(** [ensure] of [genvoy/errors.py] *)
Definition ensure (condition : bool) (code text : string) : result unit :=
  if condition then Ok tt else Raise (GenvoyToolError code (Msg text)).

(** What the outside world answers during one generation. *)
Record network : Type := Network {
  environ_FAL_KEY : option string;
  submit_exchange : exchange;
  status_stream : stream_attempt;
  status_exchange : nat -> exchange;
  result_exchange : exchange;
  transfers : nat -> Download.transfer
}.

(** What one generation acts on: the file system, the status requests
    and callback payloads of the client, and the clients that are open. *)
Record state : Type := State {
  store : fs;
  queue : world;
  open_clients : nat
}.

Definition on_store {A : Type} (m : M fs A) : M state A :=
  fun s =>
    let (r, store') := m (store s) in
    (r, State store' (queue s) (open_clients s)).

(** [str(path)] *)
Definition path_str (p : Path) : string :=
  if is_absolute p then ("/" ++ Py.join "/" (parts p))%string
  else match parts p with
       | [] => "."
       | _ :: _ => Py.join "/" (parts p)
       end.

(** [payload.get] on a value that may not be a [dict]. *)
Definition expect_dict (v : json) : result dict :=
  match v with
  | JObj d => Ok d
  | _ => Raise (OtherError "AttributeError")
  end.

(** The [_on_status] closure as the client sees it: it reads the status
    as a [dict] and returns; what it reports to [ctx] is
    [Extraction._on_status] of the payloads it has received. *)
Definition on_status_callback : callback :=
  fun _ status =>
    match status with
    | JObj _ => None
    | _ => Some (OtherError "AttributeError")
    end.

Section Generation.
Variable cwd : Path.
Variable json_loads : string -> option json.
Variable py_repr : json -> string.
Variable py_float_str : string -> option Q.
Variable urlparse_path : string -> string.
(** [round(x, 3)] *)
Variable py_round3 : Q -> Q.

Definition opened : M state unit :=
  fun s => (Ok tt, State (store s) (queue s) (S (open_clients s))).

Definition aclose : M state unit :=
  fun s => (Ok tt, State (store s) (queue s) (Nat.pred (open_clients s))).

Definition _get_client (net : network) : M state FalApi.client :=
  settings <~ lift (Config.get_settings (environ_FAL_KEY net) true) ;;
  client <~ lift (FalApi.__init__ (Config.fal_key settings)) ;;
  opened ;;;
  ret client.

Definition _wait_for_completion_with_progress (net : network)
    (model_id request_id : string) (timeout_seconds poll_interval_seconds : Q)
  : M state dict :=
  fun s =>
    match wait_for_completion json_loads py_repr (Some on_status_callback)
            (status_exchange net) model_id request_id
            timeout_seconds poll_interval_seconds
            (enough_fuel timeout_seconds poll_interval_seconds)
            (status_stream net) (queue s) with
    | Some (r, w) => (r, State (store s) w (open_clients s))
    | None => (Raise (OtherError "unreachable"), s)
    end.

(** The part of [_generate_once] that holds the client.  The body of
    the submission has no part in what the network answers. *)
Definition run_job (net : network) (args : GenerateArgs)
  : M state (string * dict * json) :=
  submit_data <~ lift (submit_job json_loads (arg_model_id args)
                         (submit_exchange net)) ;;
  submit_data <~ lift (expect_dict submit_data) ;;
  let request_id_raw :=
    por (get submit_data "request_id") (get submit_data "requestId") in
  lift (ensure (truthy request_id_raw) "INVALID_RESPONSE"
          "fal.ai queue response missing request_id.") ;;;
  let request_id := FalClient.py_str py_repr request_id_raw in
  terminal_status <~ _wait_for_completion_with_progress net
                       (arg_model_id args) request_id
                       (arg_timeout_seconds args) 2%Q ;;
  result_payload <~ lift (get_job_result json_loads (arg_model_id args)
                            request_id (result_exchange net)) ;;
  ret (request_id, terminal_status, result_payload).

(** The part of [_generate_once] that follows the close of the client,
    once the result carries a URL: it acts on the file system alone. *)
Definition deliver (net : network) (args : GenerateArgs)
    (request_id : string) (terminal_status : dict) (result_payload : json)
    (result_url : string) : M fs GenerateResult :=
  let ext :=
    snd (MediaType.detect_type_and_ext urlparse_path result_url None) in
  resolved_output <~ resolve_output_path cwd (arg_output_path args) ext ;;
  settings <~ lift (Config.get_settings (environ_FAL_KEY net) true) ;;
  download <~ Download.download_to_file cwd urlparse_path (transfers net)
                result_url resolved_output ;;
  copied_to_repo <~
    (match arg_repo_path args with
     | Some repo_target =>
         repo_target <~
           lift (if negb (Py.nonempty (suffix repo_target))
                    && Py.nonempty (suffix (Download.path download))
                 then with_suffix repo_target
                        (suffix (Download.path download))
                 else Ok repo_target) ;;
         copied <~ copy_to_repo cwd (Download.path download) repo_target ;;
         ret (Some copied)
     | None => ret None
     end) ;;
  result_fields <~ lift (expect_dict result_payload) ;;
  let duration_ms :=
    Extraction.generate_duration_ms py_float_str result_fields
      terminal_status in
  let cost_usd :=
    Extraction.generate_cost_usd result_fields terminal_status in
  let media_type :=
    if existsb (String.eqb (Download.media_type download))
         ["image"; "video"; "audio"]
    then Download.media_type download else "unknown" in
  ret (MkGenerateResult request_id
         (path_str (Download.path download))
         (option_map path_str copied_to_repo)
         media_type
         (py_round3 (inject_Z (Z.of_nat (Download.file_size_bytes download))
                     / 1024)%Q)
         (arg_model_id args) cost_usd duration_ms result_url).

Definition _generate_once (net : network) (args : GenerateArgs)
  : M state GenerateResult :=
  client <~ _get_client net ;;
  job <~ Tools.finally (run_job net args) aclose ;;
  let '(request_id, terminal_status, result_payload) := job in
  let result_url_raw :=
    Extraction._extract_first_media_url urlparse_path result_payload in
  lift (ensure (match result_url_raw with
                | Some u => Py.nonempty u
                | None => false
                end) "INVALID_RESPONSE"
          "No media URL found in fal.ai result payload.") ;;;
  let result_url :=
    match result_url_raw with Some u => u | None => "None" end in
  on_store (deliver net args request_id terminal_status result_payload
              result_url).

(** The [generate] tool: validation, then one generation with a
    360-second timeout. *)
Definition generate (net : network) (model_id prompt output_path : string)
    (repo_path : option string) (params : option dict)
  : M state GenerateResult :=
  check_model_id model_id ;;;
  check_prompt prompt ;;;
  _generate_once net
    (MkGenerateArgs model_id prompt
       (match params with Some p => p | None => [] end)
       (Path_of_string output_path)
       (match repo_path with
        | Some r => if Py.nonempty r then Some (Path_of_string r) else None
        | None => None
        end)
       360%Q).

(** One generation as a task of a batch: it shares the file system with
    the other tasks and has a client of its own. *)
Definition as_task (net : network) (args : GenerateArgs)
  : M fs GenerateResult :=
  fun files =>
    let (r, s) := _generate_once net args (State files start 0) in
    (r, store s).
End Generation.

End Pipeline.

(* ================================================================== *)
(** ** Notions of the further properties, and sample answers *)

Module Notions.
Import Json Errors.

(** The characters a slug is made of. *)
Definition is_slug_char (c : ascii) : bool :=
  Py.is_lower c || Py.is_digit c || Ascii.eqb c "."%char
  || Ascii.eqb c "_"%char || Ascii.eqb c "-"%char.

(** [s.endswith(p)] for a one-character [p]. *)
Definition endswith (s p : string) : bool := Py.startswith (Py.srev s) p.

(** A computation on the network that ends with as many clients open
    as it found, having sent at most [k] calls. *)
Definition settles {A : Type} (m : Eff.M FalApi.net A) (k : nat) : Prop :=
  forall n,
    FalApi.open_clients (snd (m n)) = FalApi.open_clients n
    /\ exists calls,
         FalApi.sent (snd (m n)) = FalApi.sent n ++ calls
         /\ List.length calls <= k.

(** Every file among the entries lies below [root]. *)
Definition files_below (root : Filesystem.location) (added : Filesystem.fs)
  : Prop :=
  Forall (fun e => snd e = Filesystem.File ->
                   Filesystem.is_prefix root (fst e) = true) added.

(** A payload holds a string with an http(s) scheme, at any depth. *)
Fixpoint has_url (v : json) : bool :=
  match v with
  | JStr s => Extraction.is_http s
  | JArr items => existsb has_url items
  | JObj fields => existsb (fun kv => has_url (snd kv)) fields
  | _ => false
  end.

(** The output path of a result names a file of the store inside the
    working directory. *)
Definition on_disk (cwd : Filesystem.Path) (store : Filesystem.fs)
    (res : Server.GenerateResult) : Prop :=
  exists p,
    Server.output_path res = Pipeline.path_str p
    /\ Filesystem.stat store p = inr (Filesystem.parts p, Filesystem.File)
    /\ Filesystem._is_within p (Filesystem.resolve cwd cwd) = true.

(** A result payload with one image, and the network of a generation
    that goes well: no event stream, a job that completes at the second
    status request, and a download that succeeds at once. *)
Definition result_body : string :=
  "{" ++ Spec.quote ++ "url" ++ Spec.quote ++ ":" ++ Spec.quote
  ++ "https://cdn.fal.ai/out.png" ++ Spec.quote ++ "}".

Definition submit_body : string :=
  "{" ++ Spec.quote ++ "request_id" ++ Spec.quote ++ ":" ++ Spec.quote
  ++ "req-1" ++ Spec.quote ++ "}".

Definition sample_loads (s : string) : option json :=
  if String.eqb s result_body
  then Some (JObj [("url", JStr "https://cdn.fal.ai/out.png")])
  else if String.eqb s submit_body
  then Some (JObj [("request_id", JStr "req-1")])
  else Spec.sample_loads s.

Definition sample_transfer : Download.transfer :=
  Download.Served 200 [("Content-Type", "image/png")] ["PNG"; "data"]
    FalClient.Closed.

Definition sample_network : Pipeline.network :=
  Pipeline.Network (Some "abc123")
    (FalClient.Answered (FalClient.Response 200 [] submit_body))
    Spec.sample_stream Spec.sample_status
    (FalClient.Answered (FalClient.Response 200 [] result_body))
    (fun _ => sample_transfer).

Definition sample_args : Server.GenerateArgs :=
  Server.MkGenerateArgs "fal-ai/flux/dev" "a red fox" []
    (Filesystem.Path_of_string "out/fox") None 360.

Definition sample_state : Pipeline.state :=
  Pipeline.State Spec.sample_store FalClient.start 0.

(** A queue that accepts the job without naming a request. *)
Definition silent_network : Pipeline.network :=
  Pipeline.Network (Some "abc123")
    (FalClient.Answered (FalClient.Response 200 [] "{}"))
    Spec.sample_stream Spec.sample_status
    (FalClient.Answered (FalClient.Response 200 [] result_body))
    (fun _ => sample_transfer).

(** A transport that answers every call with 403. *)
Definition forbidding_transport (_ : list FalApi.call) (_ : FalApi.call)
  : FalClient.exchange :=
  FalClient.Answered (FalClient.Response 403 [] "forbidden").

End Notions.

(* ==================================================================== *)
(** * Properties *)

(* ================================================================== *)
(** ** Media URL extraction *)

Module MediaUrlFacts.
Import Json Extraction Spec.

Section Agreement.
Variable P : string -> bool.

Local Abbreviation agree := (Spec.agree P) (only parsing).

Lemma agree_refl a : agree a a.
Proof. split; auto. Qed.

Lemma agree_trans a b c : agree a b -> agree b c -> agree a c.
Proof.
  intros [F1 H1] [F2 H2]. split.
  - congruence.
  - intros Ha. rewrite H1 by assumption. apply H2. congruence.
Qed.

Lemma agree_choice a b :
  agree a b -> preferred_candidate P a = preferred_candidate P b.
Proof.
  intros [F H]. unfold preferred_candidate. rewrite <- F.
  destruct (find P a); auto.
Qed.

Lemma find_append (a b : list string) :
  find P (a ++ b) = match find P a with Some u => Some u | None => find P b end.
Proof.
  induction a as [|x a IH]; simpl; auto. destruct (P x); auto.
Qed.

Lemma head_append (a b : list string) :
  head (a ++ b) = match a with [] => head b | x :: _ => Some x end.
Proof. destruct a; reflexivity. Qed.

Lemma agree_app a a' b b' :
  agree a a' -> agree b b' -> agree (a ++ b) (a' ++ b').
Proof.
  intros [Fa Ha] [Fb Hb]. split.
  - rewrite !find_append, Fa, Fb. reflexivity.
  - rewrite find_append. destruct (find P a) eqn:Ea; [discriminate|].
    intros Eb. specialize (Ha eq_refl). specialize (Hb Eb).
    rewrite !head_append.
    destruct a, a'; simpl in Ha; try discriminate; auto.
Qed.

Lemma agree_flat_map {A : Type} (f g : A -> list string) (xs : list A) :
  (forall x, In x xs -> agree (f x) (g x)) ->
  agree (flat_map f xs) (flat_map g xs).
Proof.
  induction xs as [|x xs IH]; intros H; simpl.
  - apply agree_refl.
  - apply agree_app; [apply H; left; reflexivity|].
    apply IH. intros y Hy. apply H. right. exact Hy.
Qed.

Lemma find_absent (l : list string) :
  (forall u, In u l -> P u = false) -> find P l = None.
Proof.
  induction l as [|x l IH]; intros H; simpl; auto.
  rewrite (H x (or_introl eq_refl)). apply IH. intros u Hu. apply H. now right.
Qed.

(** What a recursive call hands back stands for its whole candidate
    list. *)
Lemma agree_found (l : list string) :
  Forall (fun u => Py.nonempty u = true) l ->
  agree (found_urls (preferred_candidate P l)) l.
Proof.
  intros Hne. unfold preferred_candidate.
  destruct (find P l) as [u|] eqn:E.
  - destruct (find_some _ _ E) as [Hin Hu].
    rewrite Forall_forall in Hne. simpl. rewrite (Hne u Hin).
    split; simpl; rewrite Hu; [symmetry; exact E | discriminate].
  - destruct l as [|x l]; simpl; [apply agree_refl|].
    inversion Hne as [|? ? Hx _]; subst. rewrite Hx.
    simpl in E. destruct (P x) eqn:Px; [discriminate|].
    split; simpl; rewrite Px; auto.
Qed.

(** Dropping sublists whose elements already occur in front changes
    nothing. *)
Lemma agree_absorb {A : Type} (X : list string) (f : A -> list string)
    (keep : A -> bool) (xs : list A) :
  (forall x, In x xs -> keep x = false -> incl (f x) X) ->
  agree (X ++ flat_map f xs) (X ++ flat_map f (filter keep xs)).
Proof.
  intros H. destruct X as [|x0 X].
  - assert (E : flat_map f xs = flat_map f (filter keep xs)).
    { induction xs as [|x xs IH]; simpl; auto.
      destruct (keep x) eqn:K; simpl.
      - f_equal. apply IH. intros y Hy. apply H. now right.
      - assert (Hx : f x = []).
        { specialize (H x (or_introl eq_refl) K).
          destruct (f x) as [|u r]; auto.
          exfalso. apply (H u). now left. }
        rewrite Hx. simpl. apply IH. intros y Hy. apply H. now right. }
    simpl. rewrite <- E. apply agree_refl.
  - split; [|intros _; reflexivity].
    rewrite !find_append.
    destruct (find P (x0 :: X)) eqn:EX; auto.
    assert (HX : forall u, In u (x0 :: X) -> P u = false).
    { intros u Hu. apply (find_none _ _ EX u Hu). }
    clear EX. induction xs as [|x xs IH]; simpl; auto.
    destruct (keep x) eqn:K; simpl; rewrite !find_append.
    + rewrite IH; auto. intros y Hy. apply H. now right.
    + rewrite (find_absent (f x)).
      * apply IH. intros y Hy. apply H. now right.
      * intros u Hu. apply HX. apply (H x (or_introl eq_refl) K u Hu).
Qed.
End Agreement.

Lemma lookup_map {A B : Type} (g : A -> B) (k : string)
    (d : list (string * A)) :
  lookup k (map (fun kv => (fst kv, g (snd kv))) d) = option_map g (lookup k d).
Proof.
  induction d as [|[k' v] d IH]; simpl; auto.
  destruct (String.eqb k k'); auto.
Qed.

Lemma lookup_In {A : Type} (k : string) (d : list (string * A)) (v : A) :
  lookup k d = Some v -> In (k, v) d.
Proof.
  induction d as [|[k' v'] d IH]; simpl; [discriminate|].
  destruct (String.eqb k k') eqn:E.
  - intros H. injection H as ->. apply String.eqb_eq in E. subst. now left.
  - intros H. right. auto.
Qed.

Lemma lookup_unique {A : Type} (k : string) (d : list (string * A)) (v : A) :
  keys_unique (map fst d) = true -> In (k, v) d -> lookup k d = Some v.
Proof.
  induction d as [|[k' v'] d IH]; simpl; [tauto|].
  intros U [H|H].
  - injection H as -> ->. rewrite String.eqb_refl. reflexivity.
  - apply andb_prop in U as [U1 U2].
    destruct (String.eqb k k') eqn:E.
    + apply String.eqb_eq in E. subst k'.
      apply negb_true_iff in U1.
      assert (existsb (String.eqb k) (map fst d) = true).
      { apply existsb_exists. exists k. split; [|apply String.eqb_refl].
        apply in_map_iff. exists (k, v). auto. }
      congruence.
    + auto.
Qed.

Lemma http_nonempty s : is_http s = true -> Py.nonempty s = true.
Proof. destruct s; [discriminate|reflexivity]. Qed.

(** The object cases, with the preferred keys kept as a list. *)
Lemma visited_obj fields :
  visited (JObj fields) =
  flat_map (fun k => match lookup k fields with
                     | Some v => visited v
                     | None => []
                     end) PREFERRED_KEYS
  ++ flat_map (fun kv => visited (snd kv)) fields.
Proof.
  change (visited (JObj fields)) with
    (let sub := map (fun kv => (fst kv, visited (snd kv))) fields in
     flat_map (fun k => match lookup k sub with Some c => c | None => [] end)
              PREFERRED_KEYS ++ flat_map snd sub).
  cbv zeta. f_equal.
  - apply flat_map_ext. intros k. rewrite lookup_map.
    destruct (lookup k fields); reflexivity.
  - rewrite flat_map_concat_map, map_map, <- flat_map_concat_map. reflexivity.
Qed.

Lemma candidates_obj fields :
  candidates (JObj fields) =
  flat_map (fun k => match lookup k fields with
                     | Some v => candidates v
                     | None => []
                     end) PREFERRED_KEYS
  ++ flat_map (fun kv => candidates (snd kv))
       (filter (fun kv => negb (is_preferred (fst kv))) fields).
Proof.
  change (candidates (JObj fields)) with
    (let sub := map (fun kv => (fst kv, candidates (snd kv))) fields in
     flat_map (fun k => match lookup k sub with Some c => c | None => [] end)
              PREFERRED_KEYS
     ++ flat_map snd (filter (fun kc => negb (is_preferred (fst kc))) sub)).
  cbv zeta. f_equal.
  - apply flat_map_ext. intros k. rewrite lookup_map.
    destruct (lookup k fields); reflexivity.
  - induction fields as [|[k v] fields IH]; simpl; auto.
    destruct (is_preferred k); simpl; rewrite IH; reflexivity.
Qed.

Lemma visited_nonempty (v : json) :
  Forall (fun u => Py.nonempty u = true) (visited v).
Proof.
  induction v as [| | |s|items IH|fields IH] using json_ind;
    try (simpl; constructor).
  - simpl. destruct (is_http s) eqn:E; auto. constructor; auto.
    now apply http_nonempty.
  - simpl. apply Forall_flat_map. exact IH.
  - rewrite visited_obj. apply Forall_app. split.
    + apply Forall_flat_map. apply Forall_forall. intros k _.
      destruct (lookup k fields) as [v|] eqn:E; auto.
      rewrite Forall_forall in IH. apply (IH (k, v)). now apply lookup_In.
    + apply Forall_flat_map. exact IH.
Qed.

Section Extract.
Variable urlparse_path : string -> string.

Local Abbreviation is_media :=
  (MediaType.is_media_url urlparse_path) (only parsing).
Local Abbreviation extract :=
  (_extract_first_media_url urlparse_path) (only parsing).

Lemma choose_url_spec (urls : list string) :
  choose_url urlparse_path urls = preferred_candidate is_media urls.
Proof.
  unfold choose_url, preferred_candidate. destruct urls; reflexivity.
Qed.

Lemma extract_obj fields :
  extract (JObj fields) =
  preferred_candidate is_media
    (flat_map (fun k => match lookup k fields with
                        | Some v => found_urls (extract v)
                        | None => []
                        end) PREFERRED_KEYS
     ++ flat_map (fun kv => found_urls (extract (snd kv))) fields).
Proof.
  change (_extract_first_media_url urlparse_path (JObj fields)) with
    (let found := map (fun kv => (fst kv,
                   _extract_first_media_url urlparse_path (snd kv))) fields in
     choose_url urlparse_path (preferred_found found ++ values_found found)).
  cbv zeta. rewrite choose_url_spec. f_equal. f_equal.
  - unfold preferred_found. apply flat_map_ext. intros k.
    rewrite lookup_map. destruct (lookup k fields); reflexivity.
  - unfold values_found, values.
    rewrite map_map. simpl.
    rewrite !flat_map_concat_map, map_map. reflexivity.
Qed.

Lemma extract_arr items :
  extract (JArr items) =
  preferred_candidate is_media
    (flat_map (fun x => found_urls (extract x)) items).
Proof.
  simpl. rewrite choose_url_spec. f_equal.
  rewrite !flat_map_concat_map, map_map. reflexivity.
Qed.

(** The function returns the preferred candidate of the list it
    visits. *)
Lemma extract_visited (v : json) :
  extract v = preferred_candidate is_media (visited v).
Proof.
  induction v as [| | |s|items IH|fields IH] using json_ind;
    try reflexivity.
  - simpl. apply choose_url_spec.
  - rewrite extract_arr. apply agree_choice.
    change (visited (JArr items)) with (flat_map visited items).
    apply agree_flat_map. intros x Hx.
    rewrite Forall_forall in IH. rewrite (IH x Hx).
    apply agree_found, visited_nonempty.
  - rewrite extract_obj, visited_obj. apply agree_choice.
    rewrite Forall_forall in IH.
    apply agree_app.
    + apply agree_flat_map. intros k _.
      destruct (lookup k fields) as [v|] eqn:E; [|apply agree_refl].
      pose proof (IH (k, v) (lookup_In _ _ _ E)) as Hv. simpl in Hv.
      rewrite Hv. apply agree_found, visited_nonempty.
    + apply agree_flat_map. intros kv Hkv. rewrite (IH kv Hkv).
      apply agree_found, visited_nonempty.
Qed.

Lemma preferred_incl (fields : dict) (k : string) (v : json) :
  is_preferred k = true -> lookup k fields = Some v ->
  incl (visited v)
    (flat_map (fun k => match lookup k fields with
                        | Some v => visited v
                        | None => []
                        end) PREFERRED_KEYS).
Proof.
  intros Hk Hl u Hu. apply in_flat_map. exists k. split.
  - unfold is_preferred in Hk. apply existsb_exists in Hk as [k' [Hin E]].
    apply String.eqb_eq in E. subst. exact Hin.
  - rewrite Hl. exact Hu.
Qed.

(** Scanning every value after the preferred keys, or only the values
    under the remaining keys, leads to the same choice. *)
Lemma visited_candidates (v : json) :
  well_formed v = true -> agree is_media (visited v) (candidates v).
Proof.
  induction v as [| | |s|items IH|fields IH] using json_ind;
    intros W; try apply agree_refl.
  - change (agree is_media (flat_map visited items) (flat_map candidates items)).
    simpl in W. rewrite forallb_forall in W. rewrite Forall_forall in IH.
    apply agree_flat_map. intros x Hx. apply IH; auto.
  - rewrite visited_obj, candidates_obj.
    simpl in W. apply andb_prop in W as [U W].
    rewrite forallb_forall in W. rewrite Forall_forall in IH.
    eapply agree_trans.
    + apply agree_absorb with (keep := fun kv => negb (is_preferred (fst kv))).
      intros [k x] Hin Hk. simpl in Hk. apply negb_false_iff in Hk.
      simpl. apply (preferred_incl fields k x Hk).
      apply lookup_unique; assumption.
    + apply agree_app.
      * apply agree_flat_map. intros k _.
        destruct (lookup k fields) as [x|] eqn:E; [|apply agree_refl].
        pose proof (lookup_In _ _ _ E) as Hin.
        apply (IH (k, x) Hin). apply (W (k, x) Hin).
      * apply agree_flat_map. intros kv Hkv.
        apply filter_In in Hkv as [Hkv _].
        apply (IH kv Hkv). apply (W kv Hkv).
Qed.
End Extract.
End MediaUrlFacts.



(* ================================================================== *)
(** ** Progress reporting *)

Module ProgressFacts.
Import Json Extraction.

Section Progress.
Variable py_float_str : string -> option Q.

Local Abbreviation progress_of :=
  (_progress_from_payload py_float_str) (only parsing).
Local Abbreviation float_of := (py_float py_float_str) (only parsing).

Lemma clamp_bounds (v : Q) :
  (0 <= py_max 0 (py_min 100 v) <= 100)%Q.
Proof.
  unfold py_max, py_min.
  destruct (Qlt_le_dec v 100); destruct (Qlt_le_dec 0 _); lra.
Qed.

Lemma progress_bounds (payload : dict) :
  (0 <= progress_of payload <= 100)%Q.
Proof.
  unfold _progress_from_payload.
  destruct (py_float _ _); [apply clamp_bounds | lra].
Qed.

(** The value the conversion sees: a missing value reads as [0.0]. *)
Lemma progress_missing (payload : dict) :
  progress_raw payload = JNull -> (progress_of payload == 0)%Q.
Proof.
  intros E. unfold _progress_from_payload. rewrite E. simpl.
  unfold py_max, py_min. simpl. reflexivity.
Qed.

Lemma progress_not_numeric (payload : dict) :
  progress_raw payload <> JNull ->
  float_of (progress_raw payload) = None ->
  (progress_of payload == 0)%Q.
Proof.
  intros N E. unfold _progress_from_payload.
  destruct (progress_raw payload) eqn:R; try congruence;
    simpl; simpl in E; try rewrite E; try reflexivity;
    discriminate.
Qed.

Lemma progress_numeric (payload : dict) (v : Q) :
  progress_raw payload <> JNull ->
  float_of (progress_raw payload) = Some v ->
  ((0 <= v <= 1 -> progress_of payload == v * 100) /\
   (1 < v <= 100 -> progress_of payload == v) /\
   (100 < v -> progress_of payload == 100) /\
   (v < 0 -> progress_of payload == 0))%Q.
Proof.
  intros N E. unfold _progress_from_payload.
  assert (R : is_none (progress_raw payload) = false)
    by (destruct (progress_raw payload); auto; congruence).
  rewrite R. rewrite E. cbv zeta.
  unfold py_max, py_min.
  destruct (Qle_bool 0 v) eqn:L0; destruct (Qle_bool v 1) eqn:L1;
    cbn [andb];
    [ apply Qle_bool_iff in L0; apply Qle_bool_iff in L1
    | apply Qle_bool_iff in L0;
      assert (~ (v <= 1)%Q) by (rewrite <- Qle_bool_iff; congruence)
    | apply Qle_bool_iff in L1;
      assert (~ (0 <= v)%Q) by (rewrite <- Qle_bool_iff; congruence)
    | assert (~ (0 <= v)%Q) by (rewrite <- Qle_bool_iff; congruence) ];
    repeat split; intros;
    repeat match goal with
           | |- context [Qlt_le_dec ?a 100] => destruct (Qlt_le_dec a 100)
           end;
    repeat match goal with
           | |- context [Qlt_le_dec 0 ?a] => destruct (Qlt_le_dec 0 a)
           end; lra.
Qed.
End Progress.
End ProgressFacts.


(* ================================================================== *)
(** ** Cost and duration extraction *)

Module CostFacts.
Import Json Extraction Spec.

Lemma first_some_none {A B : Type} (f : A -> option B) (l : list A) :
  first_some f l = None <-> Forall (fun y => f y = None) l.
Proof.
  induction l as [|x l IH]; simpl.
  - split; auto.
  - destruct (f x) as [w|] eqn:E.
    + split; [discriminate|]. intros H. inversion H; congruence.
    + rewrite IH. split; intros H.
      * constructor; assumption.
      * inversion H; assumption.
Qed.

Lemma first_some_usable {A B : Type} (f : A -> option B) (l : list A) (v : B) :
  first_some f l = Some v <-> first_usable f l v.
Proof.
  induction l as [|x l IH]; simpl.
  - split; [discriminate|]. intros (b & y & a & E & _). destruct b; discriminate.
  - destruct (f x) as [w|] eqn:E.
    + split.
      * intros H. injection H as ->. exists [], x, l. repeat split; auto.
      * intros (b & y & a & El & Hb & Hy). destruct b as [|z b].
        -- simpl in El. injection El as -> ->. congruence.
        -- simpl in El. injection El as -> ->. inversion Hb; congruence.
    + rewrite IH. split.
      * intros (b & y & a & El & Hb & Hy). exists (x :: b), y, a.
        subst. repeat split; auto.
      * intros (b & y & a & El & Hb & Hy). destruct b as [|z b].
        -- simpl in El. injection El as -> ->. congruence.
        -- simpl in El. injection El as -> ->. inversion Hb; subst.
           exists b, y, a. repeat split; auto.
Qed.

Lemma absent_path_reads_none (cursor : json) (path : list string) :
  path_present cursor path = false -> _get_nested_from cursor path = JNull.
Proof.
  revert cursor. induction path as [|key rest IH]; intros cursor; simpl.
  - discriminate.
  - destruct cursor; auto. destruct (lookup key fields); auto.
Qed.

Lemma no_path_no_probe (paths : list (list string)) (payload : dict) :
  some_path_present paths payload = false ->
  Forall (fun raw => raw = JNull) (probes paths payload).
Proof.
  unfold some_path_present, probes. intros H.
  apply Forall_flat_map. apply Forall_forall. intros source Hs.
  apply Forall_map. apply Forall_forall. intros path Hp.
  unfold _get_nested. apply absent_path_reads_none.
  destruct (path_present (JObj source) path) eqn:E; auto.
  assert (existsb (fun source => existsb (path_present (JObj source)) paths)
                  (sources payload) = true); [|congruence].
  apply existsb_exists. exists source. split; auto.
  apply existsb_exists. exists path. auto.
Qed.
End CostFacts.


(** The result payload's cost of zero gives way to the terminal status
    payload's cost. *)
Example zero_cost_gives_way :
  Extraction.generate_cost_usd
    [("cost", Json.JNum 0)] [("cost", Json.JNum (42 # 100))]
  = Some (42 # 100)%Q.
Proof. reflexivity. Qed.


(* ================================================================== *)
(** ** Responses of the queue API *)

Module RequestFacts.
Import Json Errors FalClient.

Section Request.
Variable json_loads : string -> option json.

(** A 2xx status code takes none of the special cases. *)
Lemma success_request (method url : string) (r : response) :
  is_success (status_code r) = true ->
  _request json_loads method url (Answered r) =
  if negb (Py.nonempty (content r)) then Ok (JObj [])
  else match json_loads (content r) with
       | Some v => Ok v
       | None => Raise (GenvoyToolError "INVALID_RESPONSE"
                          (Msg "fal.ai returned non-JSON payload."))
       end.
Proof.
  intros S. unfold _request. unfold is_success in S.
  apply andb_prop in S as [L U].
  apply Nat.leb_le in L. apply Nat.leb_le in U.
  assert (E1 : Nat.eqb (status_code r) 429 = false) by (apply Nat.eqb_neq; lia).
  assert (E2 : Nat.eqb (status_code r) 404 = false) by (apply Nat.eqb_neq; lia).
  assert (E3 : Nat.eqb (status_code r) 403 = false) by (apply Nat.eqb_neq; lia).
  assert (E4 : Nat.eqb (status_code r) 504 = false) by (apply Nat.eqb_neq; lia).
  assert (E5 : is_success (status_code r) = true).
  { unfold is_success. apply andb_true_intro. split; apply Nat.leb_le; lia. }
  rewrite E1, E2, E3, E4, E5. reflexivity.
Qed.
End Request.
End RequestFacts.

(** C9, as the specification states it, fails: an empty 2xx body, where a
    status object was expected, gives the empty object.
  *)
Lemma empty_success_body_returns_empty_object :
  FalClient.get_job_status Spec.sample_loads "fal-ai/flux/dev" "req-1"
    (FalClient.Answered (FalClient.Response 200 [] EmptyString))
  = Errors.Ok (Json.JObj []).
Proof. reflexivity. Qed.

(** C9, amended: on a 2xx response every queue call (submit, status,
    result, cancel) fails with INVALID_RESPONSE when the body is not empty and
    does not decode as JSON, returns the decoded value when it does, and
    returns the empty object when the body is empty. *)
Theorem queue_calls_on_success_body :
  forall (json_loads : string -> option Json.json)
         (model_id request_id : string) (r : FalClient.response),
    FalClient.is_success (FalClient.status_code r) = true ->
    Forall
      (fun call : FalClient.exchange -> Errors.result Json.json =>
         (FalClient.content r = EmptyString ->
          call (FalClient.Answered r) = Errors.Ok (Json.JObj []))
         /\ (FalClient.content r <> EmptyString ->
             json_loads (FalClient.content r) = None ->
             exists msg,
               call (FalClient.Answered r)
               = Errors.Raise (Errors.GenvoyToolError "INVALID_RESPONSE" msg))
         /\ (forall v, FalClient.content r <> EmptyString ->
             json_loads (FalClient.content r) = Some v ->
             call (FalClient.Answered r) = Errors.Ok v))
      (Spec.queue_calls json_loads model_id request_id).
Proof.
  intros json_loads model_id request_id r S.
  unfold Spec.queue_calls.
  repeat constructor;
    unfold FalClient.submit_job, FalClient.get_job_status,
      FalClient.get_job_result, FalClient.cancel_job;
    rewrite (RequestFacts.success_request json_loads _ _ r S);
    try (intros E; rewrite E; reflexivity);
    try (intros N E; destruct (FalClient.content r); [congruence|];
         simpl; rewrite E; eexists; reflexivity);
    try (intros v N E; destruct (FalClient.content r); [congruence|];
         simpl; rewrite E; reflexivity).
Qed.

(** The amended C9 at a response whose body is not JSON. *)
Lemma queue_calls_on_success_body_witness :
  FalClient.is_success 200 = true
  /\ Forall
      (fun call : FalClient.exchange -> Errors.result Json.json =>
         exists msg,
           call (FalClient.Answered (FalClient.Response 200 [] "not-json"))
           = Errors.Raise (Errors.GenvoyToolError "INVALID_RESPONSE" msg))
      (Spec.queue_calls Spec.sample_loads "fal-ai/flux/dev" "req-1").
Proof.
  split; [reflexivity|].
  pose proof (queue_calls_on_success_body Spec.sample_loads
                "fal-ai/flux/dev" "req-1"
                (FalClient.Response 200 [] "not-json") eq_refl) as H.
  eapply Forall_impl; [|exact H].
  intros call (_ & H2 & _). apply H2; [discriminate | reflexivity].
Defined.

(* ================================================================== *)
(** ** The status stream and the polling fallback *)

(** The client and the server normalise the status in the same way. *)
Lemma status_functions_agree (py_repr : Json.json -> string)
    (payload : Json.dict) :
  FalClient._status_value py_repr payload
  = Extraction._status_from_payload py_repr payload.
Proof. reflexivity. Qed.

Module WaitFacts.
Import Json Errors Eff FalClient.

Section Notify.
Variable on_status : option callback.

Lemma notify_polls payload w r w' :
  notify on_status payload w = (r, w') -> polls w' = polls w.
Proof.
  unfold notify. destruct on_status as [cb|].
  - destruct (cb _ _); intros H; injection H as <- <-; reflexivity.
  - intros H; injection H as <- <-; reflexivity.
Qed.

Lemma notify_returns payload w :
  Spec.callback_returns on_status ->
  exists w', notify on_status payload w = (Ok tt, w') /\ polls w' = polls w.
Proof.
  intros C. unfold notify. destruct on_status as [cb|].
  - rewrite (C cb eq_refl). eexists; split; reflexivity.
  - eexists; split; reflexivity.
Qed.

End Notify.

Section Stream.
Variable json_loads : string -> option json.
Variable py_repr : json -> string.
Variable on_status : option callback.

Local Abbreviation status := (_status_value py_repr) (only parsing).
Local Abbreviation line_step :=
  (on_line json_loads py_repr on_status) (only parsing).
Local Abbreviation lines_loop :=
  (read_lines json_loads py_repr on_status) (only parsing).
Local Abbreviation stream_status :=
  (stream_job_status json_loads py_repr on_status) (only parsing).

Local Abbreviation callback_returns :=
  (Spec.callback_returns on_status) (only parsing).

(** What one line can lead to. *)
Lemma line_step_cases l line w r w' :
  line_step l line w = (r, w') ->
  polls w' = polls w /\
  match r with
  | Ok (Continue _) => True
  | Ok (Return payload) => is_terminal (status payload) = true
  | Raise e => ~ callback_returns
  end.
Proof.
  unfold on_line.
  destruct (Py.startswith line "data:").
  { intros H; injection H as <- <-; auto. }
  destruct (Py.nonempty (Py.strip line)).
  { intros H; injection H as <- <-; auto. }
  destruct (data_lines l) as [|d ds].
  { intros H; injection H as <- <-; auto. }
  destruct (negb _).
  { intros H; injection H as <- <-; auto. }
  destruct (json_loads _) as [v|].
  2:{ intros H; injection H as <- <-; auto. }
  destruct v; try (intros H; injection H as <- <-; auto; fail).
  unfold mbind.
  destruct (notify on_status (JObj fields) w) as [[[]|e] w1] eqn:N.
  - pose proof (notify_polls _ _ _ _ _ N) as P.
    destruct (is_terminal (status fields)) eqn:T;
      intros H; injection H as <- <-; auto.
  - pose proof (notify_polls _ _ _ _ _ N) as P.
    intros H; injection H as <- <-. split; auto.
    intros C.
    destruct (notify_returns on_status (JObj fields) w C) as (w2 & N2 & _).
    congruence.
Qed.

Lemma lines_loop_cases lines : forall l w r w',
  lines_loop l lines w = (r, w') ->
  polls w' = polls w /\
  match r with
  | Ok (Continue _) => True
  | Ok (Return payload) => is_terminal (status payload) = true
  | Raise e => ~ callback_returns
  end.
Proof.
  induction lines as [|line rest IH]; intros l w r w'.
  - simpl. intros H; injection H as <- <-; auto.
  - simpl. unfold mbind.
  destruct (line_step l line w) as [[[l1|p]|e] w1] eqn:S;
      pose proof (line_step_cases _ _ _ _ _ S) as [P1 C1].
    + intros H. apply IH in H as [P2 C2]. split; [congruence|exact C2].
    + intros H; injection H as <- <-; auto.
    + intros H; injection H as <- <-; auto.
Qed.

(** [stream_job_status] returns terminal payloads only, raises
    SSE_UNAVAILABLE unless the callback raised, and sends no status
    request. *)
Lemma stream_status_cases attempt w r w' :
  stream_status attempt w = (r, w') ->
  polls w' = polls w /\
  match r with
  | Ok payload => is_terminal (status payload) = true
  | Raise e => has_code "SSE_UNAVAILABLE" e = true \/ ~ callback_returns
  end.
Proof.
  unfold stream_job_status, mbind, catch.
  destruct attempt as [text|code lines ending]; simpl.
  { intros H; injection H as <- <-; auto. }
  destruct (Nat.eqb code 404 || Nat.eqb code 405 || Nat.eqb code 501).
  { simpl. intros H; injection H as <- <-; auto. }
  destruct (negb (is_success code)).
  { simpl. intros H; injection H as <- <-; auto. }
  unfold mbind.
  destruct (lines_loop (Locals [] None) lines w) as [[[l1|p]|e] w1] eqn:L;
    pose proof (lines_loop_cases _ _ _ _ _ L) as [P1 C1].
  - destruct ending as [|text]; simpl.
    + destruct (last_payload l1) as [[|kv last]|]; simpl;
        try (intros H; injection H as <- <-; auto; fail).
      destruct (is_terminal (status (kv :: last))) eqn:T;
        intros H; injection H as <- <-; auto.
    + intros H; injection H as <- <-; auto.
  - simpl. intros H; injection H as <- <-; auto.
  - simpl. destruct e; simpl; intros H; injection H as <- <-; auto.
Qed.

(** A frame whose data is empty, undecodable or not a dictionary leaves
    the loop as it found it, apart from the emptied buffer. *)
Lemma skipped_frame l line w :
  Py.startswith line "data:" = false ->
  Py.nonempty (Py.strip line) = false ->
  (let raw := Py.strip (Py.join Py.newline (data_lines l)) in
   raw = EmptyString \/ json_loads raw = None \/
   (exists v, json_loads raw = Some v /\ as_dict v = None)) ->
  line_step l line w = (Ok (Continue (Locals [] (last_payload l))), w).
Proof.
  intros D B. cbv zeta. intros H.
  unfold on_line. rewrite D, B.
  destruct l as [[|d ds] lastp]; [reflexivity|]. cbn [data_lines last_payload] in *.
  destruct H as [H|[H|(v & H & V)]]; rewrite H; cbn [Py.nonempty negb];
    try reflexivity.
  - destruct (negb _); reflexivity.
  - destruct (negb _); [reflexivity|]. destruct v; try reflexivity. discriminate.
Qed.

Lemma stream_path_unfold attempt w :
  stream_path json_loads py_repr on_status attempt w =
  match stream_status attempt w with
  | (Ok payload, w1) =>
      if String.eqb (status payload) "COMPLETED" then (Ok (Some payload), w1)
      else if String.eqb (status payload) "FAILED"
      then (Raise (job_failed payload), w1)
      else (Ok None, w1)
  | (Raise e, w1) =>
      if has_code "SSE_UNAVAILABLE" e then (Ok None, w1) else (Raise e, w1)
  end.
Proof.
  unfold stream_path, catch, mbind.
  destruct (stream_status attempt w) as [[payload|e] w1].
  - destruct (String.eqb (status payload) "COMPLETED"); [reflexivity|].
    destruct (String.eqb (status payload) "FAILED"); reflexivity.
  - destruct e; try reflexivity.
    unfold has_code; simpl. destruct (String.eqb code "SSE_UNAVAILABLE"); reflexivity.
Qed.

Lemma terminal_states (state : string) :
  is_terminal state = true -> state = "COMPLETED" \/ state = "FAILED".
Proof.
  unfold is_terminal. intros H. apply orb_prop in H as [H|H];
    apply String.eqb_eq in H; auto.
Qed.
End Stream.

Section Polling.
Variable json_loads : string -> option json.
Variable py_repr : json -> string.
Variable on_status : option callback.
Variable status_exchange : nat -> exchange.
Variables model_id request_id : string.
Variables timeout_seconds poll_interval_seconds : Q.

Local Abbreviation status := (_status_value py_repr) (only parsing).
Local Abbreviation once :=
  (poll_once json_loads py_repr on_status status_exchange model_id request_id)
  (only parsing).
Local Abbreviation loop :=
  (poll_loop json_loads py_repr on_status status_exchange model_id
     request_id timeout_seconds poll_interval_seconds)
  (only parsing).

Local Abbreviation allowed :=
  (Spec.allowed_outcome py_repr request_id) (only parsing).

Lemma once_returns payload w w' :
  once w = (Ok (Some payload), w') -> status payload = "COMPLETED".
Proof.
  unfold poll_once, mbind, poll_status.
  destruct (get_job_status _ _ _ _) as [v|e]; [|discriminate].
  destruct (notify on_status v _) as [[[]|e] w1]; [|discriminate].
  destruct v; try discriminate.
  destruct (String.eqb (status fields) "COMPLETED") eqn:E.
  - intros H; injection H as <- <-. now apply String.eqb_eq.
  - destruct (String.eqb (status fields) "FAILED"); discriminate.
Qed.

Lemma loop_returns fuel : forall elapsed w payload w',
  loop fuel elapsed w = Some (Ok payload, w') -> status payload = "COMPLETED".
Proof.
  induction fuel as [|fuel IH]; intros elapsed w payload w'; simpl;
    destruct (Qlt_le_dec elapsed timeout_seconds); try discriminate.
  destruct (once w) as [[[p|]|e] w1] eqn:O.
  - intros H; injection H as <- <-. eapply once_returns; eauto.
  - apply IH.
  - discriminate.
Qed.

Hypothesis callback_ok : Spec.callback_returns on_status.
Hypothesis events : Spec.polls_observe_events json_loads status_exchange
                      model_id request_id.

Lemma once_cases w :
  exists w',
    (exists payload, status payload = "COMPLETED" /\
                     once w = (Ok (Some payload), w'))
    \/ (exists payload, status payload = "FAILED" /\
                        once w = (Raise (job_failed payload), w'))
    \/ once w = (Ok None, w').
Proof.
  unfold poll_once, mbind, poll_status.
  destruct (events (polls w)) as [payload E]. rewrite E.
  destruct (notify_returns on_status (JObj payload)
              (World (S (polls w)) (callback_log w)) callback_ok)
    as (w1 & N & _).
  rewrite N. exists w1.
  destruct (String.eqb (status payload) "COMPLETED") eqn:C.
  - left. exists payload. split; [now apply String.eqb_eq|reflexivity].
  - destruct (String.eqb (status payload) "FAILED") eqn:F.
    + right; left. exists payload. split; [now apply String.eqb_eq|reflexivity].
    + right; right. reflexivity.
Qed.

Hypothesis interval_positive : (0 < poll_interval_seconds)%Q.

Lemma loop_ends fuel : forall elapsed w,
  (timeout_seconds - elapsed
     <= inject_Z (Z.of_nat fuel) * poll_interval_seconds)%Q ->
  exists r w', loop fuel elapsed w = Some (r, w') /\ allowed r.
Proof.
  induction fuel as [|fuel IH]; intros elapsed w B; simpl;
    destruct (Qlt_le_dec elapsed timeout_seconds) as [L|L].
  - exfalso. change (inject_Z (Z.of_nat 0)) with 0%Q in B. lra.
  - eexists _, _. split; [reflexivity|]. right; reflexivity.
  - destruct (once_cases w) as (w1 & [(p & S & O)|[(p & S & O)|O]]);
      rewrite O.
    + eexists _, _. split; [reflexivity|]. exact S.
    + eexists _, _. split; [reflexivity|]. left. eauto.
    + apply IH.
      assert (E : (inject_Z (Z.of_nat (S fuel)) * poll_interval_seconds ==
                   inject_Z (Z.of_nat fuel) * poll_interval_seconds
                   + poll_interval_seconds)%Q).
      { rewrite Nat2Z.inj_succ. unfold Z.succ. rewrite inject_Z_plus. ring. }
      rewrite E in B. lra.
  - eexists _, _. split; [reflexivity|]. right; reflexivity.
Qed.

Lemma enough_fuel_suffices fuel :
  enough_fuel timeout_seconds poll_interval_seconds <= fuel ->
  (timeout_seconds - 0
     <= inject_Z (Z.of_nat fuel) * poll_interval_seconds)%Q.
Proof.
  unfold enough_fuel. intros F.
  destruct timeout_seconds as [c d]. destruct poll_interval_seconds as [a b].
  unfold Qlt in interval_positive. simpl in *.
  unfold Qle, Qminus, Qplus, Qopp, Qmult, inject_Z. simpl.
  rewrite Pos.mul_1_r, Z.mul_1_r, Z.add_0_r.
  rewrite Z.mul_1_r in interval_positive.
  assert (D : (1 <= Z.pos d)%Z) by lia.
  assert (N : (0 <= Z.of_nat fuel)%Z) by lia.
  assert (G : (Z.of_nat fuel <= Z.of_nat fuel * a * Z.pos d)%Z).
  { assert (Z.of_nat fuel * 1 <= Z.of_nat fuel * a)%Z
      by (apply Z.mul_le_mono_nonneg_l; lia).
    assert (Z.of_nat fuel * a * 1 <= Z.of_nat fuel * a * Z.pos d)%Z
      by (apply Z.mul_le_mono_nonneg_l; nia).
    lia. }
  lia.
Qed.
End Polling.
End WaitFacts.



(** C2: [wait_for_completion] enters the polling loop exactly when the
    stream attempt raises SSE_UNAVAILABLE; any other error of the stream
    attempt, and JOB_FAILED for a FAILED frame, reach the caller with no
    status request sent. *)
Theorem fallback_only_on_stream_unavailable :
  forall (json_loads : string -> option Json.json)
         (py_repr : Json.json -> string)
         (on_status : option FalClient.callback)
         (status_exchange : nat -> FalClient.exchange)
         (model_id request_id : string)
         (timeout_seconds poll_interval_seconds : Q)
         (fuel : nat) (attempt : FalClient.stream_attempt)
         (w : FalClient.world),
    let wait :=
      FalClient.wait_for_completion json_loads py_repr on_status
        status_exchange model_id request_id
        timeout_seconds poll_interval_seconds fuel attempt w in
    let polling :=
      FalClient.poll_loop json_loads py_repr on_status
        status_exchange model_id request_id
        timeout_seconds poll_interval_seconds fuel 0%Q in
    match FalClient.stream_job_status json_loads py_repr on_status attempt w with
    | (Errors.Raise e, w1) =>
        FalClient.polls w1 = FalClient.polls w
        /\ (Errors.has_code "SSE_UNAVAILABLE" e = true -> wait = polling w1)
        /\ (Errors.has_code "SSE_UNAVAILABLE" e = false ->
            wait = Some (Errors.Raise e, w1))
    | (Errors.Ok payload, w1) =>
        FalClient.polls w1 = FalClient.polls w
        /\ ((FalClient._status_value py_repr payload = "COMPLETED"
             /\ wait = Some (Errors.Ok payload, w1))
            \/ (FalClient._status_value py_repr payload = "FAILED"
                /\ wait = Some (Errors.Raise (FalClient.job_failed payload), w1)))
    end.
Proof.
  intros json_loads py_repr on_status status_exchange model_id request_id
    timeout_seconds poll_interval_seconds fuel attempt w. cbv zeta.
  unfold FalClient.wait_for_completion.
  rewrite WaitFacts.stream_path_unfold.
  destruct (FalClient.stream_job_status _ _ _ attempt w) as [[p|e] w1] eqn:S;
    destruct (WaitFacts.stream_status_cases _ _ _ _ _ _ _ S) as [P T].
  - split; [exact P|].
    destruct (WaitFacts.terminal_states _ T) as [E|E]; rewrite E; simpl; auto.
  - split; [exact P|]. split; intros H; rewrite H; reflexivity.
Qed.

(** C10: at the blank line that ends a frame whose joined data is empty,
    does not decode, or decodes to something other than a dictionary, the
    stream loop raises nothing, does not call the callback, keeps the last
    decoded frame it had, and goes on with the following lines. *)
Theorem undecodable_frame_is_skipped :
  forall (json_loads : string -> option Json.json)
         (py_repr : Json.json -> string)
         (on_status : option FalClient.callback)
         (l : FalClient.locals) (line : string) (rest : list string)
         (w : FalClient.world),
    Py.startswith line "data:" = false ->
    Py.nonempty (Py.strip line) = false ->
    (let raw := Py.strip (Py.join Py.newline (FalClient.data_lines l)) in
     raw = EmptyString \/ json_loads raw = None \/
     (exists v, json_loads raw = Some v /\ Json.as_dict v = None)) ->
    FalClient.on_line json_loads py_repr on_status l line w
      = (Errors.Ok (FalClient.Continue
                      (FalClient.Locals [] (FalClient.last_payload l))), w)
    /\ FalClient.read_lines json_loads py_repr on_status l (line :: rest) w
       = FalClient.read_lines json_loads py_repr on_status
           (FalClient.Locals [] (FalClient.last_payload l)) rest w.
Proof.
  intros json_loads py_repr on_status l line rest w D B H.
  pose proof (WaitFacts.skipped_frame json_loads py_repr on_status l line w D B H)
    as S.
  split; [exact S|].
  simpl. unfold Eff.mbind. rewrite S. reflexivity.
Qed.

(** C10 at a frame whose data is not JSON, followed by a COMPLETED frame. *)
Lemma undecodable_frame_is_skipped_witness :
  let l := FalClient.Locals ["not json"] None in
  let rest := [("data: " ++ Spec.status_body "COMPLETED")%string; EmptyString] in
  Py.startswith EmptyString "data:" = false
  /\ Py.nonempty (Py.strip EmptyString) = false
  /\ Spec.sample_loads (Py.strip (Py.join Py.newline (FalClient.data_lines l)))
     = None
  /\ FalClient.read_lines Spec.sample_loads Spec.sample_repr None l
       (EmptyString :: rest) FalClient.start
     = FalClient.read_lines Spec.sample_loads Spec.sample_repr None
         (FalClient.Locals [] None) rest FalClient.start.
Proof.
  cbv zeta.
  split; [reflexivity|]. split; [reflexivity|]. split; [reflexivity|].
  exact (proj2 (undecodable_frame_is_skipped Spec.sample_loads Spec.sample_repr
                  None (FalClient.Locals ["not json"] None) EmptyString
                  [("data: " ++ Spec.status_body "COMPLETED")%string; EmptyString]
                  FalClient.start eq_refl eq_refl
                  (or_intror (or_introl eq_refl)))).
Defined.

(* ================================================================== *)
(** ** Batch and compare fan-out *)

Module FanoutFacts.
Import Json Errors Eff Filesystem Server Spec.

Section Collect.
Variable str_exn : exn -> string.

Lemma collect_batch_files results : forall idx,
  files (collect_batch str_exn idx results) = successes results.
Proof.
  induction results as [|[r|e] rest IH]; intros idx; simpl; auto.
  rewrite IH. reflexivity.
Qed.

Lemma collect_batch_all_ok rs : forall idx,
  collect_batch str_exn idx (map Ok rs) = MkFanoutResult rs [].
Proof.
  induction rs as [|r rs IH]; intros idx; simpl; auto.
  rewrite IH. reflexivity.
Qed.

(** One failure among successes: every success is kept and the failure
    is reported under its 1-based position. *)
Lemma collect_batch_single before e after : forall idx,
  collect_batch str_exn idx (map Ok before ++ Raise e :: map Ok after)
  = MkFanoutResult (before ++ after)
      [batch_failure str_exn (idx + List.length before + 1) e].
Proof.
  induction before as [|r before IH]; intros idx; simpl.
  - rewrite collect_batch_all_ok. simpl. unfold batch_failure.
    rewrite Nat.add_0_r. reflexivity.
  - rewrite IH. simpl. do 3 f_equal. lia.
Qed.

Lemma collect_compare_files pairs :
  files (collect_compare str_exn pairs) = successes (map snd pairs).
Proof.
  induction pairs as [|[m [r|e]] rest IH]; simpl; auto.
  rewrite IH. reflexivity.
Qed.

(** Every failure of a compare is reported under its model identifier. *)
Lemma collect_compare_failed pairs :
  failed (collect_compare str_exn pairs)
  = map (fun me => compare_failure str_exn (fst me) (snd me))
        (failures_by_model pairs).
Proof.
  induction pairs as [|[m [r|e]] rest IH]; simpl; auto.
  rewrite IH. reflexivity.
Qed.
End Collect.

Section Gather.
Variable run : GenerateArgs -> M fs GenerateResult.

(** Every task contributes one result, whatever the others did. *)
Lemma gather_length tasks : forall store,
  List.length (fst (gather run tasks store)) = List.length tasks.
Proof.
  induction tasks as [|t rest IH]; intros store; simpl; auto.
  destruct (run t store) as [item store1].
  specialize (IH store1). destruct (gather run rest store1) as [items store2].
  simpl in *. congruence.
Qed.
End Gather.

Lemma snd_combine {A B : Type} (xs : list A) : forall ys : list B,
  List.length xs = List.length ys -> map snd (combine xs ys) = ys.
Proof.
  induction xs as [|x xs IH]; intros [|y ys] H; simpl in *; try discriminate; auto.
  f_equal. apply IH. lia.
Qed.

Lemma successes_length {A : Type} (before after : list A) (e : exn) :
  successes (map Ok before ++ Raise e :: map Ok after) = before ++ after.
Proof.
  unfold successes. rewrite flat_map_app. simpl.
  assert (H : forall l : list A,
             flat_map (fun item : result A =>
                         match item with Ok r => [r] | Raise _ => [] end)
                      (map Ok l) = l).
  { induction l as [|x l IH]; simpl; auto. f_equal. exact IH. }
  rewrite !H. reflexivity.
Qed.
End FanoutFacts.



(* ================================================================== *)
(** ** Disambiguated names *)

Module UniquePathFacts.
Import Json Errors Eff Filesystem.

Lemma append_length (a b : string) :
  String.length (a ++ b) = String.length a + String.length b.
Proof. induction a as [|c a IH]; simpl; auto. Qed.

Lemma append_inv_head (a x y : string) : (a ++ x = a ++ y)%string -> x = y.
Proof.
  induction a as [|c a IH]; simpl; auto. intros H. injection H as H. auto.
Qed.

Lemma append_inv_tail (s : string) : forall x y : string,
  (x ++ s = y ++ s)%string -> x = y.
Proof.
  induction x as [|c x IH]; intros [|c' y] H; simpl in H; auto.
  - exfalso. apply (f_equal String.length) in H. simpl in H.
    rewrite append_length in H. lia.
  - exfalso. apply (f_equal String.length) in H. simpl in H.
    rewrite append_length in H. lia.
  - injection H as -> H. f_equal. auto.
Qed.

Lemma str_of_nat_inj (i j : nat) : Py.str_of_nat i = Py.str_of_nat j -> i = j.
Proof.
  unfold Py.str_of_nat. intros H.
  apply DecimalNat.Unsigned.to_uint_inj.
  assert (N : forall n, Nat.to_uint n <> Decimal.Nil).
  { intros n E. pose proof (f_equal Nat.of_uint E) as Z.
    rewrite DecimalNat.Unsigned.of_to in Z. simpl in Z. subst n.
    discriminate E. }
  apply (f_equal NilZero.uint_of_string) in H.
  rewrite !NilZero.usu in H by apply N. congruence.
Qed.

(** The file name of the [idx]-th candidate. *)
Local Abbreviation numbered_name path idx :=
  (stem path ++ "_" ++ Py.str_of_nat idx ++ suffix path)%string
  (only parsing).

Lemma numbered_name_inj path i j :
  numbered_name path i = numbered_name path j -> i = j.
Proof.
  intros H. apply append_inv_head in H. apply (append_inv_head "_") in H.
  apply append_inv_tail in H. now apply str_of_nat_inj.
Qed.

Lemma numbered_name_not_dotdot path i : numbered_name path i <> "..".
Proof.
  destruct (stem path) as [|c s]; simpl; intros H; [discriminate H|].
  injection H as _ H. destruct s as [|c' s]; simpl in H; [discriminate H|].
  injection H as _ H. destruct s; discriminate H.
Qed.

Lemma split_last_snoc (l : list string) (x : string) :
  split_last (l ++ [x]) = Some (l, x).
Proof.
  unfold split_last. rewrite rev_app_distr. simpl. rewrite rev_involutive.
  reflexivity.
Qed.

Lemma stat_loc_listed store : forall l k,
  l <> [] -> stat_loc store l = Some k -> In l (map fst store).
Proof.
  induction store as [|[l' k'] store IH]; intros l k N H;
    destruct l as [|x l]; try congruence; simpl in H; try discriminate.
  unfold loc_eqb in H.
  destruct (list_eq_dec string_dec (x :: l) l') as [E|E].
  - left. simpl. symmetry. exact E.
  - right. apply (IH (x :: l) k); [discriminate | exact H].
Qed.

(** An existing candidate is an entry of the store, in the directory the
    parent of the path resolves to. *)
Lemma numbered_exists store path idx :
  exists_ store (numbered path idx) = true ->
  exists d,
    walk_dirs store [] (removelast (parts path)) = inr d
    /\ In (d ++ [numbered_name path idx]) (map fst store).
Proof.
  assert (P : parts (numbered path idx)
              = removelast (parts path) ++ [numbered_name path idx])
    by reflexivity.
  unfold exists_, stat. rewrite P, split_last_snoc.
  destruct (walk_dirs store [] (removelast (parts path))) as [e|d];
    [discriminate|].
  destruct (String.eqb_spec (numbered_name path idx) "..") as [E|_].
  { exfalso. exact (numbered_name_not_dotdot path idx E). }
  destruct (stat_loc store (d ++ [numbered_name path idx])) as [k|] eqn:S;
    [|discriminate].
  intros _. exists d. split; auto.
  apply (stat_loc_listed store _ k); auto. destruct d; discriminate.
Qed.

Lemma unique_from_exhausted store path : forall fuel idx,
  unique_from fuel store path idx = None ->
  forall i, In i (seq idx (S fuel)) -> exists_ store (numbered path i) = true.
Proof.
  induction fuel as [|fuel IH]; intros idx; simpl;
    destruct (exists_ store (numbered path idx)) eqn:E; simpl; try discriminate.
  - intros _ i [<-|[]]. exact E.
  - intros H i [<-|Hi]; [exact E|]. apply (IH (S idx) H i Hi).
Qed.

(** [unique_path] always comes back with a name that is free. *)
Lemma unique_path_free (path : Path) (store : fs) :
  exists free,
    unique_path path store = (Ok free, store)
    /\ exists_ store free = false.
Proof.
  unfold unique_path.
  destruct (exists_ store path) eqn:E; simpl.
  2:{ exists path. auto. }
  destruct (unique_from (List.length store) store path 1) as [free|] eqn:U.
  - exists free. split; auto.
    clear E. revert U. generalize 1. generalize (List.length store).
    induction n as [|n IH]; intros idx; simpl;
      destruct (exists_ store (numbered path idx)) eqn:X; simpl;
      try discriminate; try (intros H; injection H as <-; exact X).
    apply IH.
  - exfalso.
    pose proof (unique_from_exhausted store path _ _ U) as A.
    destruct (numbered_exists store path 1 (A 1 (or_introl eq_refl)))
      as (d & W & _).
    assert (I : incl (map (fun i => d ++ [numbered_name path i])
                          (seq 1 (S (List.length store))))
                     (map fst store)).
    { intros l Hl. apply in_map_iff in Hl as (i & <- & Hi).
      destruct (numbered_exists store path i (A i Hi)) as (d' & W' & Hin).
      rewrite W in W'. injection W' as <-. exact Hin. }
    assert (N : NoDup (map (fun i => d ++ [numbered_name path i])
                           (seq 1 (S (List.length store))))).
    { apply Injective_map_NoDup; [|apply seq_NoDup].
      intros i j H. apply app_inv_head in H. injection H as H.
      now apply numbered_name_inj in H. }
    pose proof (NoDup_incl_length N I) as L.
    rewrite !length_map, length_seq in L. lia.
Qed.
End UniquePathFacts.

(* ================================================================== *)
(** ** The working-directory boundary *)

Module PathFacts.
Import Json Errors Eff Filesystem.

Section Boundary.
Variable cwd : Path.

(** A path is outside the working root when its resolved form is not
    below the resolved working directory. *)
Local Abbreviation escapes p :=
  (_is_within (resolve cwd p) (resolve cwd cwd) = false) (only parsing).

(** The check itself rejects every path that resolves outside the root. *)
Lemma ensure_safe_path_blocks (p : Path) :
  escapes p ->
  exists msg,
    ensure_safe_path cwd p None
    = Raise (GenvoyToolError "PATH_TRAVERSAL_BLOCKED" msg).
Proof.
  unfold ensure_safe_path. intros E. rewrite E. simpl.
  eexists. reflexivity.
Qed.

Lemma ensure_safe_path_within (p safe : Path) :
  ensure_safe_path cwd p None = Ok safe ->
  safe = resolve cwd p /\ _is_within safe (resolve cwd cwd) = true.
Proof.
  unfold ensure_safe_path.
  destruct (_is_within (resolve cwd p) (resolve cwd cwd)) eqn:E; simpl.
  - intros H; injection H as <-. auto.
  - discriminate.
Qed.

(** [resolve_output_path] never returns a path for a request that
    resolves outside the root, and raises PATH_TRAVERSAL_BLOCKED whenever
    the parent directories could be created. *)
Lemma resolve_output_path_never_returns (output_path : Path)
    (preferred_ext : option string) (store : fs) :
  escapes (absolute_against_cwd cwd output_path) ->
  exists e store',
    resolve_output_path cwd output_path preferred_ext store = (Raise e, store')
    /\ (fst (mkdir_parents (parent (absolute_against_cwd cwd output_path)) store)
          = Ok tt ->
        has_code "PATH_TRAVERSAL_BLOCKED" e = true).
Proof.
  intros E. unfold resolve_output_path, mbind.
  destruct (mkdir_parents _ store) as [[[]|e] store1].
  - destruct (ensure_safe_path_blocks _ E) as [msg B].
    unfold lift. rewrite B. eexists _, _. split; [reflexivity|].
    intros _. reflexivity.
  - eexists _, _. split; [reflexivity|]. simpl. discriminate.
Qed.
End Boundary.
End PathFacts.

(** C3 fails on the code: a request outside the working root is rejected
    with PATH_TRAVERSAL_BLOCKED only after its parent directories have been
    created there, by [resolve_output_path] and by [copy_to_repo] alike. *)
Theorem rejected_path_has_created_directories_outside :
  let requested := Filesystem.Path_of_string "/outside/sub/x.png" in
  let copy_target := Filesystem.Path_of_string "../../etc/x/hero.png" in
  let source := Filesystem.Path_of_string "/work/hero.png" in
  let blocked :=
    Errors.GenvoyToolError "PATH_TRAVERSAL_BLOCKED"
      (Errors.Msg "Resolved path is outside working directory.") in
  Filesystem.outside ["work"] Spec.sample_store = [["outside.txt"]]
  /\ (exists store',
        Filesystem.resolve_output_path Spec.sample_cwd requested None
          Spec.sample_store = (Errors.Raise blocked, store')
        /\ Filesystem.outside ["work"] store'
           = [["outside.txt"]; ["outside"]; ["outside"; "sub"]])
  /\ (exists store',
        Filesystem.copy_to_repo Spec.sample_cwd source copy_target
          Spec.sample_store = (Errors.Raise blocked, store')
        /\ Filesystem.outside ["work"] store'
           = [["outside.txt"]; ["etc"]; ["etc"; "x"]]).
Proof.
  cbv zeta. split; [reflexivity|].
  split; eexists; split; reflexivity.
Qed.

(** C4 fails on the code: for a request outside the working root whose
    parent cannot be created, the error of the directory creation reaches
    the caller and the traversal check is never run. *)
Theorem escaping_path_fails_before_the_check :
  let requested := Filesystem.Path_of_string "/outside.txt/x.png" in
  Filesystem._is_within
    (Filesystem.resolve Spec.sample_cwd requested)
    (Filesystem.resolve Spec.sample_cwd Spec.sample_cwd) = false
  /\ Filesystem.resolve_output_path Spec.sample_cwd requested None
       Spec.sample_store
     = (Errors.Raise (Errors.OSError "FileExistsError"), Spec.sample_store).
Proof.
  cbv zeta. split; reflexivity.
Qed.

(* ================================================================== *)
(** ** The repository's tests, replayed on the model *)

Module Replay.
Import Json Errors Eff Filesystem.

(** [test_detect_type_and_ext_from_url_extension] *)
Example detect_from_url_extension :
  MediaType.detect_type_and_ext MediaType.simple_urlparse_path
    "https://cdn.fal.ai/file/output.mp4?token=abc" None
  = ("video", Some ".mp4").
Proof. reflexivity. Qed.

(** [test_detect_type_and_ext_from_content_type_fallback] *)
Example detect_from_content_type :
  MediaType.detect_type_and_ext MediaType.simple_urlparse_path
    "https://cdn.fal.ai/file/noext" (Some "image/png; charset=utf-8")
  = ("image", Some ".png").
Proof. reflexivity. Qed.

(** [test_ensure_safe_path_blocks_path_traversal] *)
Example safe_path_blocks_sibling :
  ensure_safe_path Spec.sample_cwd (Path_of_string "/tmp/outside.txt")
    (Some (Path_of_string "/tmp/root"))
  = Raise (GenvoyToolError "PATH_TRAVERSAL_BLOCKED"
             (Msg "Resolved path is outside working directory.")).
Proof. reflexivity. Qed.

(** [test_unique_path_auto_increments], and the third request of the
    specification. *)
Example unique_path_increments :
  fst (unique_path (Path_of_string "/work/hero.png") Spec.sample_store)
    = Ok (Path_of_string "/work/hero_1.png")
  /\ fst (unique_path (Path_of_string "/work/hero.png")
            (Spec.sample_store ++ [(["work"; "hero_1.png"], File)]))
     = Ok (Path_of_string "/work/hero_2.png").
Proof. split; reflexivity. Qed.

(** [test_stream_job_status_parses_sse_events] *)
Example stream_parses_events :
  FalClient.stream_job_status Spec.sample_loads Spec.sample_repr
    (Some (fun _ _ => None))
    (FalClient.Stream 200
       [ ("data: " ++ Spec.status_body "IN_PROGRESS")%string; EmptyString;
         ("data: " ++ Spec.status_body "COMPLETED")%string; EmptyString ]
       FalClient.Closed)
    FalClient.start
  = (Ok [("status", JStr "COMPLETED")],
     FalClient.World 0
       [ JObj [("status", JStr "IN_PROGRESS")];
         JObj [("status", JStr "COMPLETED")] ]).
Proof. reflexivity. Qed.

(** [test_stream_job_status_maps_unavailable_status] *)
Example stream_unavailable_on_404 :
  fst (FalClient.stream_job_status Spec.sample_loads Spec.sample_repr None
         Spec.sample_stream FalClient.start)
  = Raise (FalClient.sse_unavailable "SSE stream unavailable.").
Proof. reflexivity. Qed.

(** [test_wait_for_completion_falls_back_to_polling] *)
Example wait_falls_back_to_polling :
  FalClient.wait_for_completion Spec.sample_loads Spec.sample_repr
    (Some (fun _ _ => None)) Spec.sample_status "fal-ai/flux/dev" "req-2"
    30 2 15 Spec.sample_stream FalClient.start
  = Some (Ok [("status", JStr "COMPLETED")],
          FalClient.World 2
            [ JObj [("status", JStr "IN_PROGRESS")];
              JObj [("status", JStr "COMPLETED")] ]).
Proof. reflexivity. Qed.

(** A job that never leaves IN_PROGRESS times out after fifteen polls of
    two seconds. *)
Example wait_times_out :
  option_map fst
    (FalClient.wait_for_completion Spec.sample_loads Spec.sample_repr None
       (fun _ => Spec.sample_status 0) "fal-ai/flux/dev" "req-3"
       30 2 15 Spec.sample_stream FalClient.start)
  = Some (Raise (FalClient.job_timeout "req-3")).
Proof. reflexivity. Qed.

(** [test_request_rejects_non_json_success_payload] and the status-code
    mappings of the client tests. *)
Example request_status_mapping :
  map (fun r => match FalClient._request Spec.sample_loads "GET"
                        "https://api.fal.ai/v1/models" (FalClient.Answered r) with
                | Ok _ => "OK"
                | Raise e => match code_of e with Some c => c | None => "?" end
                end)
      [ FalClient.Response 200 [] "not-json";
        FalClient.Response 429 [("Retry-After", "7")] "too many";
        FalClient.Response 404 [] "missing";
        FalClient.Response 500 [] "boom";
        FalClient.Response 504 [("X-Fal-Request-Timeout-Type", "user")] "timeout";
        FalClient.Response 200 [] "{}" ]
  = [ "INVALID_RESPONSE"; "RATE_LIMITED"; "MODEL_NOT_FOUND"; "FAL_API_ERROR";
      "QUEUE_START_TIMEOUT"; "OK" ].
Proof. reflexivity. Qed.

(** [test_generate_pipeline_end_to_end]: the result payload's cost wins
    over the status payload's, and the duration comes from the status
    payload. *)
Example pipeline_cost_and_duration :
  let result_payload :=
    [ ("result", JObj [("url", JStr "https://cdn.fal.ai/m-req-1.png")]);
      ("usage", JObj [("cost", JStr "$0.15")]) ] in
  let terminal_status :=
    [ ("status", JStr "COMPLETED");
      ("usage", JObj [("cost_usd", JNum (42 # 100))]);
      ("timings", JObj [("duration_ms", JNum 1234)]) ] in
  Extraction.generate_cost_usd result_payload terminal_status = Some (15 # 100)%Q
  /\ Extraction.generate_duration_ms Spec.sample_float
       result_payload terminal_status = Some 1234%Z
  /\ Extraction._extract_first_media_url MediaType.simple_urlparse_path
       (JObj result_payload) = Some "https://cdn.fal.ai/m-req-1.png".
Proof. cbv zeta. repeat split; reflexivity. Qed.

(** [test_generate_compare_partial_failure] *)
Example compare_partial_failure :
  match Server.generate_compare Spec.sample_cwd Spec.sample_generate_once
          Spec.sample_str_exn Spec.sample_compare Spec.sample_store with
  | (Ok res, _) =>
      (List.length (Server.files res), Server.failed res)
      = (1, [ [ ("model_id", JStr "fal-ai/bad/model");
                ("error", JStr "JOB_FAILED: forced failure") ] ])
  | (Raise _, _) => False
  end.
Proof. reflexivity. Qed.

End Replay.

(* ==================================================================== *)
(** * Further properties *)

(* ================================================================== *)
(** ** The store under [mkdir], [unique_path] and the path check *)

Module StoreFacts.
Import Json Errors Eff Filesystem.

Lemma stat_loc_root (store : fs) : stat_loc store [] = Some Dir.
Proof. destruct store; reflexivity. Qed.

Lemma stat_loc_app store extra l k :
  stat_loc store l = Some k -> stat_loc (store ++ extra) l = Some k.
Proof.
  destruct l as [|x l]; [now rewrite !stat_loc_root|].
  induction store as [|[l' k'] store IH]; simpl; [discriminate|].
  destruct (loc_eqb (x :: l) l'); auto.
Qed.

Lemma stat_loc_fresh store loc k :
  loc <> [] -> stat_loc store loc = None ->
  stat_loc (store ++ [(loc, k)]) loc = Some k.
Proof.
  intros N. destruct loc as [|x l]; [congruence|].
  induction store as [|[l' k'] store IH]; simpl.
  - intros _. unfold loc_eqb.
    destruct (list_eq_dec string_dec (x :: l) (x :: l)); congruence.
  - destruct (loc_eqb (x :: l) l'); [discriminate|]. exact IH.
Qed.

Lemma walk_dirs_app store extra : forall comps cur d,
  walk_dirs store cur comps = inr d ->
  walk_dirs (store ++ extra) cur comps = inr d.
Proof.
  induction comps as [|c comps IH]; intros cur d; simpl; auto.
  destruct (String.eqb c ".."); auto.
  destruct (stat_loc store (cur ++ [c])) as [[|]|] eqn:S; try discriminate.
  rewrite (stat_loc_app _ extra _ _ S). auto.
Qed.

Lemma walk_dirs_split store : forall a b cur,
  walk_dirs store cur (a ++ b) =
  match walk_dirs store cur a with
  | inr d => walk_dirs store d b
  | inl e => inl e
  end.
Proof.
  induction a as [|c a IH]; intros b cur; simpl; auto.
  destruct (String.eqb c ".."); auto.
  destruct (stat_loc store (cur ++ [c])) as [[|]|]; auto.
Qed.

(** Without symbolic links, walking a path and normalising it name the
    same location. *)
Lemma walk_dirs_normalize store : forall comps cur d,
  walk_dirs store cur comps = inr d -> d = normalize cur comps.
Proof.
  induction comps as [|c comps IH]; intros cur d; simpl.
  - congruence.
  - destruct (String.eqb c ".."); auto.
    destruct (stat_loc store (cur ++ [c])) as [[|]|]; try discriminate. auto.
Qed.

Lemma split_last_parts (comps : list string) :
  match split_last comps with
  | None => comps = []
  | Some (init, l) => comps = init ++ [l]
  end.
Proof.
  unfold split_last. destruct (rev comps) as [|l r] eqn:R.
  - apply (f_equal (@rev string)) in R. rewrite rev_involutive in R. exact R.
  - apply (f_equal (@rev string)) in R. rewrite rev_involutive in R. exact R.
Qed.

Lemma stat_app store extra p x :
  stat store p = inr x -> stat (store ++ extra) p = inr x.
Proof.
  unfold stat. destruct (split_last (parts p)) as [[init l]|]; auto.
  destruct (walk_dirs store [] init) as [e|d] eqn:W; [discriminate|].
  rewrite (walk_dirs_app _ extra _ _ _ W).
  destruct (stat_loc store _) as [k|] eqn:S; [|discriminate].
  rewrite (stat_loc_app _ extra _ _ S). auto.
Qed.

Lemma exists_app store extra p :
  exists_ store p = true -> exists_ (store ++ extra) p = true.
Proof.
  unfold exists_. destruct (stat store p) as [e|x] eqn:S; [discriminate|].
  rewrite (stat_app _ extra _ _ S). auto.
Qed.

Lemma is_dir_app store extra p :
  is_dir store p = true -> is_dir (store ++ extra) p = true.
Proof.
  unfold is_dir. destruct (stat store p) as [e|[l k]] eqn:S; [discriminate|].
  rewrite (stat_app _ extra _ _ S). auto.
Qed.

(** A directory can be walked into. *)
Lemma is_dir_walk store p :
  is_dir store p = true ->
  walk_dirs store [] (parts p) = inr (normalize [] (parts p)).
Proof.
  unfold is_dir, stat. pose proof (split_last_parts (parts p)) as P.
  destruct (split_last (parts p)) as [[init l]|].
  2:{ rewrite P. reflexivity. }
  rewrite P. rewrite walk_dirs_split.
  destruct (walk_dirs store [] init) as [e|d] eqn:W; [discriminate|].
  intros H. assert (G : exists d', walk_dirs store d [l] = inr d').
  { simpl. destruct (String.eqb l ".."); [eauto|].
    destruct (stat_loc store (d ++ [l])) as [[|]|]; try discriminate; eauto. }
  destruct G as [d' G]. rewrite G. f_equal.
  assert (F : walk_dirs store [] (init ++ [l]) = inr d').
  { rewrite walk_dirs_split, W. exact G. }
  exact (walk_dirs_normalize _ _ _ _ F).
Qed.

(** [os.mkdir] adds one directory entry at a location that was free. *)
Lemma os_mkdir_adds store p store' :
  os_mkdir store p = inr store' ->
  exists loc, store' = store ++ [(loc, Dir)] /\ is_dir store' p = true.
Proof.
  unfold os_mkdir. pose proof (split_last_parts (parts p)) as P.
  destruct (split_last (parts p)) as [[init l]|] eqn:SL; [|discriminate].
  destruct (walk_dirs store [] init) as [e|d] eqn:W; [discriminate|].
  destruct (String.eqb l "..") eqn:DD; [discriminate|].
  destruct (stat_loc store (d ++ [l])) as [k|] eqn:S; [discriminate|].
  intros H; injection H as <-. exists (d ++ [l]). split; auto.
  unfold is_dir, stat. rewrite SL, (walk_dirs_app _ _ _ _ _ W), DD.
  rewrite stat_loc_fresh; auto. destruct d; discriminate.
Qed.

(** [mkdir(parents=True, exist_ok=True)] only adds directories, and on
    success the path is a directory. *)
Lemma mkdir_parents_fuel_adds fuel : forall p store r store',
  mkdir_parents_fuel fuel p store = (r, store') ->
  (exists added,
      store' = store ++ added /\ Forall (fun e => snd e = Dir) added)
  /\ (r = Ok tt -> is_dir store' p = true).
Proof.
  assert (Z : forall store : fs,
             exists added, store = store ++ added
                           /\ Forall (fun e : location * kind => snd e = Dir) added).
  { intros store. exists []. rewrite app_nil_r. auto. }
  induction fuel as [|fuel IH]; intros p store r store'; simpl.
  - destruct (os_mkdir store p) as [e|s1] eqn:M.
    + destruct e; try (destruct (is_dir store p) eqn:D;
        intros H; injection H as <- <-; (split; [apply Z|congruence || auto])).
    + intros H; injection H as <- <-.
      destruct (os_mkdir_adds _ _ _ M) as (loc & -> & D).
      split; [exists [(loc, Dir)]; auto|auto].
  - destruct (os_mkdir store p) as [e|s1] eqn:M.
    + destruct e; try (destruct (is_dir store p) eqn:D;
        intros H; injection H as <- <-; (split; [apply Z|congruence || auto])).
      destruct (parts p) as [|x xs] eqn:PP.
      { intros H; injection H as <- <-. split; [apply Z|discriminate]. }
      destruct (mkdir_parents_fuel fuel (parent p) store) as [[[]|e1] s1] eqn:R.
      2:{ intros H; injection H as <- <-.
          split; [exact (proj1 (IH _ _ _ _ R))|discriminate]. }
      destruct (IH _ _ _ _ R) as [(added & -> & F) _].
      destruct (os_mkdir (store ++ added) p) as [e2|s2] eqn:M2.
      * destruct e2; try (destruct (is_dir (store ++ added) p) eqn:D;
          intros H; injection H as <- <-;
          (split; [exists added; auto|congruence || auto])).
      * intros H; injection H as <- <-.
        destruct (os_mkdir_adds _ _ _ M2) as (loc & -> & D).
        split; auto. exists (added ++ [(loc, Dir)]).
        rewrite app_assoc. split; auto.
        apply Forall_app. auto.
    + intros H; injection H as <- <-.
      destruct (os_mkdir_adds _ _ _ M) as (loc & -> & D).
      split; [exists [(loc, Dir)]; auto|auto].
Qed.

Lemma mkdir_parents_adds p store r store' :
  mkdir_parents p store = (r, store') ->
  (exists added,
      store' = store ++ added /\ Forall (fun e => snd e = Dir) added)
  /\ (r = Ok tt -> is_dir store' p = true).
Proof. apply mkdir_parents_fuel_adds. Qed.

Lemma normalize_snoc : forall comps cur l,
  normalize cur (comps ++ [l]) =
  if String.eqb l ".." then removelast (normalize cur comps)
  else normalize cur comps ++ [l].
Proof.
  induction comps as [|c comps IH]; intros cur l; simpl.
  - destruct (String.eqb l ".."); reflexivity.
  - destruct (String.eqb c ".."); apply IH.
Qed.

Lemma removelast_no_dotdot (l : list string) :
  ~ In ".." l -> ~ In ".." (removelast l).
Proof.
  induction l as [|x l IH]; simpl; auto.
  destruct l as [|y l]; simpl; auto. intros H [E|I].
  - apply H. auto.
  - apply IH; auto.
Qed.

(** A normalised location has no [".."] left in it. *)
Lemma normalize_no_dotdot : forall comps cur,
  ~ In ".." cur -> ~ In ".." (normalize cur comps).
Proof.
  induction comps as [|c comps IH]; intros cur H; simpl; auto.
  destruct (String.eqb_spec c "..") as [->|N].
  - apply IH. now apply removelast_no_dotdot.
  - apply IH. intros I. apply in_app_or in I as [I|[E|[]]]; auto.
Qed.

Lemma normalize_plain : forall comps cur,
  ~ In ".." comps -> normalize cur comps = cur ++ comps.
Proof.
  induction comps as [|c comps IH]; intros cur H; simpl.
  - now rewrite app_nil_r.
  - destruct (String.eqb_spec c "..") as [->|N].
    + exfalso. apply H. now left.
    + rewrite IH by (intros I; apply H; now right).
      now rewrite <- app_assoc.
Qed.

Lemma is_prefix_refl (l : location) : is_prefix l l = true.
Proof. induction l; simpl; auto. rewrite String.eqb_refl. auto. Qed.

Lemma is_prefix_app (root l : location) :
  is_prefix root l = true <-> exists rest, l = root ++ rest.
Proof.
  revert l. induction root as [|r root IH]; intros l; simpl.
  - split; eauto.
  - destruct l as [|x l].
    + split; [discriminate|]. intros [rest H]. discriminate.
    + rewrite andb_true_iff, IH. split.
      * intros [E [rest ->]]. apply String.eqb_eq in E as ->. eauto.
      * intros [rest H]. injection H as -> ->.
        rewrite String.eqb_refl. eauto.
Qed.

(** A location every prefix of which is a directory. *)
Lemma reachable_step store cur c :
  walk_dirs store [] cur = inr cur -> String.eqb c ".." = false ->
  stat_loc store (cur ++ [c]) = Some Dir ->
  walk_dirs store [] (cur ++ [c]) = inr (cur ++ [c]).
Proof.
  intros R N S. rewrite walk_dirs_split, R. simpl. now rewrite N, S.
Qed.

Lemma reachable_parent store cur :
  ~ In ".." cur -> walk_dirs store [] cur = inr cur ->
  walk_dirs store [] (removelast cur) = inr (removelast cur).
Proof.
  destruct (split_last cur) as [[init l]|] eqn:SL;
    pose proof (split_last_parts cur) as P; rewrite SL in P; subst cur.
  2:{ reflexivity. }
  intros N. rewrite removelast_last, walk_dirs_split.
  destruct (walk_dirs store [] init) as [e|d] eqn:W; [discriminate|].
  simpl. destruct (String.eqb_spec l "..") as [->|NE].
  { exfalso. apply N, in_or_app. right. now left. }
  destruct (stat_loc store (d ++ [l])) as [[|]|]; try discriminate.
  intros H; injection H as H. apply app_inj_tail in H as [-> _]. reflexivity.
Qed.

Lemma walk_dirs_reachable store : forall comps cur d,
  ~ In ".." cur -> walk_dirs store [] cur = inr cur ->
  walk_dirs store cur comps = inr d ->
  ~ In ".." d /\ walk_dirs store [] d = inr d.
Proof.
  induction comps as [|c comps IH]; intros cur d N R; simpl.
  - intros H; injection H as <-. auto.
  - destruct (String.eqb_spec c "..") as [->|NE].
    + apply IH; [now apply removelast_no_dotdot|now apply reachable_parent].
    + destruct (stat_loc store (cur ++ [c])) as [[|]|] eqn:S; try discriminate.
      apply IH.
      * intros I. apply in_app_or in I as [I|[E|[]]]; auto.
      * apply reachable_step; auto. now apply String.eqb_neq.
Qed.

Lemma reachable_is_dir store (loc : location) (a : bool) :
  ~ In ".." loc -> walk_dirs store [] loc = inr loc ->
  is_dir store (MkPath a loc) = true.
Proof.
  intros N R. unfold is_dir, stat. simpl.
  pose proof (split_last_parts loc) as P.
  destruct (split_last loc) as [[init l]|]; [|reflexivity]. subst loc.
  pose proof (reachable_parent _ _ N R) as RP.
  rewrite removelast_last in RP. rewrite RP.
  rewrite walk_dirs_split, RP in R. simpl in R.
  destruct (String.eqb l "..") eqn:DD.
  { exfalso. apply String.eqb_eq in DD. subst l.
    apply N, in_or_app. right. now left. }
  destruct (stat_loc store (init ++ [l])) as [[|]|]; try discriminate.
  reflexivity.
Qed.

(** How [unique_from] ends: at the first candidate that is free. *)
Lemma unique_from_first store path : forall fuel idx free,
  unique_from fuel store path idx = Some free ->
  exists i,
    idx <= i /\ free = numbered path i
    /\ exists_ store free = false
    /\ forall j, idx <= j < i -> exists_ store (numbered path j) = true.
Proof.
  induction fuel as [|fuel IH]; intros idx free; simpl;
    destruct (exists_ store (numbered path idx)) eqn:E; simpl;
    try discriminate;
    try (intros H; injection H as <-; exists idx;
         repeat split; auto; intros j Hj; lia).
  intros H. destruct (IH _ _ H) as (i & L & F & X & A).
  exists i. repeat split; auto; [lia|]. intros j Hj.
  destruct (Nat.eq_dec j idx) as [->|NE]; [exact E|]. apply A. lia.
Qed.

End StoreFacts.

(** X1 ([unique_path]).  [unique_path] always returns, leaves the store
    as it is, and returns a path that does not exist: the path itself when
    it is free, and otherwise the numbered candidate with the smallest
    index from 1 on that is free. *)
Theorem unique_path_smallest_free :
  forall (path : Filesystem.Path) (store : Filesystem.fs),
  exists free,
    Filesystem.unique_path path store = (Errors.Ok free, store)
    /\ Filesystem.exists_ store free = false
    /\ ((Filesystem.exists_ store path = false /\ free = path)
        \/ (Filesystem.exists_ store path = true
            /\ exists idx,
                 1 <= idx
                 /\ free = Filesystem.numbered path idx
                 /\ forall j, 1 <= j < idx ->
                      Filesystem.exists_ store (Filesystem.numbered path j)
                      = true)).
Proof.
  intros path store.
  destruct (UniquePathFacts.unique_path_free path store) as (free & U & F).
  exists free. split; [exact U|]. split; [exact F|].
  unfold Filesystem.unique_path in U.
  destruct (Filesystem.exists_ store path) eqn:E; simpl in U.
  - right. split; [reflexivity|].
    destruct (Filesystem.unique_from _ store path 1) as [c|] eqn:Q;
      [|discriminate U].
    injection U as ->.
    destruct (StoreFacts.unique_from_first _ _ _ _ _ Q) as (i & L & -> & _ & A).
    exists i. auto.
  - left. injection U as <-. auto.
Qed.

(** X2 ([ensure_safe_path], [_is_within]).  [ensure_safe_path] either
    raises PATH_TRAVERSAL_BLOCKED, exactly when the resolved path is not
    below the resolved root, or returns the resolved path: an absolute
    path without [..] that lies below the root and that the check maps
    to itself. *)
Theorem ensure_safe_path_result :
  forall (cwd path : Filesystem.Path) (cwd_arg : option Filesystem.Path),
    let root :=
      Filesystem.resolve cwd
        (match cwd_arg with Some c => c | None => cwd end) in
    match Filesystem.ensure_safe_path cwd path cwd_arg with
    | Errors.Ok safe =>
        safe = Filesystem.resolve cwd path
        /\ Filesystem.is_absolute safe = true
        /\ ~ In ".." (Filesystem.parts safe)
        /\ (exists rest,
              Filesystem.parts safe = Filesystem.parts root ++ rest)
        /\ Filesystem.ensure_safe_path cwd safe cwd_arg = Errors.Ok safe
    | Errors.Raise e =>
        Errors.has_code "PATH_TRAVERSAL_BLOCKED" e = true
        /\ Filesystem._is_within (Filesystem.resolve cwd path) root = false
    end.
Proof.
  intros cwd path cwd_arg root. unfold Filesystem.ensure_safe_path.
  fold root.
  destruct (Filesystem._is_within (Filesystem.resolve cwd path) root) eqn:W;
    simpl; [|auto].
  assert (N : ~ In ".." (Filesystem.parts (Filesystem.resolve cwd path))).
  { simpl. apply StoreFacts.normalize_no_dotdot. intros []. }
  assert (R : Filesystem.resolve cwd (Filesystem.resolve cwd path)
              = Filesystem.resolve cwd path).
  { unfold Filesystem.resolve at 1. unfold Filesystem.joinpath.
    change (Filesystem.is_absolute (Filesystem.resolve cwd path)) with true.
    cbv iota. rewrite StoreFacts.normalize_plain by exact N. reflexivity. }
  repeat split; auto.
  - unfold Filesystem._is_within in W. apply andb_true_iff in W as [_ W].
    now apply StoreFacts.is_prefix_app.
  - rewrite R, W. reflexivity.
Qed.

Module OutputPathFacts.
Import Json Errors Eff Filesystem.

Lemma parent_numbered path idx : parent (numbered path idx) = parent path.
Proof.
  unfold numbered, joinpath, parent. simpl. now rewrite removelast_last.
Qed.

Lemma absolute_numbered path idx :
  is_absolute (numbered path idx) = is_absolute path.
Proof. reflexivity. Qed.

Lemma numbered_no_dotdot path idx :
  ~ In ".." (parts path) -> ~ In ".." (parts (numbered path idx)).
Proof.
  intros N I. simpl in I. apply in_app_or in I as [I|[E|[]]].
  - now apply (StoreFacts.removelast_no_dotdot _ N).
  - exact (UniquePathFacts.numbered_name_not_dotdot path idx E).
Qed.

(** What [unique_path] returns. *)
Lemma unique_path_shape (path : Path) (store : fs) :
  exists free,
    unique_path path store = (Ok free, store)
    /\ exists_ store free = false
    /\ ((exists_ store path = false /\ free = path)
        \/ (exists_ store path = true
            /\ exists idx,
                 1 <= idx /\ free = numbered path idx
                 /\ forall j, 1 <= j < idx ->
                      exists_ store (numbered path j) = true)).
Proof.
  destruct (UniquePathFacts.unique_path_free path store) as (free & U & F).
  exists free. split; [exact U|]. split; [exact F|].
  unfold unique_path in U.
  destruct (exists_ store path) eqn:E; simpl in U.
  - right. split; [reflexivity|].
    destruct (unique_from _ store path 1) as [c|] eqn:Q; [|discriminate U].
    injection U as ->.
    destruct (StoreFacts.unique_from_first _ _ _ _ _ Q) as (i & L & -> & _ & A).
    exists i. auto.
  - left. injection U as <-. auto.
Qed.

Lemma unique_path_keeps path store r store' :
  unique_path path store = (r, store') ->
  store' = store
  /\ exists free,
       r = Ok free /\ exists_ store free = false
       /\ parent free = parent path
       /\ is_absolute free = is_absolute path
       /\ (~ In ".." (parts path) -> ~ In ".." (parts free))
       /\ (free = path \/ exists idx, free = numbered path idx).
Proof.
  destruct (unique_path_shape path store) as (free & U & F & C).
  rewrite U. intros H; injection H as <- <-. split; [reflexivity|].
  exists free. split; [reflexivity|]. split; [exact F|].
  destruct C as [[_ ->]|[_ (idx & _ & -> & _)]].
  - repeat split; auto.
  - repeat split; eauto.
    + apply parent_numbered.
    + intros N. now apply numbered_no_dotdot.
Qed.

Lemma with_suffix_keeps p ext q :
  with_suffix p ext = Ok q ->
  parent q = parent p /\ is_absolute q = is_absolute p
  /\ name q = (stem p ++ ext)%string.
Proof.
  unfold with_suffix. destruct (negb (Py.nonempty (name p))); [discriminate|].
  destruct (negb (Py.startswith ext ".") || String.eqb ext ".");
    [discriminate|].
  intros H; injection H as <-. unfold with_name, parent, name. simpl.
  rewrite removelast_last, last_last. auto.
Qed.

Section Rooted.
Variable cwd : Path.
Hypothesis cwd_absolute : is_absolute cwd = true.

Lemma absolute_against_cwd_absolute p :
  is_absolute (absolute_against_cwd cwd p) = true.
Proof.
  unfold absolute_against_cwd, joinpath.
  destruct (is_absolute p) eqn:A; simpl; auto.
Qed.

Lemma resolve_absolute p :
  is_absolute p = true -> resolve cwd p = MkPath true (normalize [] (parts p)).
Proof. intros A. unfold resolve, joinpath. now rewrite A. Qed.

(** Once the parent of an absolute path is a directory, so is the parent
    of the resolved path. *)
Lemma resolved_parent_is_dir store raw :
  is_absolute raw = true ->
  is_dir store (parent raw) = true ->
  is_dir store (parent (resolve cwd raw)) = true.
Proof.
  intros A D. rewrite (resolve_absolute _ A).
  apply StoreFacts.is_dir_walk in D. simpl in D.
  destruct (StoreFacts.walk_dirs_reachable store _ [] _
              (fun x => x) eq_refl D) as [N R].
  unfold parent. simpl.
  pose proof (StoreFacts.split_last_parts (parts raw)) as P.
  destruct (split_last (parts raw)) as [[init l]|].
  - rewrite P in *. rewrite removelast_last in N, R.
    rewrite StoreFacts.normalize_snoc.
    destruct (String.eqb l "..").
    + apply StoreFacts.reachable_is_dir.
      * now repeat apply StoreFacts.removelast_no_dotdot.
      * apply StoreFacts.reachable_parent;
          [now apply StoreFacts.removelast_no_dotdot|].
        now apply StoreFacts.reachable_parent.
    + rewrite removelast_last. now apply StoreFacts.reachable_is_dir.
  - rewrite P. simpl. reflexivity.
Qed.

End Rooted.
End OutputPathFacts.

(** X3 ([resolve_output_path]).  When [resolve_output_path] returns a
    path, it has changed the store only by adding directories, and the
    path it returns is absolute, does not exist yet, and lies in an
    existing directory: the parent of the resolved request. *)
Theorem resolve_output_path_fresh :
  forall (cwd output_path : Filesystem.Path) (preferred_ext : option string)
         (store store' : Filesystem.fs) (path : Filesystem.Path),
    Filesystem.is_absolute cwd = true ->
    Filesystem.resolve_output_path cwd output_path preferred_ext store
      = (Errors.Ok path, store') ->
    (exists dirs,
        store' = store ++ dirs
        /\ Forall (fun e => snd e = Filesystem.Dir) dirs)
    /\ Filesystem.is_absolute path = true
    /\ Filesystem.exists_ store' path = false
    /\ Filesystem.is_dir store' (Filesystem.parent path) = true
    /\ Filesystem.parent path
       = Filesystem.parent
           (Filesystem.resolve cwd
              (Filesystem.absolute_against_cwd cwd output_path)).
Proof.
  intros cwd output_path preferred_ext store store' path A.
  unfold Filesystem.resolve_output_path, Eff.mbind, Eff.lift.
  set (raw := Filesystem.absolute_against_cwd cwd output_path).
  assert (RA : Filesystem.is_absolute raw = true)
    by now apply OutputPathFacts.absolute_against_cwd_absolute.
  destruct (Filesystem.mkdir_parents (Filesystem.parent raw) store)
    as [[[]|e] store1] eqn:M; [|discriminate].
  destruct (StoreFacts.mkdir_parents_adds _ _ _ _ M) as [G D].
  specialize (D eq_refl).
  pose proof (OutputPathFacts.resolved_parent_is_dir cwd store1 raw RA D) as PD.
  pose proof (PathFacts.ensure_safe_path_within cwd raw) as W.
  destruct (Filesystem.ensure_safe_path cwd raw None) as [safe|e];
    [|discriminate].
  destruct (W safe eq_refl) as [-> _]. clear W.
  set (safe := Filesystem.resolve cwd raw) in *.
  assert (K : forall safe2 : Filesystem.Path,
             Filesystem.parent safe2 = Filesystem.parent safe ->
             Filesystem.is_absolute safe2 = true ->
             Filesystem.unique_path safe2 store1 = (Errors.Ok path, store') ->
             (exists dirs,
                 store' = store ++ dirs
                 /\ Forall (fun e => snd e = Filesystem.Dir) dirs)
             /\ Filesystem.is_absolute path = true
             /\ Filesystem.exists_ store' path = false
             /\ Filesystem.is_dir store' (Filesystem.parent path) = true
             /\ Filesystem.parent path = Filesystem.parent safe).
  { intros safe2 P2 A2 U.
    destruct (OutputPathFacts.unique_path_keeps _ _ _ _ U)
      as (-> & free & E & F & PF & AF & _).
    injection E as <-. rewrite PF, P2, AF. repeat split; auto. }
  destruct preferred_ext as [ext|].
  - destruct (negb (Py.nonempty (Filesystem.suffix safe)) && Py.nonempty ext).
    + destruct (Filesystem.with_suffix safe ext) as [safe2|e] eqn:WS;
        [|discriminate].
      destruct (OutputPathFacts.with_suffix_keeps _ _ _ WS) as (P2 & A2 & _).
      apply K; auto.
    + apply K; auto.
  - apply K; auto.
Qed.

(** A request for [out/hero] with the extension of a PNG. *)
Lemma resolve_output_path_fresh_witness :
  Filesystem.is_absolute Spec.sample_cwd = true
  /\ Filesystem.resolve_output_path Spec.sample_cwd
       (Filesystem.Path_of_string "out/hero") (Some ".png") Spec.sample_store
     = (Errors.Ok (Filesystem.Path_of_string "/work/out/hero.png"),
        Spec.sample_store ++ [(["work"; "out"], Filesystem.Dir)])
  /\ Filesystem.is_dir
       (Spec.sample_store ++ [(["work"; "out"], Filesystem.Dir)])
       (Filesystem.Path_of_string "/work/out") = true.
Proof.
  split; [reflexivity|]. split; [reflexivity|].
  exact (proj1 (proj2 (proj2 (proj2
    (resolve_output_path_fresh Spec.sample_cwd
       (Filesystem.Path_of_string "out/hero") (Some ".png") Spec.sample_store
       _ _ eq_refl eq_refl))))).
Defined.

Module CopyFacts.
Import Json Errors Eff Filesystem.

(** A fresh location below a walkable directory: creating a file there
    makes the path a file. *)
Lemma create_file store (target : Path) :
  ~ In ".." (parts target) ->
  exists_ store target = false ->
  forall init l d,
    split_last (parts target) = Some (init, l) ->
    walk_dirs store [] init = inr d ->
    d ++ [l] = parts target
    /\ stat (store ++ [(d ++ [l], File)]) target = inr (parts target, File).
Proof.
  intros N X init l d SL W.
  pose proof (StoreFacts.split_last_parts (parts target)) as P.
  rewrite SL in P.
  assert (NI : ~ In ".." init).
  { intros I. apply N. rewrite P. apply in_or_app. now left. }
  assert (NL : String.eqb l ".." = false).
  { apply String.eqb_neq. intros ->. apply N. rewrite P.
    apply in_or_app. right. now left. }
  pose proof (StoreFacts.walk_dirs_normalize _ _ _ _ W) as E.
  rewrite StoreFacts.normalize_plain in E by exact NI. simpl in E. subst d.
  split; [now rewrite P|].
  unfold exists_, stat in X. rewrite SL, W, NL in X.
  destruct (stat_loc store (init ++ [l])) as [k|] eqn:S; [discriminate|].
  unfold stat. rewrite SL, (StoreFacts.walk_dirs_app _ _ _ _ _ W), NL.
  rewrite StoreFacts.stat_loc_fresh; auto.
  - now rewrite P.
  - destruct init; discriminate.
Qed.

(** [shutil.copy2] onto a path that does not exist. *)
Lemma copy2_new store src target r store' :
  ~ In ".." (parts target) ->
  exists_ store target = false ->
  copy2 src target store = (r, store') ->
  r = Ok tt ->
  store' = store ++ [(parts target, File)]
  /\ stat store' target = inr (parts target, File).
Proof.
  intros N X. unfold copy2.
  destruct (stat store src) as [e|[sl [|]]]; try (intros H; injection H as <- <-; discriminate).
  pose proof X as X'. unfold exists_ in X'.
  destruct (stat store target) as [e|x] eqn:ST; [|discriminate]. clear X'.
  destruct (split_last (parts target)) as [[init l]|] eqn:SL;
    [|intros H; injection H as <- <-; discriminate].
  destruct (walk_dirs store [] init) as [e'|d] eqn:W;
    [intros H; injection H as <- <-; discriminate|].
  intros H; injection H as <- <-. intros _.
  destruct (create_file store target N X init l d SL W) as [E S].
  rewrite E in *. auto.
Qed.

End CopyFacts.

(** X4 ([copy_to_repo]).  When [copy_to_repo] returns a path, the store
    has grown by directories and by exactly one file, at that path; the
    path did not exist before the copy, so nothing is overwritten; it lies
    in the directory of the resolved destination, and inside the working
    directory unless the destination resolves to the working directory
    itself. *)
Theorem copy_to_repo_creates_new_file :
  forall (cwd src dst : Filesystem.Path) (store store' : Filesystem.fs)
         (target : Filesystem.Path),
    Filesystem.is_absolute cwd = true ->
    Filesystem.copy_to_repo cwd src dst store = (Errors.Ok target, store') ->
    let resolved :=
      Filesystem.resolve cwd (Filesystem.absolute_against_cwd cwd dst) in
    exists dirs,
      Forall (fun e => snd e = Filesystem.Dir) dirs
      /\ store' = (store ++ dirs) ++ [(Filesystem.parts target, Filesystem.File)]
      /\ Filesystem.exists_ (store ++ dirs) target = false
      /\ Filesystem.stat store' target
         = inr (Filesystem.parts target, Filesystem.File)
      /\ Filesystem.parent target = Filesystem.parent resolved
      /\ (resolved <> Filesystem.resolve cwd cwd ->
          Filesystem._is_within target (Filesystem.resolve cwd cwd) = true).
Proof.
  intros cwd src dst store store' target A.
  unfold Filesystem.copy_to_repo, Eff.mbind, Eff.lift, Eff.ret.
  set (raw := Filesystem.absolute_against_cwd cwd dst).
  destruct (Filesystem.mkdir_parents (Filesystem.parent raw) store)
    as [[[]|e] store1] eqn:M; [|discriminate].
  destruct (StoreFacts.mkdir_parents_adds _ _ _ _ M) as [(dirs & -> & F) _].
  pose proof (PathFacts.ensure_safe_path_within cwd raw) as W.
  destruct (Filesystem.ensure_safe_path cwd raw None) as [safe|e];
    [|discriminate].
  destruct (W safe eq_refl) as [-> IN]. clear W.
  set (safe := Filesystem.resolve cwd raw) in *.
  assert (NS : ~ In ".." (Filesystem.parts safe)).
  { simpl. apply StoreFacts.normalize_no_dotdot. intros []. }
  destruct (Filesystem.unique_path safe (store ++ dirs)) as [r s2] eqn:U.
  destruct (OutputPathFacts.unique_path_keeps _ _ _ _ U)
    as (-> & free & -> & X & PF & AF & NF & SH).
  destruct (Filesystem.copy2 src free (store ++ dirs)) as [[[]|e] s3] eqn:C;
    [|discriminate].
  intros H; injection H as <- <-.
  destruct (CopyFacts.copy2_new _ _ _ _ _ (NF NS) X C eq_refl) as [-> ST].
  exists dirs. repeat split; auto.
  intros NE. unfold Filesystem._is_within in *.
  apply andb_true_iff in IN as [IA IP].
  rewrite AF, IA. simpl.
  apply StoreFacts.is_prefix_app in IP as [rest IP].
  apply StoreFacts.is_prefix_app.
  destruct SH as [->|[idx ->]]; [eauto|].
  destruct rest as [|x rest].
  { exfalso. apply NE. rewrite app_nil_r in IP.
    unfold safe in *. unfold Filesystem.resolve in *. simpl in IP.
    now rewrite IP. }
  change (Filesystem.parts (Filesystem.numbered safe idx))
    with (removelast (Filesystem.parts safe) ++
          [(Filesystem.stem safe ++ "_" ++ Py.str_of_nat idx
            ++ Filesystem.suffix safe)%string]).
  rewrite IP.
  exists (removelast (x :: rest) ++
          [(Filesystem.stem safe ++ "_" ++ Py.str_of_nat idx
            ++ Filesystem.suffix safe)%string]).
  rewrite app_assoc. f_equal.
  rewrite removelast_app by discriminate. reflexivity.
Qed.

(** Copying the generated file to [assets/hero.png], which is free. *)
Lemma copy_to_repo_creates_new_file_witness :
  Filesystem.is_absolute Spec.sample_cwd = true
  /\ Filesystem.copy_to_repo Spec.sample_cwd
       (Filesystem.Path_of_string "/work/hero.png")
       (Filesystem.Path_of_string "assets/hero.png") Spec.sample_store
     = (Errors.Ok (Filesystem.Path_of_string "/work/assets/hero.png"),
        (Spec.sample_store ++ [(["work"; "assets"], Filesystem.Dir)])
          ++ [(["work"; "assets"; "hero.png"], Filesystem.File)])
  /\ exists dirs,
       Filesystem.exists_ (Spec.sample_store ++ dirs)
         (Filesystem.Path_of_string "/work/assets/hero.png") = false.
Proof.
  split; [reflexivity|]. split; [reflexivity|].
  destruct (copy_to_repo_creates_new_file Spec.sample_cwd
              (Filesystem.Path_of_string "/work/hero.png")
              (Filesystem.Path_of_string "assets/hero.png")
              Spec.sample_store _ _ eq_refl eq_refl)
    as (dirs & _ & _ & X & _).
  exists dirs. exact X.
Defined.

(** X5 ([detect_type_and_ext]).  The media type is [unknown] exactly when
    no extension is returned; a returned extension is a key of
    [EXT_TO_MEDIA] and the media type is its entry; and an extension of
    the URL that the table knows wins over any content type. *)
Theorem detect_type_and_ext_consistent :
  forall (urlparse_path : string -> string) (url : string)
         (content_type : option string),
    let url_ext :=
      Py.lower (MediaType.name_suffix
                  (MediaType.path_name (urlparse_path url))) in
    match MediaType.detect_type_and_ext urlparse_path url content_type with
    | (media_type, Some ext) =>
        Json.lookup ext MediaType.EXT_TO_MEDIA = Some media_type
        /\ In media_type ["image"; "video"; "audio"]
    | (media_type, None) => media_type = "unknown"
    end
    /\ (forall media_type,
          Json.lookup url_ext MediaType.EXT_TO_MEDIA = Some media_type ->
          MediaType.detect_type_and_ext urlparse_path url content_type
          = (media_type, Some url_ext)).
Proof.
  intros urlparse_path url content_type url_ext.
  assert (T : forall ext m,
             Json.lookup ext MediaType.EXT_TO_MEDIA = Some m ->
             In m ["image"; "video"; "audio"]
             /\ String.eqb m "unknown" = false).
  { intros ext m L. apply MediaUrlFacts.lookup_In in L.
    unfold MediaType.EXT_TO_MEDIA in L. simpl in L.
    repeat (destruct L as [L|L]; [injection L as _ <-; simpl; auto 6|]).
    destruct L. }
  unfold MediaType.detect_type_and_ext. cbv zeta. fold url_ext.
  assert (ME : MediaType.media_of_ext url_ext
               = match Json.lookup url_ext MediaType.EXT_TO_MEDIA with
                 | Some m => m
                 | None => "unknown"
                 end) by reflexivity.
  destruct (Json.lookup url_ext MediaType.EXT_TO_MEDIA) as [m|] eqn:L;
    rewrite ME.
  - destruct (T _ _ L) as [I U]. rewrite U. simpl.
    split; [auto|]. intros m' E. injection E as <-. reflexivity.
  - change (negb ("unknown" =? "unknown")%string) with false. cbv iota.
    split; [|discriminate].
    destruct content_type as [ct|]; [|reflexivity].
    destruct (Py.nonempty ct); cbn [negb]; [|reflexivity].
    destruct (Json.lookup (Py.lower (Py.strip (MediaType.before_semicolon ct)))
                MediaType.CONTENT_TYPE_TO_EXT) as [e|] eqn:C;
      [|reflexivity].
    apply MediaUrlFacts.lookup_In in C.
    unfold MediaType.CONTENT_TYPE_TO_EXT in C. simpl in C.
    repeat (destruct C as [C|C];
            [injection C as _ <-; simpl; split; [reflexivity|auto 6]|]).
    destruct C.
Qed.

(** X6 ([FalClient._request]).  [_request] returns a payload only for a
    response with a success status, and then the empty object for an empty
    body and the decoded body otherwise.  Whatever else happens it raises
    a [GenvoyToolError]: NETWORK_ERROR for a transport failure,
    RATE_LIMITED for every 429, MODEL_NOT_FOUND for every 404, one of
    ADMIN_KEY_REQUIRED, QUEUE_START_TIMEOUT and FAL_API_ERROR for any
    other status outside 2xx, and INVALID_RESPONSE for a success body
    that does not decode. *)
Theorem request_outcomes :
  forall (json_loads : string -> option Json.json) (method url : string)
         (x : FalClient.exchange),
    match FalClient._request json_loads method url x with
    | Errors.Ok v =>
        exists r,
          x = FalClient.Answered r
          /\ FalClient.is_success (FalClient.status_code r) = true
          /\ (FalClient.content r = EmptyString -> v = Json.JObj [])
          /\ (FalClient.content r <> EmptyString ->
              json_loads (FalClient.content r) = Some v)
    | Errors.Raise e =>
        exists code msg,
          e = Errors.GenvoyToolError code msg
          /\ match x with
             | FalClient.Failed _ => code = "NETWORK_ERROR"
             | FalClient.Answered r =>
                 let status := FalClient.status_code r in
                 if Nat.eqb status 429 then code = "RATE_LIMITED"
                 else if Nat.eqb status 404 then code = "MODEL_NOT_FOUND"
                 else if FalClient.is_success status
                 then code = "INVALID_RESPONSE"
                      /\ FalClient.content r <> EmptyString
                      /\ json_loads (FalClient.content r) = None
                 else In code ["ADMIN_KEY_REQUIRED"; "QUEUE_START_TIMEOUT";
                               "FAL_API_ERROR"]
             end
    end.
Proof.
  intros json_loads method url [text|r]; simpl.
  { eexists _, _. split; reflexivity. }
  destruct (Nat.eqb (FalClient.status_code r) 429) eqn:E429.
  { eexists _, _. split; reflexivity. }
  destruct (Nat.eqb (FalClient.status_code r) 404) eqn:E404.
  { eexists _, _. split; reflexivity. }
  destruct (FalClient.is_success (FalClient.status_code r)) eqn:S.
  - assert (N403 : Nat.eqb (FalClient.status_code r) 403 = false).
    { apply Nat.eqb_neq. intros E. rewrite E in S. discriminate S. }
    assert (N504 : Nat.eqb (FalClient.status_code r) 504 = false).
    { apply Nat.eqb_neq. intros E. rewrite E in S. discriminate S. }
    rewrite N403, N504. simpl.
    destruct (FalClient.content r) as [|c body] eqn:C; simpl.
    + exists r. repeat split; auto. congruence.
    + destruct (json_loads (String c body)) as [v|] eqn:L.
      * exists r. rewrite C. repeat split; auto. discriminate.
      * eexists _, _. split; [reflexivity|]. repeat split; auto. discriminate.
  - destruct (Nat.eqb (FalClient.status_code r) 403
              && FalClient.contains "/models/usage" url).
    { eexists _, _. split; [reflexivity|]. simpl. auto. }
    destruct (Nat.eqb (FalClient.status_code r) 504 && _).
    { eexists _, _. split; [reflexivity|]. simpl. auto. }
    simpl. eexists _, _. split; [reflexivity|]. simpl. auto.
Qed.

Module StreamFacts.
Import Json Errors Eff FalClient.

Section Stream.
Variable json_loads : string -> option json.
Variable py_repr : json -> string.
Variable on_status : option callback.

Local Abbreviation status := (_status_value py_repr) (only parsing).
Local Abbreviation line_step :=
  (on_line json_loads py_repr on_status) (only parsing).
Local Abbreviation lines_loop :=
  (read_lines json_loads py_repr on_status) (only parsing).
Local Abbreviation stream_status :=
  (stream_job_status json_loads py_repr on_status) (only parsing).

(** The last payload the loop has kept is not terminal. *)
Local Abbreviation pending l :=
  (match last_payload l with
   | Some payload => is_terminal (status payload) = false
   | None => True
   end) (only parsing).

Lemma line_step_pending l line w l' w' :
  line_step l line w = (Ok (Continue l'), w') -> pending l -> pending l'.
Proof.
  unfold on_line, ret.
  destruct (Py.startswith line "data:").
  { intros H; inversion H; subst; auto. }
  destruct (Py.nonempty (Py.strip line)).
  { intros H; inversion H; subst; auto. }
  destruct (data_lines l) as [|d ds].
  { intros H; inversion H; subst; auto. }
  destruct (negb _).
  { intros H; inversion H; subst; auto. }
  destruct (json_loads _) as [v|].
  2:{ intros H; inversion H; subst; auto. }
  destruct v; try (intros H; inversion H; subst; auto; fail).
  unfold mbind.
  destruct (notify on_status (JObj fields) w) as [[[]|e] w1]; [|discriminate].
  destruct (is_terminal (status fields)) eqn:T;
    intros H; inversion H; subst; auto.
Qed.

Lemma lines_loop_pending lines : forall l w l' w',
  lines_loop l lines w = (Ok (Continue l'), w') -> pending l -> pending l'.
Proof.
  induction lines as [|line rest IH]; intros l w l' w'; simpl.
  - intros H; inversion H; subst; auto.
  - unfold mbind.
    destruct (line_step l line w) as [[[l1|p]|e] w1] eqn:S; try discriminate.
    intros H P. exact (IH _ _ _ _ H (line_step_pending _ _ _ _ _ S P)).
Qed.

(** Reading goes on over the lines that follow only while no line has
    made the loop return or raise. *)
Lemma lines_loop_app pre post : forall l w,
  lines_loop l (pre ++ post) w =
  match lines_loop l pre w with
  | (Ok (Continue l'), w') => lines_loop l' post w'
  | other => other
  end.
Proof.
  induction pre as [|line pre IH]; intros l w; simpl; auto.
  unfold mbind. destruct (line_step l line w) as [[[l1|p]|e] w1]; auto.
Qed.

Lemma success_is_available code :
  is_success code = true ->
  Nat.eqb code 404 || Nat.eqb code 405 || Nat.eqb code 501 = false.
Proof.
  unfold is_success. intros S.
  destruct (Nat.eqb_spec code 404) as [->|]; [discriminate S|].
  destruct (Nat.eqb_spec code 405) as [->|]; [discriminate S|].
  destruct (Nat.eqb_spec code 501) as [->|]; [discriminate S|].
  reflexivity.
Qed.

Lemma stream_returns_from_loop attempt w payload w' :
  stream_status attempt w = (Ok payload, w') ->
  exists code lines ending,
    attempt = Stream code lines ending
    /\ is_success code = true
    /\ lines_loop (Locals [] None) lines w = (Ok (Return payload), w').
Proof.
  unfold stream_job_status, mbind, catch.
  destruct attempt as [text|code lines ending]; simpl; [discriminate|].
  destruct (Nat.eqb code 404 || Nat.eqb code 405 || Nat.eqb code 501);
    [discriminate|].
  destruct (is_success code) eqn:S; simpl; [|discriminate].
  unfold mbind.
  destruct (lines_loop (Locals [] None) lines w) as [[[l1|p]|e] w1] eqn:L.
  - pose proof (lines_loop_pending _ _ _ _ _ L I) as P. simpl in P.
    destruct ending as [|text]; simpl; [|discriminate].
    destruct (last_payload l1) as [[|kv last]|]; simpl; try discriminate.
    rewrite P. discriminate.
  - simpl. intros H; injection H as <- <-. eauto 6.
  - simpl. destruct e; discriminate.
Qed.

Lemma stream_returns_at_terminal code pre post ending w payload w' :
  is_success code = true ->
  lines_loop (Locals [] None) pre w = (Ok (Return payload), w') ->
  stream_status (Stream code (pre ++ post) ending) w = (Ok payload, w').
Proof.
  intros S L. unfold stream_job_status, mbind, catch. simpl.
  rewrite (success_is_available _ S), S. simpl. unfold mbind.
  rewrite lines_loop_app, L. reflexivity.
Qed.

End Stream.

Section Polling.
Variable json_loads : string -> option json.
Variable py_repr : json -> string.
Variable on_status : option callback.
Variable status_exchange : nat -> exchange.
Variables model_id request_id : string.
Variables timeout_seconds poll_interval_seconds : Q.

Local Abbreviation once :=
  (poll_once json_loads py_repr on_status status_exchange model_id request_id)
  (only parsing).
Local Abbreviation loop :=
  (poll_loop json_loads py_repr on_status status_exchange model_id
     request_id timeout_seconds poll_interval_seconds)
  (only parsing).

(** One turn of the loop sends one status request. *)
Lemma once_polls w r w' : once w = (r, w') -> polls w' = S (polls w).
Proof.
  unfold poll_once, mbind, poll_status.
  destruct (get_job_status json_loads model_id request_id _) as [v|e];
    [|intros H; injection H as <- <-; reflexivity].
  destruct (notify on_status v _) as [[[]|e] w1] eqn:N;
    pose proof (WaitFacts.notify_polls _ _ _ _ _ N) as P; simpl in P.
  - destruct v; try (intros H; injection H as <- <-; exact P).
    destruct (String.eqb _ "COMPLETED");
      [intros H; injection H as <- <-; exact P|].
    destruct (String.eqb _ "FAILED"); intros H; injection H as <- <-; exact P.
  - intros H; injection H as <- <-; exact P.
Qed.

Lemma loop_bounded n : forall fuel elapsed w,
  (timeout_seconds - elapsed
     <= inject_Z (Z.of_nat n) * poll_interval_seconds)%Q ->
  n <= fuel ->
  exists r w', loop fuel elapsed w = Some (r, w') /\ polls w' <= polls w + n.
Proof.
  induction n as [|n IH]; intros fuel elapsed w B F.
  - change (inject_Z (Z.of_nat 0)) with 0%Q in B.
    destruct fuel; simpl; destruct (Qlt_le_dec elapsed timeout_seconds);
      try (exfalso; lra); eexists _, _; (split; [reflexivity|lia]).
  - destruct fuel as [|fuel]; [lia|]. simpl.
    destruct (Qlt_le_dec elapsed timeout_seconds) as [L|L].
    2:{ eexists _, _. split; [reflexivity|lia]. }
    destruct (once w) as [[[p|]|e] w1] eqn:O;
      pose proof (once_polls _ _ _ O) as P.
    + eexists _, _. split; [reflexivity|lia].
    + destruct (IH fuel (elapsed + poll_interval_seconds)%Q w1)
        as (r & w' & E & Q); [|lia|].
      * assert (E : (inject_Z (Z.of_nat (S n)) * poll_interval_seconds ==
                     inject_Z (Z.of_nat n) * poll_interval_seconds
                     + poll_interval_seconds)%Q).
        { rewrite Nat2Z.inj_succ. unfold Z.succ. rewrite inject_Z_plus. ring. }
        rewrite E in B. lra.
      * exists r, w'. split; [exact E|lia].
    + eexists _, _. split; [reflexivity|lia].
Qed.

End Polling.
End StreamFacts.

(** X7 ([FalClient.stream_job_status]).  A terminal frame ends the
    stream: once the lines read so far make the line loop return a
    payload, [stream_job_status] returns that payload whatever lines
    follow and however the stream ends; and a payload it returns always
    comes from the loop, so the check of the last payload after the loop
    never returns one. *)
Theorem stream_returns_at_first_terminal_frame :
  forall (json_loads : string -> option Json.json)
         (py_repr : Json.json -> string)
         (on_status : option FalClient.callback)
         (w w' : FalClient.world) (payload : Json.dict),
    (forall code pre post ending,
        FalClient.is_success code = true ->
        FalClient.read_lines json_loads py_repr on_status
          (FalClient.Locals [] None) pre w
          = (Errors.Ok (FalClient.Return payload), w') ->
        FalClient.stream_job_status json_loads py_repr on_status
          (FalClient.Stream code (pre ++ post) ending) w
          = (Errors.Ok payload, w'))
    /\ (forall attempt,
          FalClient.stream_job_status json_loads py_repr on_status attempt w
            = (Errors.Ok payload, w') ->
          exists code lines ending,
            attempt = FalClient.Stream code lines ending
            /\ FalClient.is_success code = true
            /\ FalClient.read_lines json_loads py_repr on_status
                 (FalClient.Locals [] None) lines w
               = (Errors.Ok (FalClient.Return payload), w')).
Proof.
  intros json_loads py_repr on_status w w' payload. split.
  - intros code pre post ending S L.
    now apply StreamFacts.stream_returns_at_terminal.
  - intros attempt H. now apply StreamFacts.stream_returns_from_loop.
Qed.



Module TextFacts.
Import Json Errors.

Lemma append_assoc (a b c : string) :
  ((a ++ b) ++ c)%string = (a ++ (b ++ c))%string.
Proof. induction a; simpl; congruence. Qed.

Lemma rev_onto_app (s acc : string) :
  Py.rev_onto s acc = (Py.srev s ++ acc)%string.
Proof.
  unfold Py.srev. revert acc.
  induction s as [|c s IH]; intros acc; simpl; auto.
  rewrite IH, (IH (String c EmptyString)).
  now rewrite append_assoc.
Qed.

Lemma srev_cons c s :
  Py.srev (String c s) = (Py.srev s ++ String c EmptyString)%string.
Proof. unfold Py.srev at 1. simpl. apply rev_onto_app. Qed.

Lemma append_empty_r (s : string) : (s ++ EmptyString)%string = s.
Proof. induction s; simpl; congruence. Qed.

Lemma srev_app (a b : string) :
  Py.srev (a ++ b) = (Py.srev b ++ Py.srev a)%string.
Proof.
  induction a as [|c a IH]; simpl.
  - now rewrite append_empty_r.
  - rewrite !srev_cons, IH. now rewrite append_assoc.
Qed.

Lemma srev_involutive (s : string) : Py.srev (Py.srev s) = s.
Proof.
  induction s as [|c s IH]; auto.
  rewrite srev_cons, srev_app, IH. reflexivity.
Qed.

Lemma all_chars_app f (a b : string) :
  Server.all_chars f (a ++ b)
  = Server.all_chars f a && Server.all_chars f b.
Proof.
  induction a as [|c a IH]; simpl; auto. rewrite IH.
  now rewrite andb_assoc.
Qed.

Lemma all_chars_srev f (s : string) :
  Server.all_chars f (Py.srev s) = Server.all_chars f s.
Proof.
  induction s as [|c s IH]; auto.
  rewrite srev_cons, all_chars_app, IH. simpl.
  rewrite andb_true_r. apply andb_comm.
Qed.

Lemma all_chars_smap f g h (s : string) :
  (forall c, f c = true -> g (h c) = true) ->
  Server.all_chars f s = true -> Server.all_chars g (Py.smap h s) = true.
Proof.
  intros H. induction s as [|c s IH]; simpl; auto.
  intros A. apply andb_true_iff in A as [A B].
  now rewrite (H _ A), IH.
Qed.

End TextFacts.

Module SlugFacts.
Import Json Errors Server TextFacts.

Lemma sub_runs_chars m : forall b,
  all_chars is_id_char (sub_runs b m) = true.
Proof.
  induction m as [|c m IH]; intros b; simpl; auto.
  destruct (is_id_char c) eqn:E; simpl.
  - now rewrite E, IH.
  - destruct b; simpl; auto.
Qed.

Lemma lstrip_dash_chars f s :
  all_chars f s = true -> all_chars f (lstrip_dash s) = true.
Proof.
  induction s as [|c s IH]; simpl; auto.
  intros A. apply andb_true_iff in A as [A B].
  destruct c as [[] [] [] [] [] [] [] []]; simpl; try (now rewrite A, B).
  auto.
Qed.

Lemma strip_dash_chars f s :
  all_chars f s = true -> all_chars f (strip_dash s) = true.
Proof.
  intros A. unfold strip_dash.
  rewrite all_chars_srev. apply lstrip_dash_chars.
  rewrite all_chars_srev. now apply lstrip_dash_chars.
Qed.

Lemma lower_id_char c :
  is_id_char c = true -> Notions.is_slug_char (Py.to_lower c) = true.
Proof.
  destruct c as [[] [] [] [] [] [] [] []]; vm_compute; auto.
Qed.

Lemma lstrip_dash_head s : Py.startswith (lstrip_dash s) "-" = false.
Proof.
  induction s as [|c s IH]; auto.
  destruct c as [[] [] [] [] [] [] [] []]; auto.
Qed.

Lemma startswith_one (c p : ascii) (x : string) :
  Py.startswith (String c x) (String p EmptyString)
  = if ascii_dec p c then true else false.
Proof.
  unfold Py.startswith.
  destruct x; cbn [String.prefix]; destruct (ascii_dec p c); reflexivity.
Qed.

Lemma startswith_dash_app (a b : string) :
  a <> EmptyString ->
  Py.startswith (a ++ b) "-" = Py.startswith a "-".
Proof.
  destruct a as [|c a]; [congruence|]. intros _.
  change (String c a ++ b)%string with (String c (a ++ b)).
  now rewrite !startswith_one.
Qed.

(** Stripping dashes on the left keeps a string that ends in no dash
    ending in no dash. *)
Lemma lstrip_dash_end s :
  Notions.endswith s "-" = false ->
  Notions.endswith (lstrip_dash s) "-" = false.
Proof.
  unfold Notions.endswith.
  induction s as [|c s IH]; auto.
  intros E.
  assert (K : Py.startswith (Py.srev s) "-" = false \/ s = EmptyString).
  { destruct s as [|c' s']; [now right|left].
    rewrite srev_cons in E. rewrite startswith_dash_app in E; auto.
    rewrite srev_cons. destruct (Py.srev s'); discriminate. }
  destruct c as [[] [] [] [] [] [] [] []]; try exact E.
  simpl. destruct K as [K| ->]; [now apply IH|reflexivity].
Qed.

Lemma strip_dash_ends s :
  Py.startswith (strip_dash s) "-" = false
  /\ Notions.endswith (strip_dash s) "-" = false.
Proof.
  unfold strip_dash, Notions.endswith. rewrite srev_involutive.
  split; [|apply lstrip_dash_head].
  apply (lstrip_dash_end (Py.srev (lstrip_dash s))).
  unfold Notions.endswith. rewrite srev_involutive. apply lstrip_dash_head.
Qed.

Lemma lower_dash_head s :
  Py.startswith (Py.lower s) "-" = Py.startswith s "-".
Proof.
  destruct s as [|c s]; auto.
  destruct c as [[] [] [] [] [] [] [] []]; simpl; destruct s; reflexivity.
Qed.

Lemma srev_smap f s : Py.srev (Py.smap f s) = Py.smap f (Py.srev s).
Proof.
  induction s as [|c s IH]; auto. simpl. rewrite !srev_cons, IH.
  clear IH. induction (Py.srev s) as [|d r IH]; simpl; congruence.
Qed.

Lemma split_slash_head s : forall cur,
  exists t rest,
    MediaType.split_slash s cur = (Py.srev cur ++ t)%string :: rest
    /\ (t = EmptyString
        \/ exists c t' r, t = String c t' /\ s = String c r).
Proof.
  induction s as [|c r IH]; intros cur; simpl.
  - exists EmptyString, []. rewrite append_empty_r. auto.
  - destruct (Ascii.eqb c "/").
    + exists EmptyString. eexists. rewrite append_empty_r. auto.
    + destruct (IH (String c cur)) as (t & rest & E & _).
      exists (String c t), rest. rewrite E, srev_cons, append_assoc.
      split; [reflexivity|]. right. eauto.
Qed.

Lemma drop_final_newline_head m c r :
  drop_final_newline m = String c r -> exists r', m = String c r'.
Proof.
  unfold drop_final_newline.
  destruct (Py.srev m) as [|d x] eqn:R; [eauto|].
  destruct (Nat.eqb (Py.code d) 10); [|eauto].
  intros E. apply (f_equal Py.srev) in R.
  rewrite srev_involutive, srev_cons, E in R. rewrite R. simpl. eauto.
Qed.

Lemma valid_id_head m :
  matches_model_id m = true ->
  exists c r, m = String c r /\ Py.is_alnum c = true.
Proof.
  unfold matches_model_id. intros V. apply andb_true_iff in V as [_ V].
  destruct (split_slash_head (drop_final_newline m) EmptyString)
    as (t & rest & E & H).
  rewrite E in V. simpl in V. apply andb_true_iff in V as [V _].
  destruct H as [->|(c & t' & r & -> & D)]; [discriminate V|].
  simpl in V. apply andb_true_iff in V as [A _].
  destruct (drop_final_newline_head _ _ _ D) as [r' ->]. eauto.
Qed.

Lemma lstrip_dash_snoc (c : ascii) : forall y : string,
  c <> "-"%char ->
  lstrip_dash (y ++ String c EmptyString)
  = (lstrip_dash y ++ String c EmptyString)%string.
Proof.
  intros y N. induction y as [|d y IH]; simpl.
  - destruct c as [[] [] [] [] [] [] [] []]; try reflexivity. congruence.
  - destruct d as [[] [] [] [] [] [] [] []]; try reflexivity. exact IH.
Qed.

Lemma alnum_lowered c :
  Py.is_alnum c = true ->
  is_id_char c = true /\ c <> "-"%char
  /\ Py.is_lower (Py.to_lower c) || Py.is_digit (Py.to_lower c) = true.
Proof.
  destruct c as [[] [] [] [] [] [] [] []]; vm_compute;
    intros H; try discriminate H; repeat split; discriminate.
Qed.

End SlugFacts.

(** X9 ([_slugify_model_id]).  A slug consists of lower-case letters,
    digits, dots, underscores and dashes only, so it has no path
    separator, and it neither starts nor ends with a dash. *)
Theorem slug_characters :
  forall model_id : string,
    let slug := Server._slugify_model_id model_id in
    Server.all_chars Notions.is_slug_char slug = true
    /\ Py.startswith slug "-" = false
    /\ Notions.endswith slug "-" = false.
Proof.
  intros model_id slug. unfold slug, Server._slugify_model_id.
  destruct (SlugFacts.strip_dash_ends (Server.sub_runs false model_id))
    as [H T].
  split; [|split].
  - apply (TextFacts.all_chars_smap Server.is_id_char).
    + apply SlugFacts.lower_id_char.
    + apply SlugFacts.strip_dash_chars, SlugFacts.sub_runs_chars.
  - now rewrite SlugFacts.lower_dash_head.
  - unfold Notions.endswith, Py.lower. rewrite SlugFacts.srev_smap.
    fold (Py.lower (Py.srev (Server.strip_dash
                               (Server.sub_runs false model_id)))).
    now rewrite SlugFacts.lower_dash_head.
Qed.

(** X10 ([_slugify_model_id], [MODEL_ID_PATTERN]).  The slug of a model
    id that passes validation starts with a lower-case letter or a digit:
    it is a non-empty name other than [.] and [..], so a path made by
    joining it to a directory names an entry of that directory. *)
Theorem valid_model_id_slug_starts_alphanumeric :
  forall model_id : string,
    Server.matches_model_id model_id = true ->
    exists c rest,
      Server._slugify_model_id model_id = String c rest
      /\ Py.is_lower c || Py.is_digit c = true.
Proof.
  intros m V.
  destruct (SlugFacts.valid_id_head m V) as (c & r & -> & A).
  destruct (SlugFacts.alnum_lowered c A) as (I & N & L).
  exists (Py.to_lower c). unfold Server._slugify_model_id, Server.strip_dash.
  simpl Server.sub_runs. rewrite I.
  assert (E : Server.lstrip_dash (String c (Server.sub_runs false r))
              = String c (Server.sub_runs false r)).
  { simpl. destruct c as [[] [] [] [] [] [] [] []]; try reflexivity.
    congruence. }
  rewrite E, TextFacts.srev_cons, SlugFacts.lstrip_dash_snoc by exact N.
  rewrite TextFacts.srev_app. simpl.
  eexists. split; [reflexivity|exact L].
Qed.

Lemma valid_model_id_slug_starts_alphanumeric_witness :
  Server.matches_model_id "fal-ai/flux/dev" = true
  /\ exists c rest,
       Server._slugify_model_id "fal-ai/flux/dev" = String c rest
       /\ Py.is_lower c || Py.is_digit c = true.
Proof.
  split; [reflexivity|].
  exact (valid_model_id_slug_starts_alphanumeric "fal-ai/flux/dev" eq_refl).
Defined.

Module BatchFacts.
Import Json Errors Eff Filesystem Server.

Lemma child_parent base n :
  parent (child base n) = MkPath (is_absolute base) (parts base).
Proof.
  unfold child, joinpath, parent. simpl. now rewrite removelast_last.
Qed.

Lemma child_inj base n n' : child base n = child base n' -> n = n'.
Proof.
  unfold child, joinpath. simpl. intros H. injection H as H.
  apply app_inv_head in H. now injection H.
Qed.

Lemma collect_batch_total str_exn results : forall idx,
  List.length (files (collect_batch str_exn idx results))
  + List.length (failed (collect_batch str_exn idx results))
  = List.length results.
Proof.
  induction results as [|[r|e] rest IH]; intros idx; simpl; auto;
    specialize (IH (S idx)); lia.
Qed.

Lemma collect_compare_total str_exn pairs :
  List.length (files (collect_compare str_exn pairs))
  + List.length (failed (collect_compare str_exn pairs))
  = List.length pairs.
Proof.
  induction pairs as [|[m [r|e]] rest IH]; simpl; auto; lia.
Qed.

End BatchFacts.

(** X11 ([generate_batch]).  The tasks of a batch are as many as the
    count asks for, each writes below the output directory, and no two
    of them have the same output path. *)
Theorem batch_tasks_have_distinct_outputs :
  forall data : Server.BatchInput,
    let outputs := map Server.arg_output_path (Server.batch_tasks data) in
    let base := Filesystem.Path_of_string (Server.batch_output_dir data) in
    List.length outputs = Z.to_nat (Server.batch_count data)
    /\ NoDup outputs
    /\ Forall (fun p => Filesystem.parent p = base) outputs.
Proof.
  intros data outputs base. unfold outputs, Server.batch_tasks.
  rewrite map_map. cbn [Server.arg_output_path]. fold base.
  split; [now rewrite length_map, length_seq|]. split.
  - apply Injective_map_NoDup; [|apply seq_NoDup].
    intros i j H. apply BatchFacts.child_inj in H.
    apply UniquePathFacts.append_inv_head in H.
    apply (UniquePathFacts.append_inv_head "_") in H.
    apply UniquePathFacts.str_of_nat_inj in H. lia.
  - apply Forall_forall. intros p I. apply in_map_iff in I as (i & <- & _).
    rewrite BatchFacts.child_parent. reflexivity.
Qed.

(** X12 ([generate_batch], [generate_compare]).  A fan-out fails as a
    whole only before any job is started, at validation or at the
    creation of the output directory, and validation errors leave the
    store untouched; once the jobs are started it returns a result in
    which every job appears exactly once, as a file or as a failure. *)
Theorem fanout_accounts_for_every_job :
  forall (cwd : Filesystem.Path)
         (_generate_once : Server.GenerateArgs ->
                           Eff.M Filesystem.fs Server.GenerateResult)
         (str_exn : Errors.exn -> string) (store : Filesystem.fs),
    (forall data,
        match Server.generate_batch cwd _generate_once str_exn data store with
        | (Errors.Ok res, _) =>
            Server.validate_batch data store = (Errors.Ok tt, store)
            /\ List.length (Server.files res) + List.length (Server.failed res)
               = Z.to_nat (Server.batch_count data)
        | (Errors.Raise e, store') =>
            Server.validate_batch data store = (Errors.Raise e, store')
            \/ Filesystem.mkdir_parents
                 (Filesystem.absolute_against_cwd cwd
                    (Filesystem.Path_of_string (Server.batch_output_dir data)))
                 store = (Errors.Raise e, store')
        end)
    /\ (forall data,
        match Server.generate_compare cwd _generate_once str_exn data store with
        | (Errors.Ok res, _) =>
            Server.validate_compare data store = (Errors.Ok tt, store)
            /\ List.length (Server.files res) + List.length (Server.failed res)
               = List.length (Server.compare_model_ids data)
        | (Errors.Raise e, store') =>
            Server.validate_compare data store = (Errors.Raise e, store')
            \/ Filesystem.mkdir_parents
                 (Filesystem.absolute_against_cwd cwd
                    (Filesystem.Path_of_string
                       (Server.compare_output_dir data)))
                 store = (Errors.Raise e, store')
        end).
Proof.
  intros cwd run str_exn store. split; intros data.
  - unfold Server.generate_batch, Eff.mbind.
    assert (V : forall r s, Server.validate_batch data store = (r, s) ->
                            s = store).
    { unfold Server.validate_batch, Server.check_model_id, Server.check_prompt,
        Eff.mbind, Eff.ret, Eff.raise.
      intros r s. destruct (Server.matches_model_id _);
        [|intros H; now injection H].
      destruct (Nat.leb _ _); [|intros H; now injection H].
      destruct (_ && _)%bool; intros H; now injection H. }
    destruct (Server.validate_batch data store) as [[[]|e] s1] eqn:E;
      pose proof (V _ _ eq_refl) as ->; [|auto].
    destruct (Filesystem.mkdir_parents _ store) as [[[]|e] s2] eqn:M; [|auto].
    destruct (Server.gather run (Server.batch_tasks data) s2)
      as [results s3] eqn:G.
    split; [reflexivity|].
    rewrite BatchFacts.collect_batch_total.
    pose proof (FanoutFacts.gather_length run (Server.batch_tasks data) s2)
      as L.
    rewrite G in L. simpl in L. rewrite L.
    unfold Server.batch_tasks. now rewrite length_map, length_seq.
  - unfold Server.generate_compare, Eff.mbind.
    assert (C : forall ms r s,
               Server.check_model_ids ms store = (r, s) -> s = store).
    { induction ms as [|m ms IH]; intros r s; simpl.
      - intros H; now injection H.
      - unfold Eff.mbind, Server.check_model_id.
        destruct (Server.matches_model_id m); simpl.
        + apply IH.
        + intros H; now injection H. }
    assert (V : forall r s, Server.validate_compare data store = (r, s) ->
                            s = store).
    { unfold Server.validate_compare, Server.check_prompt,
        Eff.mbind, Eff.ret, Eff.raise.
      intros r s. destruct (_ && _)%bool.
      - destruct (Server.check_model_ids _ store) as [[[]|e] s1] eqn:K;
          pose proof (C _ _ _ K) as ->.
        + destruct (Nat.leb _ _); intros H; now injection H.
        + intros H; now injection H.
      - intros H; now injection H. }
    destruct (Server.validate_compare data store) as [[[]|e] s1] eqn:E;
      pose proof (V _ _ eq_refl) as ->; [|auto].
    destruct (Filesystem.mkdir_parents _ store) as [[[]|e] s2] eqn:M; [|auto].
    destruct (Server.gather run (Server.compare_tasks data) s2)
      as [results s3] eqn:G.
    split; [reflexivity|].
    rewrite BatchFacts.collect_compare_total.
    pose proof (FanoutFacts.gather_length run (Server.compare_tasks data) s2)
      as L.
    rewrite G in L. simpl in L.
    rewrite length_combine, L.
    unfold Server.compare_tasks. rewrite length_map. lia.
Qed.

Module DecimalFacts.
Import Json Errors Extraction.

Lemma take_digits_head c r :
  Py.is_digit c = true -> fst (take_digits (String c r)) <> EmptyString.
Proof.
  intros D. simpl. rewrite D. destruct (take_digits r). discriminate.
Qed.

Lemma digit_matches_here c r :
  Py.is_digit c = true -> match_decimal_here (String c r) <> None.
Proof.
  intros D.
  assert (N : c <> "-"%char).
  { intros ->. discriminate D. }
  assert (M : match_digits_here false (String c r) <> None).
  { unfold match_digits_here. pose proof (take_digits_head c r D) as T.
    destruct (take_digits (String c r)) as [ds rest]. simpl in T.
    destruct ds as [|d ds]; [congruence|]. simpl.
    destruct rest as [|x rest]; [discriminate|].
    destruct x as [[] [] [] [] [] [] [] []]; try discriminate.
    destruct (take_digits rest). discriminate. }
  unfold match_decimal_here.
  destruct c as [[] [] [] [] [] [] [] []]; try exact M. congruence.
Qed.

Lemma no_digit_no_match_here s :
  match s with
  | String c _ => Py.is_digit c = false
  | EmptyString => True
  end ->
  match_digits_here false s = None /\ match_digits_here true s = None.
Proof.
  destruct s as [|c r]; intros H; unfold match_digits_here; simpl.
  - auto.
  - rewrite H. auto.
Qed.

Lemma search_decimal_none s :
  search_decimal s = None
  <-> Server.all_chars (fun c => negb (Py.is_digit c)) s = true.
Proof.
  induction s as [|c r IH].
  - simpl. split; auto.
  - cbn [search_decimal Server.all_chars].
    destruct (Py.is_digit c) eqn:D; cbn [negb andb].
    + split; [|discriminate].
      pose proof (digit_matches_here c r D) as M.
      destruct (match_decimal_here (String c r)); [discriminate|congruence].
    + rewrite <- IH.
      assert (M : match_decimal_here (String c r) = None
                  \/ (c = "-"%char /\
                      match_decimal_here (String c r)
                      = match_digits_here true r)).
      { unfold match_decimal_here.
        destruct c as [[] [] [] [] [] [] [] []];
          try (left; apply no_digit_no_match_here; exact D).
        right. split; [reflexivity|].
        destruct (match_digits_here true r); reflexivity. }
      destruct M as [->|[-> M]]; [tauto|]. rewrite M.
      destruct r as [|d r'].
      * simpl. tauto.
      * destruct (Py.is_digit d) eqn:E.
        -- split.
           ++ intros H. exfalso.
              unfold match_digits_here in H.
              pose proof (take_digits_head d r' E) as T.
              destruct (take_digits (String d r')) as [ds rest].
              simpl in T. destruct ds; [congruence|]. simpl in H.
              destruct rest as [|x rest]; [discriminate|].
              destruct x as [[] [] [] [] [] [] [] []]; try discriminate.
              destruct (take_digits rest). discriminate.
           ++ intros H. exfalso.
              pose proof (digit_matches_here d r' E) as K.
              cbn [search_decimal] in H.
              destruct (match_decimal_here (String d r'));
                [discriminate|congruence].
        -- destruct (no_digit_no_match_here (String d r') E) as [_ ->].
           tauto.
Qed.

End DecimalFacts.


Module StripFacts.
Import TextFacts.

(** A string with no white space at either end. *)
Local Abbreviation starts_clean s :=
  (match s with
   | String c _ => Py.is_space c = false
   | EmptyString => True
   end) (only parsing).

Lemma lstrip_head (s : string) : starts_clean (Py.lstrip s).
Proof.
  induction s as [|c s IH]; simpl; auto.
  destruct (Py.is_space c) eqn:E; auto.
Qed.

Lemma lstrip_fixed (s : string) : starts_clean s -> Py.lstrip s = s.
Proof. destruct s as [|c s]; simpl; auto. now intros ->. Qed.

Lemma lstrip_idempotent (s : string) : Py.lstrip (Py.lstrip s) = Py.lstrip s.
Proof. apply lstrip_fixed, lstrip_head. Qed.

Lemma lstrip_app (y z : string) :
  z <> EmptyString -> starts_clean z ->
  Py.lstrip (y ++ z) = (Py.lstrip y ++ z)%string.
Proof.
  intros N C. induction y as [|d y IH]; simpl.
  - now apply lstrip_fixed.
  - destruct (Py.is_space d); auto.
Qed.

Lemma srev_empty (s : string) : Py.srev s = EmptyString -> s = EmptyString.
Proof.
  intros H. apply (f_equal Py.srev) in H. now rewrite srev_involutive in H.
Qed.

Lemma strip_clean (s : string) :
  starts_clean (Py.strip s) /\ starts_clean (Py.srev (Py.strip s)).
Proof.
  unfold Py.strip, Py.rstrip. rewrite srev_involutive.
  split; [|apply lstrip_head].
  pose proof (lstrip_head s) as H.
  destruct (Py.lstrip s) as [|x t]; [exact I|].
  rewrite srev_cons, lstrip_app by (auto; discriminate).
  rewrite srev_app. simpl. exact H.
Qed.

Lemma clean_strip (k : string) :
  starts_clean k -> starts_clean (Py.srev k) -> Py.strip k = k.
Proof.
  intros A B. unfold Py.strip, Py.rstrip.
  rewrite (lstrip_fixed _ A), (lstrip_fixed _ B). apply srev_involutive.
Qed.

Lemma strip_idempotent (s : string) : Py.strip (Py.strip s) = Py.strip s.
Proof. destruct (strip_clean s). now apply clean_strip. Qed.

Lemma strip_prefixed (k : string) :
  k <> EmptyString -> Py.strip k = k ->
  Py.strip ("Key " ++ k) = ("Key " ++ k)%string.
Proof.
  intros N E. apply clean_strip; [reflexivity|].
  pose proof (strip_clean k) as [_ B]. rewrite E in B.
  rewrite srev_app.
  destruct (Py.srev k) as [|c r] eqn:R.
  - apply srev_empty in R. congruence.
  - exact B.
Qed.

Lemma prefix_empty (s : string) : String.prefix EmptyString s = true.
Proof. destruct s; reflexivity. Qed.

Lemma lower_prefixed (k : string) :
  Py.startswith (Py.lower ("Key " ++ k)) "key " = true.
Proof.
  unfold Py.startswith. simpl.
  repeat (destruct (ascii_dec _ _) as [_|N]; [|exfalso; apply N; reflexivity]).
  apply prefix_empty.
Qed.

End StripFacts.

Module ConfigFacts.
Import Errors.

Lemma get_settings_of_stripped (environ : option string) (require_key : bool) :
  Config.get_settings environ require_key
  = Config.get_settings
      (Some (Py.strip (match environ with
                       | Some v => v
                       | None => EmptyString
                       end))) require_key.
Proof.
  unfold Config.get_settings. now rewrite StripFacts.strip_idempotent.
Qed.

Lemma get_settings_clean (raw : string) (require_key : bool) :
  Py.strip raw = raw ->
  match Config.get_settings (Some raw) require_key with
  | Ok settings =>
      (Config.fal_key settings = EmptyString
       \/ Py.startswith (Py.lower (Config.fal_key settings)) "key " = true)
      /\ (Config.fal_key settings = raw
          \/ Config.fal_key settings = ("Key " ++ raw)%string)
      /\ (require_key = true -> Config.fal_key settings <> EmptyString)
      /\ Config.get_settings (Some (Config.fal_key settings)) require_key
         = Ok settings
  | Raise e =>
      e = OtherError "RuntimeError"
      /\ require_key = true /\ raw = EmptyString
  end.
Proof.
  intros S. unfold Config.get_settings. rewrite S.
  destruct raw as [|c r] eqn:R.
  - simpl. destruct require_key; simpl; [auto|].
    repeat split; auto. discriminate.
  - rewrite <- R in *. assert (N : raw <> EmptyString) by congruence.
    assert (NE : Py.nonempty raw = true) by now rewrite R.
    rewrite NE. cbn [andb].
    destruct (Py.startswith (Py.lower raw) "key ") eqn:P; cbn [negb].
    + rewrite NE, andb_false_r. cbn [Config.fal_key].
      rewrite S, NE, P. cbn [andb negb]. rewrite NE, andb_false_r.
      repeat split; auto.
    + assert (NK : Py.nonempty ("Key " ++ raw) = true) by reflexivity.
      rewrite NK, andb_false_r. cbn [Config.fal_key].
      rewrite (StripFacts.strip_prefixed _ N S), NK.
      rewrite StripFacts.lower_prefixed. cbn [andb negb].
      rewrite NK, andb_false_r.
      repeat split; auto. discriminate.
Qed.

Lemma get_settings_cases (environ : option string) (require_key : bool) :
  let raw :=
    Py.strip (match environ with Some v => v | None => EmptyString end) in
  match Config.get_settings environ require_key with
  | Ok settings =>
      let key := Config.fal_key settings in
      (key = EmptyString \/ Py.startswith (Py.lower key) "key " = true)
      /\ (key = raw \/ key = ("Key " ++ raw)%string)
      /\ (require_key = true -> key <> EmptyString)
      /\ Config.get_settings (Some key) require_key = Ok settings
  | Raise e =>
      e = OtherError "RuntimeError"
      /\ require_key = true /\ raw = EmptyString
  end.
Proof.
  cbv zeta. rewrite get_settings_of_stripped.
  apply get_settings_clean, StripFacts.strip_idempotent.
Qed.

End ConfigFacts.


Module ToolFacts.
Import Json Errors Eff FalClient FalApi Tools.

Section Calls.
Variable json_loads : string -> option json.
Variable transport : list call -> call -> exchange.
Variable environ : option string.

Local Abbreviation blank :=
  (Py.strip (match environ with Some v => v | None => EmptyString end)
   = EmptyString) (only parsing).

Lemma get_client_cases (n : net) :
  match _get_client environ n with
  | (Ok client, n') =>
      n' = Net (sent n) (S (open_clients n))
      /\ Py.startswith (Py.lower (fal_key client)) "key " = true
      /\ header "Authorization" (default_headers client)
         = Some (fal_key client)
  | (Raise e, n') =>
      n' = n /\ e = OtherError "RuntimeError" /\ blank
  end.
Proof.
  unfold _get_client, mbind, lift.
  pose proof (ConfigFacts.get_settings_cases environ true) as G.
  cbv zeta in G.
  destruct (Config.get_settings environ true) as [settings|e].
  - destruct G as ([E|P] & _ & N & _); [now destruct (N eq_refl)|].
    unfold __init__.
    destruct (Config.fal_key settings) as [|c k] eqn:K;
      [now destruct (N eq_refl)|].
    simpl. repeat split; auto.
  - destruct G as (-> & _ & B). auto.
Qed.

Local Abbreviation quiet m k :=
  (forall n r n',
      m n = (r, n') ->
      open_clients n' = open_clients n
      /\ exists calls,
           sent n' = sent n ++ calls /\ List.length calls <= k)
  (only parsing).

Lemma perform_sends c handle n r n' :
  perform transport c handle n = (r, n') ->
  n' = Net (sent n ++ [c]) (open_clients n).
Proof. unfold perform. intros H. now injection H. Qed.

Lemma none_sent (n : net) k :
  exists calls : list call, sent n = sent n ++ calls /\ List.length calls <= k.
Proof. exists []. rewrite app_nil_r. simpl. split; [reflexivity|lia]. Qed.

Lemma request_quiet method url params body :
  quiet (request json_loads transport method url params body) 1.
Proof.
  intros n r n'. unfold request. intros H. apply perform_sends in H as ->.
  simpl. split; auto. eexists. split; [reflexivity|]. simpl. lia.
Qed.

Lemma perform_quiet c handle : quiet (perform transport c handle) 1.
Proof.
  intros n r n' H. apply perform_sends in H as ->.
  simpl. split; auto. eexists. split; [reflexivity|]. simpl. lia.
Qed.

Lemma raise_quiet {A : Type} (e : exn) k n (r : result A) n' :
  raise e n = (r, n') ->
  open_clients n' = open_clients n
  /\ exists calls, sent n' = sent n ++ calls /\ List.length calls <= k.
Proof.
  unfold raise. intros H; injection H as <- <-. split; auto. apply none_sent.
Qed.

Lemma search_models_quiet query category cursor page :
  quiet (FalApi.search_models json_loads transport query category cursor page)
        1.
Proof.
  intros n r n'. unfold FalApi.search_models.
  destruct (_ && _ && _)%bool; [apply raise_quiet|apply request_quiet].
Qed.

Lemma list_models_quiet category cursor page :
  quiet (FalApi.list_models json_loads transport category cursor page) 1.
Proof.
  intros n r n'. unfold FalApi.list_models.
  destruct (_ && _ && _)%bool; [apply raise_quiet|apply request_quiet].
Qed.

Lemma list_recent_quiet model_id limit :
  quiet (FalApi.list_recent json_loads transport model_id limit) 1.
Proof. intros n r n'. unfold FalApi.list_recent. apply request_quiet. Qed.

Lemma get_schema_quiet model_id :
  quiet (FalApi.get_schema json_loads transport model_id) 1.
Proof.
  intros n r n'. unfold FalApi.get_schema, mbind.
  destruct (request _ _ _ _ _ _ n) as [[v|e] n1] eqn:R;
    destruct (request_quiet _ _ _ _ _ _ _ R) as (O & calls & S & L).
  - intros H. assert (n' = n1) as ->; [|split; eauto].
    destruct v; try (injection H as _ <-; reflexivity).
    destruct (get fields "models") as [| | | |[|entry items]|];
      try (injection H as _ <-; reflexivity).
    destruct entry; injection H as _ <-; reflexivity.
  - intros H; injection H as <- <-. split; eauto.
Qed.

Lemma estimate_cost_quiet model_id count :
  quiet (FalApi.estimate_cost json_loads transport model_id count) 2.
Proof.
  intros n r n'. unfold FalApi.estimate_cost, mbind, ret.
  destruct (request _ _ _ _ _ _ n) as [[v|e] n1] eqn:R;
    destruct (request_quiet _ _ _ _ _ _ _ R) as (O & calls & S & L).
  - destruct (request _ _ _ _ _ _ n1) as [[v2|e2] n2] eqn:R2;
      destruct (request_quiet _ _ _ _ _ _ _ R2) as (O2 & calls2 & S2 & L2);
      intros H; injection H as <- <-; (split; [congruence|]);
      exists (calls ++ calls2); rewrite S2, S, app_assoc, length_app;
      (split; [reflexivity|lia]).
  - intros H; injection H as <- <-. split; auto.
    exists calls. split; [exact S|lia].
Qed.

(** A client, one client method, and the close. *)
Lemma client_shape (body : M net json) k :
  quiet body k ->
  quiet (client <~ _get_client environ ;; finally body aclose) k.
Proof.
  intros B n r n'. unfold mbind, finally, aclose.
  pose proof (get_client_cases n) as G.
  destruct (_get_client environ n) as [[client|e] n1].
  2:{ destruct G as (-> & _). intros H; injection H as <- <-. split; auto.
      apply none_sent. }
  destruct G as (-> & _).
  destruct (body _) as [r2 n2] eqn:R.
  destruct (B _ _ _ R) as (O & calls & S & L). simpl in *.
  intros H; injection H as <- <-. simpl. rewrite O. split; auto.
  exists calls. auto.
Qed.

(** A tool: validation first. *)
Lemma tool_shape {A : Type} (v : validated A) (body : A -> M net json) k :
  (forall data, quiet (body data) k) ->
  quiet (data <~ checked v ;;
         client <~ _get_client environ ;;
         finally (body data) aclose) k.
Proof.
  intros B n r n'. unfold mbind at 1. unfold checked.
  destruct v as [errors|data]; simpl.
  - intros H; injection H as <- <-. split; auto. apply none_sent.
  - apply (client_shape (body data) k (B data)).
Qed.

Lemma settles_of_quiet {A : Type} (m : M net A) k :
  (forall n r n',
      m n = (r, n') ->
      open_clients n' = open_clients n
      /\ exists calls, sent n' = sent n ++ calls /\ List.length calls <= k) ->
  Notions.settles m k.
Proof.
  intros Q n. destruct (m n) as [r n'] eqn:E. exact (Q _ _ _ E).
Qed.

End Calls.
End ToolFacts.

(** X15 ([_get_client], [FalClient.__init__], [get_settings]).  The
    server never creates a client without a key: [_get_client] either
    raises [RuntimeError], when [FAL_KEY] is blank, leaving everything as
    it was, or returns a client whose key starts with [key ] in some
    letter case and is its [Authorization] header; MISSING_FAL_KEY is
    never raised on this way. *)
Theorem get_client_has_key :
  forall (environ : option string) (n : FalApi.net),
    match Tools._get_client environ n with
    | (Errors.Ok client, n') =>
        n' = FalApi.Net (FalApi.sent n) (S (FalApi.open_clients n))
        /\ Py.startswith (Py.lower (FalApi.fal_key client)) "key " = true
        /\ FalClient.header "Authorization" (FalApi.default_headers client)
           = Some (FalApi.fal_key client)
    | (Errors.Raise e, n') =>
        n' = n /\ e = Errors.OtherError "RuntimeError"
        /\ Py.strip (match environ with Some v => v | None => EmptyString end)
           = EmptyString
    end.
Proof. intros environ n. apply ToolFacts.get_client_cases. Qed.

(** X16 (the tools of [genvoy/server.py] other than generation).  Every
    tool and resource ends with as many clients open as it found, so the
    client it creates is closed on every way out, and it sends at most
    one request, [estimate_cost] at most two. *)
Theorem tools_close_their_client :
  forall (json_loads : string -> option Json.json)
         (transport : list FalApi.call -> FalApi.call -> FalClient.exchange)
         (environ : option string),
    (forall query category cursor page,
        Notions.settles
          (Tools.search_models json_loads transport environ
             query category cursor page) 1)
    /\ (forall model_id,
          Notions.settles
            (Tools.get_schema json_loads transport environ model_id) 1)
    /\ (forall model_id count,
          Notions.settles
            (Tools.estimate_cost json_loads transport environ model_id count)
            2)
    /\ (forall request_id model_id,
          Notions.settles
            (Tools.get_job_status json_loads transport environ
               request_id model_id) 1)
    /\ (forall request_id model_id,
          Notions.settles
            (Tools.cancel_job json_loads transport environ
               request_id model_id) 1)
    /\ Notions.settles (Tools.models_resource json_loads transport environ) 1
    /\ Notions.settles (Tools.recent_resource json_loads transport environ) 1.
Proof.
  intros json_loads transport environ.
  split; [|split; [|split; [|split; [|split; [|split]]]]]; intros;
    apply ToolFacts.settles_of_quiet;
    first [ apply ToolFacts.tool_shape; intros data
          | apply ToolFacts.client_shape ].
  - apply ToolFacts.search_models_quiet.
  - apply ToolFacts.get_schema_quiet.
  - apply ToolFacts.estimate_cost_quiet.
  - apply ToolFacts.perform_quiet.
  - apply ToolFacts.perform_quiet.
  - apply ToolFacts.list_models_quiet.
  - apply ToolFacts.list_recent_quiet.
Qed.

(** X17 ([search_models], [SearchModelsInput.normalize_cursor],
    [FalClient.search_models]).  A search with a query of 1 to 200
    characters and a key in the environment sends one GET to the models
    endpoint.  Its [cursor] parameter is the cursor, or the page when no
    cursor is given, and it is left out when that value is empty; no
    [page] parameter is ever sent.  A cursor and a page that are both
    non-empty and differ give AMBIGUOUS_PAGINATION_CURSOR, and a query of
    another length gives VALIDATION_ERROR, with nothing sent. *)
Theorem search_models_sends_one_cursor :
  forall (json_loads : string -> option Json.json)
         (transport : list FalApi.call -> FalApi.call -> FalClient.exchange)
         (environ : option string)
         (query : string) (category cursor page : option string)
         (n : FalApi.net),
    let search :=
      Tools.search_models json_loads transport environ
        query category cursor page n in
    let ambiguous :=
      FalApi.truthy_str cursor && FalApi.truthy_str page
      && FalApi.str_ne cursor page in
    let effective := match cursor with Some _ => cursor | None => page end in
    let in_bounds :=
      Nat.leb 1 (String.length query) && Nat.leb (String.length query) 200 in
    (in_bounds = false ->
     exists msg,
       search = (Errors.Raise (Errors.GenvoyToolError "VALIDATION_ERROR" msg),
                 n))
    /\ (in_bounds = true -> ambiguous = true ->
        exists msg,
          search
          = (Errors.Raise
               (Errors.GenvoyToolError "AMBIGUOUS_PAGINATION_CURSOR" msg), n))
    /\ (in_bounds = true -> ambiguous = false ->
        Py.strip (match environ with Some v => v | None => EmptyString end)
          <> EmptyString ->
        exists r params,
          search
          = (r, FalApi.Net
                  (FalApi.sent n ++
                     [FalApi.Call "GET" (FalClient.BASE_API ++ "/models")
                        params None])
                  (FalApi.open_clients n))
          /\ Json.lookup "q" params = Some (Json.JStr query)
          /\ Json.lookup "page" params = None
          /\ Json.lookup "cursor" params
             = (if FalApi.truthy_str effective
                then Some (FalApi.str_json effective) else None)).
Proof.
  intros json_loads transport environ query category cursor page n.
  cbv zeta. unfold Tools.search_models, Tools.make_SearchModelsInput.
  assert (B : Nat.leb 1 (String.length query)
              = negb (Nat.ltb (String.length query) 1)).
  { destruct (Nat.leb_spec 1 (String.length query));
      destruct (Nat.ltb_spec (String.length query) 1); auto; lia. }
  assert (B2 : Nat.leb (String.length query) 200
               = negb (Nat.ltb 200 (String.length query))).
  { destruct (Nat.leb_spec (String.length query) 200);
      destruct (Nat.ltb_spec 200 (String.length query)); auto; lia. }
  rewrite B, B2.
  destruct (Nat.ltb (String.length query) 1).
  { split; [|split; discriminate]. intros _. eexists. reflexivity. }
  destruct (Nat.ltb 200 (String.length query)).
  { split; [|split; discriminate]. intros _. eexists. reflexivity. }
  split; [discriminate|].
  destruct (FalApi.truthy_str cursor && FalApi.truthy_str page
            && FalApi.str_ne cursor page).
  { split; [|discriminate]. intros _ _. eexists. reflexivity. }
  split; [discriminate|]. intros _ _ K.
  unfold Eff.mbind at 1. unfold Tools.checked, Eff.ret.
  cbn [Tools.search_query Tools.search_category Tools.search_cursor].
  unfold Eff.mbind.
  pose proof (ToolFacts.get_client_cases environ n) as G.
  destruct (Tools._get_client environ n) as [[client|e] n1].
  2:{ destruct G as (_ & _ & E). congruence. }
  destruct G as (-> & _).
  set (effective := match cursor with Some _ => cursor | None => page end).
  unfold Tools.finally, FalApi.search_models.
  replace (FalApi.truthy_str effective && FalApi.truthy_str None
           && FalApi.str_ne effective None) with false
    by (now rewrite andb_false_r).
  unfold FalApi.str_or, FalApi.request, FalApi.perform, FalApi.aclose.
  cbn [FalApi.sent FalApi.open_clients Nat.pred].
  destruct (FalApi.truthy_str category),
    (FalApi.truthy_str effective) eqn:TE;
    cbv iota; rewrite ?TE; cbn [FalApi.truthy_str];
    eexists _, _; (split; [reflexivity|]); repeat split; reflexivity.
Qed.

Module DownloadFacts.
Import Json Errors Eff Filesystem FalClient Download.

Lemma stat_location store (p : Path) loc k :
  ~ In ".." (parts p) -> stat store p = inr (loc, k) -> loc = parts p.
Proof.
  intros N. unfold stat. pose proof (StoreFacts.split_last_parts (parts p)) as P.
  destruct (split_last (parts p)) as [[init l]|].
  2:{ intros H; injection H as <- <-. now rewrite P. }
  destruct (walk_dirs store [] init) as [e|d] eqn:W; [discriminate|].
  assert (NI : ~ In ".." init).
  { intros I. apply N. rewrite P. apply in_or_app. now left. }
  assert (NL : String.eqb l ".." = false).
  { apply String.eqb_neq. intros ->. apply N. rewrite P.
    apply in_or_app. right. now left. }
  pose proof (StoreFacts.walk_dirs_normalize _ _ _ _ W) as E.
  rewrite StoreFacts.normalize_plain in E by exact NI. simpl in E. subst d.
  rewrite NL. destruct (stat_loc store (init ++ [l])); [|discriminate].
  intros H; injection H as <- <-. now rewrite P.
Qed.

(** [open(p, "wb")] on a resolved path: the store stays, or gains the
    file at that path. *)
Lemma open_wb_effect (p : Path) store r store' :
  ~ In ".." (parts p) ->
  open_wb p store = (r, store') ->
  (store' = store \/ store' = store ++ [(parts p, File)])
  /\ (r = Ok tt -> stat store' p = inr (parts p, File))
  /\ (forall e, r = Raise e -> exists kind, e = OSError kind).
Proof.
  intros N. unfold open_wb.
  destruct (stat store p) as [e|[loc [|]]] eqn:S.
  - destruct (split_last (parts p)) as [[init l]|] eqn:SL.
    + destruct (walk_dirs store [] init) as [e'|d] eqn:W.
      * intros H; injection H as <- <-. repeat split; auto; try discriminate.
        intros x X. injection X as <-. destruct e'; eexists; reflexivity.
      * assert (X : exists_ store p = false) by (unfold exists_; now rewrite S).
        destruct (CopyFacts.create_file store p N X init l d SL W) as [E F].
        rewrite E in *.
        intros H; injection H as <- <-. repeat split; auto. discriminate.
    + intros H; injection H as <- <-. repeat split; auto; try discriminate.
      intros x X. injection X as <-. eexists; reflexivity.
  - intros H; injection H as <- <-. repeat split; auto; try discriminate.
    intros x X. injection X as <-. eexists; reflexivity.
  - intros H; injection H as <- <-. repeat split; auto; try discriminate.
    intros _. now rewrite (stat_location _ _ _ _ N S) in S.
Qed.

Lemma mkdir_parents_fuel_raises fuel : forall p store e store',
  mkdir_parents_fuel fuel p store = (Raise e, store') ->
  exists kind, e = OSError kind.
Proof.
  assert (K : forall x : errno, exists kind, os_error x = OSError kind).
  { intros []; eexists; reflexivity. }
  induction fuel as [|fuel IH]; intros p store e store'; simpl.
  - destruct (os_mkdir store p) as [x|s1]; [|discriminate].
    destruct x; try (destruct (is_dir store p); [discriminate|];
                     intros H; injection H as <- <-; first [apply K|eexists; reflexivity]).
    intros H; injection H as <- <-; first [apply K|eexists; reflexivity].
  - destruct (os_mkdir store p) as [x|s1]; [|discriminate].
    destruct x; try (destruct (is_dir store p); [discriminate|];
                     intros H; injection H as <- <-; first [apply K|eexists; reflexivity]).
    destruct (parts p); [intros H; injection H as <- <-; first [apply K|eexists; reflexivity]|].
    destruct (mkdir_parents_fuel fuel (parent p) store) as [[[]|e1] s1] eqn:R.
    2:{ intros H; injection H as <- <-. exact (IH _ _ _ _ R). }
    destruct (os_mkdir s1 p) as [x|s2]; [|discriminate].
    destruct x; try (destruct (is_dir s1 p); [discriminate|];
                     intros H; injection H as <- <-; first [apply K|eexists; reflexivity]).
    intros H; injection H as <- <-; first [apply K|eexists; reflexivity].
Qed.

Section Fetch.
Variable cwd : Path.
Variable urlparse_path : string -> string.

Local Abbreviation root := (parts (resolve cwd cwd)) (only parsing).

(** What an attempt, and a download, may leave behind and return. *)
Local Abbreviation effect store r store' :=
  (exists added,
      store' = store ++ added
      /\ Notions.files_below root added
      /\ match r with
         | Ok d =>
             stat store' (path d) = inr (parts (path d), File)
             /\ _is_within (path d) (resolve cwd cwd) = true
         | Raise e => e <> OtherError "unreachable"
         end)
  (only parsing).

Lemma nothing_added (store : fs) :
  store = store ++ [] /\ Notions.files_below root [].
Proof. rewrite app_nil_r. split; [reflexivity|constructor]. Qed.

Lemma directories_below (added : fs) :
  Forall (fun e => snd e = Dir) added -> Notions.files_below root added.
Proof.
  unfold Notions.files_below. apply Forall_impl. intros [l k]. simpl.
  intros ->. discriminate.
Qed.

Lemma attempt_body_effect url output_path t store r store' :
  attempt_body cwd urlparse_path url output_path t store = (r, store') ->
  effect store r store'.
Proof.
  unfold attempt_body.
  destruct t as [text|code hs chunks ending].
  { intros H; injection H as <- <-. exists []. destruct (nothing_added store).
    repeat split; auto. discriminate. }
  destruct (Nat.eqb code 403 || Nat.eqb code 404).
  { intros H; injection H as <- <-. exists []. destruct (nothing_added store).
    repeat split; auto. discriminate. }
  destruct (negb (is_success code)).
  { intros H; injection H as <- <-. exists []. destruct (nothing_added store).
    repeat split; auto. discriminate. }
  destruct (MediaType.detect_type_and_ext urlparse_path url
              (header "Content-Type" hs)) as [media_type ext].
  unfold mbind at 1.
  set (choose := match ext with
                 | Some e => _
                 | None => ret output_path
                 end).
  assert (C : forall r0 s0, choose store = (r0, s0) ->
                s0 = store /\ r0 <> Raise (OtherError "unreachable")).
  { intros r0 s0. unfold choose. destruct ext as [e|].
    - destruct (negb _ && _).
      + unfold mbind, lift. destruct (with_suffix output_path e) as [q|x] eqn:WS.
        * intros U. destruct (OutputPathFacts.unique_path_keeps _ _ _ _ U)
            as (-> & free & -> & _). split; [reflexivity|discriminate].
        * unfold with_suffix in WS.
          destruct (negb (Py.nonempty (name output_path)));
            [|destruct (negb _ || _); [|discriminate WS]];
            injection WS as <-; intros H; injection H as <- <-;
            (split; [reflexivity|discriminate]).
      + intros H; injection H as <- <-. split; [reflexivity|discriminate].
    - intros H; injection H as <- <-. split; [reflexivity|discriminate]. }
  destruct (choose store) as [[p|x] s0] eqn:CH;
    destruct (C _ _ eq_refl) as [-> NU].
  2:{ intros H; injection H as <- <-. exists []. destruct (nothing_added store).
      repeat split; auto. congruence. }
  unfold mbind at 1.
  destruct (mkdir_parents (absolute_against_cwd cwd (parent p)) store)
    as [[[]|x] s1] eqn:M.
  2:{ intros H; injection H as <- <-.
      destruct (StoreFacts.mkdir_parents_adds _ _ _ _ M) as [(dirs & -> & F) _].
      exists dirs. repeat split; auto using directories_below.
      destruct (mkdir_parents_fuel_raises _ _ _ _ _ M) as [k ->]. discriminate. }
  destruct (StoreFacts.mkdir_parents_adds _ _ _ _ M) as [(dirs & -> & F) _].
  unfold mbind at 1. unfold lift.
  pose proof (PathFacts.ensure_safe_path_within cwd p) as W.
  destruct (ensure_safe_path cwd p None) as [safe|x] eqn:ES.
  2:{ intros H; injection H as <- <-.
      exists dirs. repeat split; auto using directories_below.
      unfold ensure_safe_path in ES.
      destruct (_is_within _ _); simpl in ES; [discriminate ES|].
      injection ES as <-. discriminate. }
  destruct (W safe eq_refl) as [-> IN]. clear W.
  assert (NS : ~ In ".." (parts (resolve cwd p))).
  { simpl. apply StoreFacts.normalize_no_dotdot. intros []. }
  unfold mbind at 1.
  destruct (open_wb (resolve cwd p) (store ++ dirs)) as [[[]|x] s2] eqn:O;
    destruct (open_wb_effect _ _ _ _ NS O) as (G & ST & RS).
  2:{ intros H; injection H as <- <-.
      destruct (RS x eq_refl) as [k ->].
      destruct G as [->| ->].
      - exists dirs. repeat split; auto using directories_below. discriminate.
      - exists (dirs ++ [(parts (resolve cwd p), File)]).
        rewrite app_assoc. repeat split; [| discriminate].
        apply Forall_app. split; [now apply directories_below|].
        constructor; [|constructor]. intros _. simpl.
        unfold _is_within in IN. now apply andb_true_iff in IN as [_ IN]. }
  assert (B : exists added,
             s2 = store ++ added /\ Notions.files_below root added).
  { destruct G as [->| ->].
    - exists dirs. split; auto using directories_below.
    - exists (dirs ++ [(parts (resolve cwd p), File)]).
      rewrite app_assoc. split; [reflexivity|].
      apply Forall_app. split; [now apply directories_below|].
      constructor; [|constructor]. intros _. simpl.
      unfold _is_within in IN. now apply andb_true_iff in IN as [_ IN]. }
  destruct B as (added & -> & FB).
  destruct ending as [|text]; intros H; injection H as <- <-;
    exists added; repeat split; auto; discriminate.
Qed.

Section Retry.
Variable transfers : nat -> transfer.

Lemma download_from_effect budget : forall url output_path attempt store r store',
  attempt + budget = List.length retries ->
  download_from cwd urlparse_path transfers budget url output_path attempt store
    = (r, store') ->
  effect store r store'.
Proof.
  induction budget as [|budget IH];
    intros url output_path attempt store r store' B;
    cbn [download_from]; unfold catch;
    destruct (attempt_body cwd urlparse_path url output_path
                (transfers attempt) store) as [[d|e] s1] eqn:A;
    pose proof (attempt_body_effect _ _ _ _ _ _ A) as (added & -> & FB & R).
  - intros H; injection H as <- <-. exists added. auto.
  - destruct e; try (intros H; injection H as <- <-; exists added;
                     repeat split; auto; discriminate).
    replace (Nat.leb (List.length retries) attempt) with true
      by (symmetry; apply Nat.leb_le; lia).
    intros H; injection H as <- <-. exists added. repeat split; auto.
    discriminate.
  - intros H; injection H as <- <-. exists added. auto.
  - destruct e; try (intros H; injection H as <- <-; exists added;
                     repeat split; auto; discriminate).
    destruct (Nat.leb (List.length retries) attempt).
    { intros H; injection H as <- <-. exists added. repeat split; auto.
      discriminate. }
    intros H. apply IH in H as (added2 & -> & FB2 & R2); [|lia].
    exists (added ++ added2). rewrite app_assoc. repeat split; auto.
    now apply Forall_app.
Qed.

Lemma download_to_file_effect url output_path store r store' :
  download_to_file cwd urlparse_path transfers url output_path store
    = (r, store') ->
  effect store r store'.
Proof.
  apply (download_from_effect (List.length retries) url output_path 0).
  reflexivity.
Qed.

End Retry.

Lemma download_from_same budget : forall t1 t2 url output_path attempt store,
  attempt + budget = List.length retries ->
  (forall k, k <= List.length retries -> t1 k = t2 k) ->
  download_from cwd urlparse_path t1 budget url output_path attempt store
  = download_from cwd urlparse_path t2 budget url output_path attempt store.
Proof.
  induction budget as [|budget IH];
    intros t1 t2 url output_path attempt store B E;
    cbn [download_from]; unfold catch;
    rewrite (E attempt) by lia;
    destruct (attempt_body cwd urlparse_path url output_path (t2 attempt) store)
      as [[d|e] s1]; auto.
  destruct e; auto. destruct (Nat.leb _ attempt); auto.
  apply IH; [lia|exact E].
Qed.

End Fetch.
End DownloadFacts.

(** X18 ([download_to_file]).  Whatever a download does, the store only
    grows, and every file it creates lies below the working directory;
    the path it returns is a file of the store inside the working
    directory. *)
Theorem download_writes_inside_the_working_directory :
  forall (cwd : Filesystem.Path) (urlparse_path : string -> string)
         (transfers : nat -> Download.transfer)
         (url : string) (output_path : Filesystem.Path)
         (store : Filesystem.fs),
    match Download.download_to_file cwd urlparse_path transfers
            url output_path store with
    | (r, store') =>
        exists added,
          store' = store ++ added
          /\ Notions.files_below
               (Filesystem.parts (Filesystem.resolve cwd cwd)) added
          /\ match r with
             | Errors.Ok d =>
                 Filesystem.stat store' (Download.path d)
                 = inr (Filesystem.parts (Download.path d), Filesystem.File)
                 /\ Filesystem._is_within (Download.path d)
                      (Filesystem.resolve cwd cwd) = true
             | Errors.Raise e => e <> Errors.OtherError "unreachable"
             end
    end.
Proof.
  intros cwd urlparse_path transfers url output_path store.
  destruct (Download.download_to_file cwd urlparse_path transfers
              url output_path store) as [r store'] eqn:D.
  exact (DownloadFacts.download_to_file_effect cwd urlparse_path transfers
           url output_path store r store' D).
Qed.


Module PipelineFacts.
Import Json Errors Eff Filesystem FalClient Server Pipeline.

Lemma visited_http (v : json) :
  Forall (fun u => Extraction.is_http u = true) (Spec.visited v).
Proof.
  induction v as [| | |s|items IH|fields IH] using json_ind;
    try (simpl; constructor).
  - simpl. destruct (Extraction.is_http s) eqn:E; auto.
  - simpl. apply Forall_flat_map. exact IH.
  - rewrite MediaUrlFacts.visited_obj. apply Forall_app. split.
    + apply Forall_flat_map. apply Forall_forall. intros k _.
      destruct (lookup k fields) as [v|] eqn:E; auto.
      rewrite Forall_forall in IH. apply (IH (k, v)).
      now apply MediaUrlFacts.lookup_In.
    + apply Forall_flat_map. exact IH.
Qed.

(** A URL that [_extract_first_media_url] returns has an http(s)
    scheme. *)
Lemma extracted_is_http urlparse_path (v : json) (u : string) :
  Extraction._extract_first_media_url urlparse_path v = Some u ->
  Extraction.is_http u = true.
Proof.
  rewrite MediaUrlFacts.extract_visited. unfold Spec.preferred_candidate.
  pose proof (visited_http v) as F. rewrite Forall_forall in F.
  destruct (find _ (Spec.visited v)) as [x|] eqn:E.
  - intros H; injection H as <-. apply F. now apply find_some in E.
  - destruct (Spec.visited v) as [|x l]; [discriminate|].
    intros H; injection H as <-. apply F. now left.
Qed.

Lemma resolve_output_path_grows cwd output_path ext store r store' :
  resolve_output_path cwd output_path ext store = (r, store') ->
  exists dirs, store' = store ++ dirs /\ Forall (fun e => snd e = Dir) dirs.
Proof.
  unfold resolve_output_path, mbind, lift.
  destruct (mkdir_parents _ store) as [[[]|e] store1] eqn:M;
    destruct (StoreFacts.mkdir_parents_adds _ _ _ _ M) as [G _].
  2:{ intros H; injection H as <- <-. exact G. }
  destruct (ensure_safe_path cwd _ None) as [safe|e];
    [|intros H; injection H as <- <-; exact G].
  destruct (match ext with Some _ => _ | None => _ end) as [safe2|e];
    [|intros H; injection H as <- <-; exact G].
  intros U. destruct (OutputPathFacts.unique_path_keeps _ _ _ _ U) as [-> _].
  exact G.
Qed.

Lemma copy2_raise_keeps src target store e store' :
  copy2 src target store = (Raise e, store') -> store' = store.
Proof.
  unfold copy2.
  destruct (stat store src) as [x|[sl [|]]];
    try (intros H; now injection H).
  destruct (stat store target) as [x|[tl [|]]];
    try (intros H; now injection H); try discriminate.
  destruct (split_last (parts target)) as [[init l]|];
    [|intros H; now injection H].
  destruct (walk_dirs store [] init); [intros H; now injection H|discriminate].
Qed.

Lemma copy_to_repo_grows cwd src dst store r store' :
  copy_to_repo cwd src dst store = (r, store') ->
  exists added,
    store' = store ++ added
    /\ (forall target, r = Ok target ->
          stat store' target = inr (parts target, File)).
Proof.
  unfold copy_to_repo, mbind, lift, ret.
  destruct (mkdir_parents _ store) as [[[]|e] store1] eqn:M;
    destruct (StoreFacts.mkdir_parents_adds _ _ _ _ M) as [(dirs & -> & F) _].
  2:{ intros H; injection H as <- <-. exists dirs. split; auto. discriminate. }
  pose proof (PathFacts.ensure_safe_path_within cwd
                (absolute_against_cwd cwd dst)) as W.
  destruct (ensure_safe_path cwd _ None) as [safe|e].
  2:{ intros H; injection H as <- <-. exists dirs. split; auto. discriminate. }
  destruct (W safe eq_refl) as [-> _]. clear W.
  set (safe := resolve cwd _).
  assert (NS : ~ In ".." (parts safe)).
  { simpl. apply StoreFacts.normalize_no_dotdot. intros []. }
  destruct (unique_path safe (store ++ dirs)) as [u s2] eqn:U.
  destruct (OutputPathFacts.unique_path_keeps _ _ _ _ U)
    as (-> & free & -> & X & _ & _ & NF & _).
  destruct (copy2 src free (store ++ dirs)) as [[[]|e] s3] eqn:C.
  - destruct (CopyFacts.copy2_new _ _ _ _ _ (NF NS) X C eq_refl) as [-> ST].
    intros H; injection H as <- <-.
    exists (dirs ++ [(parts free, File)]). rewrite app_assoc.
    split; [reflexivity|]. intros t E. injection E as <-. exact ST.
  - apply copy2_raise_keeps in C as ->.
    intros H; injection H as <- <-. exists dirs. split; auto. discriminate.
Qed.

Section Generation.
Variable cwd : Path.
Variable json_loads : string -> option json.
Variable py_repr : json -> string.
Variable py_float_str : string -> option Q.
Variable urlparse_path : string -> string.
Variable py_round3 : Q -> Q.

Local Abbreviation status := (_status_value py_repr) (only parsing).

Lemma generation_client_cases net (s : state) :
  match _get_client net s with
  | (Ok client, s') =>
      s' = State (store s) (queue s) (S (open_clients s))
  | (Raise e, s') =>
      s' = s /\ e = OtherError "RuntimeError"
      /\ Py.strip (match environ_FAL_KEY net with
                   | Some v => v
                   | None => EmptyString
                   end) = EmptyString
  end.
Proof.
  unfold _get_client, mbind, lift.
  pose proof (ConfigFacts.get_settings_cases (environ_FAL_KEY net) true) as G.
  cbv zeta in G.
  destruct (Config.get_settings (environ_FAL_KEY net) true) as [settings|e].
  - destruct G as (_ & _ & N & _). unfold FalApi.__init__.
    destruct (Config.fal_key settings) as [|c k];
      [now destruct (N eq_refl)|].
    reflexivity.
  - destruct G as (-> & _ & B). auto.
Qed.

(** The wait inside a generation has fuel enough, keeps the file system
    and the clients as they are, and returns COMPLETED payloads only. *)
Lemma wait_cases net model_id request_id timeout_seconds (s : state) :
  exists r w,
    wait_for_completion json_loads py_repr (Some on_status_callback)
      (status_exchange net) model_id request_id timeout_seconds 2%Q
      (enough_fuel timeout_seconds 2%Q) (status_stream net) (queue s)
    = Some (r, w)
    /\ _wait_for_completion_with_progress json_loads py_repr net
         model_id request_id timeout_seconds 2%Q s
       = (r, State (store s) w (open_clients s))
    /\ (forall payload, r = Ok payload -> status payload = "COMPLETED").
Proof.
  assert (P : (0 < 2)%Q) by reflexivity.
  pose proof (WaitFacts.enough_fuel_suffices timeout_seconds 2%Q P
                (enough_fuel timeout_seconds 2%Q) (le_n _)) as B.
  unfold _wait_for_completion_with_progress, wait_for_completion.
  rewrite WaitFacts.stream_path_unfold.
  assert (L : forall w1,
             exists r w,
               poll_loop json_loads py_repr (Some on_status_callback)
                 (status_exchange net) model_id request_id timeout_seconds
                 2%Q (enough_fuel timeout_seconds 2%Q) 0%Q w1 = Some (r, w)
               /\ (forall payload, r = Ok payload ->
                     status payload = "COMPLETED")).
  { intros w1.
    destruct (StreamFacts.loop_bounded json_loads py_repr
                (Some on_status_callback) (status_exchange net) model_id
                request_id timeout_seconds 2%Q
                (enough_fuel timeout_seconds 2%Q)
                (enough_fuel timeout_seconds 2%Q) 0%Q w1 B (le_n _))
      as (r & w & E & _).
    exists r, w. split; [exact E|]. intros payload ->.
    exact (WaitFacts.loop_returns _ _ _ _ _ _ _ _ _ _ _ _ _ E). }
  destruct (stream_job_status json_loads py_repr (Some on_status_callback)
              (status_stream net) (queue s)) as [[p|e] w1].
  - destruct (String.eqb (status p) "COMPLETED") eqn:C.
    { eexists _, _. split; [reflexivity|]. split; [reflexivity|].
      intros payload E. injection E as <-. now apply String.eqb_eq. }
    destruct (String.eqb (status p) "FAILED").
    { eexists _, _. split; [reflexivity|]. split; [reflexivity|].
      discriminate. }
    destruct (L w1) as (r & w & E & K). rewrite E. eauto.
  - destruct (has_code "SSE_UNAVAILABLE" e).
    + destruct (L w1) as (r & w & E & K). rewrite E. eauto.
    + eexists _, _. split; [reflexivity|]. split; [reflexivity|].
      discriminate.
Qed.

(** The job part: it leaves the file system and the clients alone, and
    what it returns is a COMPLETED status and the decoded result. *)
Lemma run_job_cases net args (s : state) :
  match run_job json_loads py_repr net args s with
  | (r, s') =>
      store s' = store s /\ open_clients s' = open_clients s
      /\ match r with
         | Ok (request_id, terminal_status, result_payload) =>
             status terminal_status = "COMPLETED"
             /\ get_job_result json_loads (arg_model_id args) request_id
                  (result_exchange net) = Ok result_payload
         | Raise _ => True
         end
  end.
Proof.
  unfold run_job, mbind, lift, ret.
  destruct (submit_job json_loads (arg_model_id args) (submit_exchange net))
    as [submit_data|e]; [|auto].
  destruct (expect_dict submit_data) as [fields|e]; [|auto].
  destruct (ensure _ _ _) as [[]|e]; [|auto].
  set (request_id := FalClient.py_str py_repr _).
  destruct (wait_cases net (arg_model_id args) request_id
              (arg_timeout_seconds args) s) as (r & w & _ & E & C).
  rewrite E. destruct r as [terminal|e]; [|auto].
  destruct (get_job_result json_loads (arg_model_id args) request_id
              (result_exchange net)) as [payload|e] eqn:R; simpl; auto.
Qed.

Lemma on_store_cases {A : Type} (m : M fs A) (s : state) :
  on_store m s
  = (fst (m (store s)),
     State (snd (m (store s))) (queue s) (open_clients s)).
Proof. unfold on_store. destruct (m (store s)); reflexivity. Qed.

Local Abbreviation root := (resolve cwd cwd) (only parsing).

(** What a delivery leaves in the store, and what its result names. *)
Lemma deliver_cases net args rid terminal payload url store r store' :
  deliver cwd py_float_str urlparse_path py_round3 net args rid
    terminal payload url store = (r, store') ->
  exists added,
    store' = store ++ added
    /\ match r with
       | Ok res =>
           request_id res = rid
           /\ model_id res = arg_model_id args
           /\ result_url res = url
           /\ In (media_type res) ["image"; "video"; "audio"; "unknown"]
           /\ (exists p,
                 output_path res = path_str p
                 /\ stat store' p = inr (parts p, File)
                 /\ _is_within p root = true)
           /\ match arg_repo_path args with
              | None => repo_path res = None
              | Some _ =>
                  exists t,
                    repo_path res = Some (path_str t)
                    /\ stat store' t = inr (parts t, File)
              end
       | Raise _ => True
       end.
Proof.
  unfold deliver. cbv zeta. unfold mbind at 1.
  destruct (resolve_output_path cwd _ _ store) as [[out|e] s1] eqn:RO;
    destruct (resolve_output_path_grows _ _ _ _ _ _ RO) as (dirs & -> & _).
  2:{ intros H; injection H as <- <-. eauto. }
  unfold mbind at 1. unfold lift at 1.
  destruct (Config.get_settings _ true) as [settings|e].
  2:{ intros H; injection H as <- <-. eauto. }
  unfold mbind at 1.
  destruct (Download.download_to_file cwd urlparse_path (transfers net)
              url out (store ++ dirs)) as [[d|e] s2] eqn:DL;
    destruct (DownloadFacts.download_to_file_effect cwd urlparse_path
                (transfers net) _ _ _ _ _ DL)
      as (added & -> & _ & DR).
  2:{ intros H; injection H as <- <-. exists (dirs ++ added).
      now rewrite app_assoc. }
  destruct DR as [ST IN].
  assert (MT : In (if existsb (String.eqb (Download.media_type d))
                        ["image"; "video"; "audio"]
                   then Download.media_type d else "unknown")
                  ["image"; "video"; "audio"; "unknown"]).
  { simpl.
    destruct (String.eqb_spec (Download.media_type d) "image") as [->|];
      [simpl; auto|].
    destruct (String.eqb_spec (Download.media_type d) "video") as [->|];
      [simpl; auto|].
    destruct (String.eqb_spec (Download.media_type d) "audio") as [->|];
      simpl; auto 6. }
  unfold mbind at 1.
  destruct (arg_repo_path args) as [repo|].
  - unfold mbind at 1. unfold lift at 1.
    destruct (if negb _ && _ then _ else Ok repo) as [target|e].
    2:{ intros H; injection H as <- <-. exists (dirs ++ added).
        now rewrite app_assoc. }
    unfold mbind at 1.
    destruct (copy_to_repo cwd (Download.path d) target
                ((store ++ dirs) ++ added)) as [[t|e] s3] eqn:CP;
      destruct (copy_to_repo_grows _ _ _ _ _ _ CP) as (extra & -> & TS).
    2:{ intros H; injection H as <- <-. exists ((dirs ++ added) ++ extra).
        now rewrite !app_assoc. }
    unfold ret at 1. unfold mbind, lift.
    destruct (expect_dict payload) as [fields|e];
      intros H; injection H as <- <-;
      exists ((dirs ++ added) ++ extra);
      (split; [now rewrite !app_assoc|]); auto.
    cbn [request_id model_id result_url media_type output_path repo_path
         option_map].
    repeat split; auto.
    + exists (Download.path d). repeat split; auto.
      now apply StoreFacts.stat_app.
    + exists t. split; [reflexivity|]. now apply TS.
  - unfold ret at 1. unfold mbind, lift.
    destruct (expect_dict payload) as [fields|e];
      intros H; injection H as <- <-;
      exists (dirs ++ added);
      (split; [now rewrite !app_assoc|]); auto.
    cbn [request_id model_id result_url media_type output_path repo_path
         option_map].
    repeat split; auto.
    exists (Download.path d). repeat split; auto.
Qed.

(** A generation taken apart: the client is closed again, and either the
    file system is as it was, or the job completed, its result carried a
    URL, and the delivery ran. *)
Lemma generate_once_cases net args (s : state) :
  match _generate_once cwd json_loads py_repr py_float_str urlparse_path
          py_round3 net args s with
  | (r, s') =>
      open_clients s' = open_clients s
      /\ ((store s' = store s /\ exists e, r = Raise e)
          \/ exists request_id terminal_status result_payload url,
               status terminal_status = "COMPLETED"
               /\ get_job_result json_loads (arg_model_id args) request_id
                    (result_exchange net) = Ok result_payload
               /\ Extraction._extract_first_media_url urlparse_path
                    result_payload = Some url
               /\ deliver cwd py_float_str urlparse_path py_round3 net args
                    request_id terminal_status result_payload url (store s)
                  = (r, store s'))
  end.
Proof.
  unfold _generate_once. unfold mbind at 1.
  pose proof (generation_client_cases net s) as G.
  destruct (_get_client net s) as [[client|e] s1].
  2:{ destruct G as (-> & -> & _). split; [reflexivity|left]. eauto. }
  subst s1. unfold mbind at 1. unfold Tools.finally, aclose.
  pose proof (run_job_cases net args
                (State (store s) (queue s) (S (open_clients s)))) as J.
  destruct (run_job json_loads py_repr net args _) as [rj s2].
  destruct J as (JS & JO & JR). simpl in JS, JO.
  destruct rj as [[[request_id terminal] payload]|e].
  2:{ simpl. rewrite JO. split; [reflexivity|left]. eauto. }
  destruct JR as [C R]. unfold mbind at 1. unfold lift, ensure.
  destruct (Extraction._extract_first_media_url urlparse_path payload)
    as [url|] eqn:X.
  2:{ simpl. rewrite JO. split; [reflexivity|left]. eauto. }
  rewrite (MediaUrlFacts.http_nonempty url
             (extracted_is_http urlparse_path payload url X)).
  rewrite on_store_cases. cbn [store queue open_clients].
  rewrite JO. split; [reflexivity|right].
  exists request_id, terminal, payload, url. rewrite JS.
  repeat split; auto.
  destruct (deliver _ _ _ _ _ _ _ _ _ _ (store s)); reflexivity.
Qed.

Lemma as_task_cases net args files r files' :
  as_task cwd json_loads py_repr py_float_str urlparse_path py_round3
    net args files = (r, files') ->
  exists added,
    files' = files ++ added
    /\ match r with
       | Ok res => Notions.on_disk cwd files' res
       | Raise _ => True
       end.
Proof.
  unfold as_task.
  pose proof (generate_once_cases net args (State files start 0)) as G.
  destruct (_generate_once _ _ _ _ _ _ _ _ _) as [r0 s'].
  intros H; injection H as <- <-.
  destruct G as [_ [[S [e ->]]|(rid & t & p & u & _ & _ & _ & D)]].
  - simpl in S. rewrite S. exists []. now rewrite app_nil_r.
  - simpl in D. destruct (deliver_cases _ _ _ _ _ _ _ _ _ D) as (added & E & K).
    exists added. split; [exact E|].
    destruct r0 as [res|e]; [|exact I].
    destruct K as (_ & _ & _ & _ & OP & _). exact OP.
Qed.

Lemma on_disk_app files extra res :
  Notions.on_disk cwd files res -> Notions.on_disk cwd (files ++ extra) res.
Proof.
  intros (p & O & S & W). exists p. repeat split; auto.
  now apply StoreFacts.stat_app.
Qed.

Lemma gather_on_disk (nets : GenerateArgs -> network) tasks :
  forall files results files',
    gather (fun args =>
              as_task cwd json_loads py_repr py_float_str urlparse_path
                py_round3 (nets args) args) tasks files = (results, files') ->
    (exists added, files' = files ++ added)
    /\ Forall (Notions.on_disk cwd files') (Spec.successes results).
Proof.
  induction tasks as [|t rest IH]; intros files results files'; simpl.
  - intros H; injection H as <- <-. split; [|constructor].
    exists []. now rewrite app_nil_r.
  - destruct (as_task _ _ _ _ _ _ _ t files) as [item s1] eqn:T.
    destruct (as_task_cases _ _ _ _ _ T) as (a1 & -> & K).
    destruct (gather _ rest (files ++ a1)) as [items s2] eqn:G.
    destruct (IH _ _ _ G) as [(a2 & ->) F].
    intros H; injection H as <- <-. split.
    + exists (a1 ++ a2). now rewrite app_assoc.
    + destruct item as [res|e]; simpl; [|exact F].
      constructor; [|exact F]. now apply on_disk_app.
Qed.

End Generation.
End PipelineFacts.


(** X21 ([_generate_once]).  The result of a generation names what is
    there: its model is the requested one, its URL has an http(s)
    scheme, its media type is one of the four the result model allows,
    its output path is a file of the store inside the working directory,
    and its repo path, given exactly when a copy was asked for, is a file
    of the store. *)
Theorem generation_result_is_on_disk :
  forall (cwd : Filesystem.Path) (json_loads : string -> option Json.json)
         (py_repr : Json.json -> string)
         (py_float_str : string -> option Q)
         (urlparse_path : string -> string) (py_round3 : Q -> Q)
         (net : Pipeline.network) (args : Server.GenerateArgs)
         (s s' : Pipeline.state) (res : Server.GenerateResult),
    Pipeline._generate_once cwd json_loads py_repr py_float_str
      urlparse_path py_round3 net args s = (Errors.Ok res, s') ->
    Server.model_id res = Server.arg_model_id args
    /\ Extraction.is_http (Server.result_url res) = true
    /\ In (Server.media_type res) ["image"; "video"; "audio"; "unknown"]
    /\ (exists p,
          Server.output_path res = Pipeline.path_str p
          /\ Filesystem.stat (Pipeline.store s') p
             = inr (Filesystem.parts p, Filesystem.File)
          /\ Filesystem._is_within p (Filesystem.resolve cwd cwd) = true)
    /\ match Server.arg_repo_path args with
       | None => Server.repo_path res = None
       | Some _ =>
           exists t,
             Server.repo_path res = Some (Pipeline.path_str t)
             /\ Filesystem.stat (Pipeline.store s') t
                = inr (Filesystem.parts t, Filesystem.File)
       end.
Proof.
  intros cwd json_loads py_repr py_float_str urlparse_path py_round3 net
    args s s' res E.
  pose proof (PipelineFacts.generate_once_cases cwd json_loads py_repr
                py_float_str urlparse_path py_round3 net args s) as G.
  rewrite E in G.
  destruct G as [_ [[_ [e K]]|(rid & t & p & u & C & R & X & D)]];
    [discriminate K|].
  destruct (PipelineFacts.deliver_cases _ _ _ _ _ _ _ _ _ _ _ _ _ D)
    as (added & _ & _ & M & U & MT & OP & RP).
  repeat split; auto.
  rewrite U. exact (PipelineFacts.extracted_is_http _ _ _ X).
Qed.

(** A generation that goes well: the job completes at the second status
    request and the file arrives at the first attempt. *)
Lemma generation_result_is_on_disk_witness :
  exists res s',
    Pipeline._generate_once Spec.sample_cwd Notions.sample_loads
      Spec.sample_repr Spec.sample_float MediaType.simple_urlparse_path
      (fun q => q) Notions.sample_network Notions.sample_args
      Notions.sample_state = (Errors.Ok res, s')
    /\ Server.output_path res = "/work/out/fox.png"
    /\ exists p,
         Server.output_path res = Pipeline.path_str p
         /\ Filesystem.stat (Pipeline.store s') p
            = inr (Filesystem.parts p, Filesystem.File)
         /\ Filesystem._is_within p
              (Filesystem.resolve Spec.sample_cwd Spec.sample_cwd) = true.
Proof.
  eexists _, _. split; [vm_compute; reflexivity|]. split; [reflexivity|].
  exact (proj1 (proj2 (proj2 (proj2
    (generation_result_is_on_disk Spec.sample_cwd Notions.sample_loads
       Spec.sample_repr Spec.sample_float MediaType.simple_urlparse_path
       (fun q => q) Notions.sample_network Notions.sample_args
       Notions.sample_state _ _ ltac:(vm_compute; reflexivity)))))).
Defined.

(** X22 ([_generate_once]).  When the queue accepts the job but its
    answer names no request, in [request_id] or in [requestId], the
    generation raises INVALID_RESPONSE and everything is as before: no
    status stream is opened, no status is polled, no progress is
    reported, nothing is written, and the client is closed. *)
Theorem generation_needs_a_request_id :
  forall (cwd : Filesystem.Path) (json_loads : string -> option Json.json)
         (py_repr : Json.json -> string)
         (py_float_str : string -> option Q)
         (urlparse_path : string -> string) (py_round3 : Q -> Q)
         (net : Pipeline.network) (args : Server.GenerateArgs)
         (s : Pipeline.state) (submit_data : Json.dict),
    Py.strip (match Pipeline.environ_FAL_KEY net with
              | Some v => v
              | None => EmptyString
              end) <> EmptyString ->
    FalClient.submit_job json_loads (Server.arg_model_id args)
      (Pipeline.submit_exchange net) = Errors.Ok (Json.JObj submit_data) ->
    Json.truthy (Json.get submit_data "request_id") = false ->
    Json.truthy (Json.get submit_data "requestId") = false ->
    Pipeline._generate_once cwd json_loads py_repr py_float_str
      urlparse_path py_round3 net args s
    = (Errors.Raise
         (Errors.GenvoyToolError "INVALID_RESPONSE"
            (Errors.Msg "fal.ai queue response missing request_id.")), s).
Proof.
  intros cwd json_loads py_repr py_float_str urlparse_path py_round3 net
    args s submit_data K SJ T1 T2.
  unfold Pipeline._generate_once. unfold Eff.mbind at 1.
  pose proof (PipelineFacts.generation_client_cases net s) as G.
  destruct (Pipeline._get_client net s) as [[client|e] s1].
  2:{ destruct G as (_ & _ & B). congruence. }
  subst s1. unfold Eff.mbind at 1.
  unfold Tools.finally, Pipeline.run_job, Eff.mbind, Eff.lift.
  rewrite SJ. cbn [Pipeline.expect_dict].
  unfold Json.por. rewrite T1, T2. simpl. destruct s; reflexivity.
Qed.

Lemma generation_needs_a_request_id_witness :
  Pipeline._generate_once Spec.sample_cwd Notions.sample_loads
    Spec.sample_repr Spec.sample_float MediaType.simple_urlparse_path
    (fun q => q) Notions.silent_network Notions.sample_args
    Notions.sample_state
  = (Errors.Raise
       (Errors.GenvoyToolError "INVALID_RESPONSE"
          (Errors.Msg "fal.ai queue response missing request_id.")),
     Notions.sample_state).
Proof.
  apply (generation_needs_a_request_id Spec.sample_cwd Notions.sample_loads
           Spec.sample_repr Spec.sample_float MediaType.simple_urlparse_path
           (fun q => q) Notions.silent_network Notions.sample_args
           Notions.sample_state []).
  - vm_compute. discriminate.
  - reflexivity.
  - reflexivity.
  - reflexivity.
Defined.

(** X23 ([generate_batch], [generate_compare], [_generate_once]).  Every
    file that a batch or a comparison reports is there when the call
    returns: its output path names a file of the final store, inside the
    working directory, whatever the jobs that ran after it did. *)
Theorem fanout_files_are_on_disk :
  forall (cwd : Filesystem.Path) (json_loads : string -> option Json.json)
         (py_repr : Json.json -> string)
         (py_float_str : string -> option Q)
         (urlparse_path : string -> string) (py_round3 : Q -> Q)
         (nets : Server.GenerateArgs -> Pipeline.network)
         (str_exn : Errors.exn -> string) (store : Filesystem.fs),
    let task args :=
      Pipeline.as_task cwd json_loads py_repr py_float_str urlparse_path
        py_round3 (nets args) args in
    (forall data,
        match Server.generate_batch cwd task str_exn data store with
        | (Errors.Ok res, store') =>
            Forall (Notions.on_disk cwd store') (Server.files res)
        | (Errors.Raise _, _) => True
        end)
    /\ (forall data,
          match Server.generate_compare cwd task str_exn data store with
          | (Errors.Ok res, store') =>
              Forall (Notions.on_disk cwd store') (Server.files res)
          | (Errors.Raise _, _) => True
          end).
Proof.
  intros cwd json_loads py_repr py_float_str urlparse_path py_round3 nets
    str_exn store task.
  split; intros data.
  - unfold Server.generate_batch, Eff.mbind.
    destruct (Server.validate_batch data store) as [[[]|e] s1]; [|exact I].
    destruct (Filesystem.mkdir_parents _ s1) as [[[]|e] s2]; [|exact I].
    destruct (Server.gather task (Server.batch_tasks data) s2)
      as [results s3] eqn:G.
    rewrite FanoutFacts.collect_batch_files.
    exact (proj2 (PipelineFacts.gather_on_disk cwd json_loads py_repr
                    py_float_str urlparse_path py_round3 nets _ _ _ _ G)).
  - unfold Server.generate_compare, Eff.mbind.
    destruct (Server.validate_compare data store) as [[[]|e] s1]; [|exact I].
    destruct (Filesystem.mkdir_parents _ s1) as [[[]|e] s2]; [|exact I].
    destruct (Server.gather task (Server.compare_tasks data) s2)
      as [results s3] eqn:G.
    rewrite FanoutFacts.collect_compare_files, FanoutFacts.snd_combine.
    + exact (proj2 (PipelineFacts.gather_on_disk cwd json_loads py_repr
                      py_float_str urlparse_path py_round3 nets _ _ _ _ G)).
    + pose proof (FanoutFacts.gather_length task (Server.compare_tasks data)
                    s2) as L.
      rewrite G in L. simpl in L. rewrite L.
      unfold Server.compare_tasks. now rewrite length_map.
Qed.

Module SuffixFacts.
Import Json Errors Filesystem TextFacts.

(** No dot in a string. *)
Local Abbreviation dotless t :=
  (Server.all_chars (fun c => negb (Ascii.eqb c "."%char)) t = true)
  (only parsing).

Lemma rsplit_dot_none t : dotless t <-> Py.rsplit_dot t = None.
Proof.
  induction t as [|c t IH]; simpl.
  - tauto.
  - rewrite andb_true_iff, IH.
    destruct (Py.rsplit_dot t) as [[a b]|]; destruct (Ascii.eqb c ".");
      simpl; split; try tauto; try discriminate; intros [? ?]; discriminate.
Qed.

(** What [rsplit_dot] finds: the last dot and the dot-free rest. *)
Lemma rsplit_dot_some n : forall b e,
  Py.rsplit_dot n = Some (b, e) ->
  n = (b ++ e)%string /\ exists t, e = String "."%char t /\ dotless t.
Proof.
  induction n as [|c n IH]; intros b e; simpl; [discriminate|].
  destruct (Py.rsplit_dot n) as [[a x]|] eqn:R.
  - intros H; injection H as <- <-. destruct (IH _ _ eq_refl) as [-> T].
    auto.
  - destruct (Ascii.eqb_spec c ".") as [->|]; [|discriminate].
    intros H; injection H as <- <-. split; [reflexivity|].
    exists n. split; [reflexivity|]. now apply rsplit_dot_none.
Qed.

Lemma rsplit_dot_app b : forall t,
  dotless t ->
  Py.rsplit_dot (b ++ String "."%char t) = Some (b, String "."%char t).
Proof.
  intros t D. induction b as [|c b IH]; simpl.
  - apply rsplit_dot_none in D. now rewrite D.
  - now rewrite IH.
Qed.

Lemma substring_prefix (b e : string) :
  String.substring 0 (String.length b) (b ++ e) = b.
Proof. induction b as [|c b IH]; simpl; [now destruct e|now rewrite IH]. Qed.

(** A name with a suffix is its stem followed by the suffix, and putting
    another non-empty stem before the suffix keeps the suffix. *)
Lemma name_with_suffix (n : string) :
  MediaType.name_suffix n <> EmptyString ->
  exists b,
    n = (b ++ MediaType.name_suffix n)%string
    /\ forall b', b' <> EmptyString ->
         MediaType.name_suffix (b' ++ MediaType.name_suffix n)
         = MediaType.name_suffix n.
Proof.
  remember (MediaType.name_suffix n) as x eqn:X. intros N.
  unfold MediaType.name_suffix in X.
  destruct (Py.rsplit_dot n) as [[b e]|] eqn:R; [|congruence].
  destruct (Py.nonempty b && Nat.ltb 1 (String.length e)) eqn:C;
    [|congruence].
  subst x. destruct (rsplit_dot_some _ _ _ R) as (-> & t & -> & D).
  exists b. split; [reflexivity|]. intros b' B.
  unfold MediaType.name_suffix. rewrite (rsplit_dot_app b' t D).
  apply andb_true_iff in C as [_ C]. rewrite C.
  destruct b'; [congruence|reflexivity].
Qed.

Lemma name_numbered (path : Path) (idx : nat) :
  name (numbered path idx)
  = (stem path ++ "_" ++ Py.str_of_nat idx ++ suffix path)%string.
Proof. unfold name, numbered, joinpath. simpl. apply last_last. Qed.

Lemma stem_of (b e : string) :
  String.substring 0 (String.length (b ++ e) - String.length e) (b ++ e) = b.
Proof.
  rewrite UniquePathFacts.append_length.
  replace (String.length b + String.length e - String.length e)
    with (String.length b) by lia.
  apply substring_prefix.
Qed.

End SuffixFacts.

(** X24 ([unique_path]).  For a path whose name has a suffix, every
    numbered candidate keeps the suffix and the directory, and its stem
    is the original stem followed by an underscore and the number. *)
Theorem numbered_candidate_keeps_suffix :
  forall (path : Filesystem.Path) (idx : nat),
    Filesystem.suffix path <> EmptyString ->
    Filesystem.suffix (Filesystem.numbered path idx) = Filesystem.suffix path
    /\ Filesystem.stem (Filesystem.numbered path idx)
       = (Filesystem.stem path ++ "_" ++ Py.str_of_nat idx)%string
    /\ Filesystem.parent (Filesystem.numbered path idx)
       = Filesystem.parent path.
Proof.
  intros path idx N.
  destruct (SuffixFacts.name_with_suffix (Filesystem.name path) N)
    as (b & E & K).
  fold (Filesystem.suffix path) in E, K.
  set (sfx := Filesystem.suffix path) in *.
  assert (ST : Filesystem.stem path = b).
  { unfold Filesystem.stem. cbv zeta. fold sfx. rewrite E.
    apply SuffixFacts.stem_of. }
  assert (SX : Filesystem.suffix (Filesystem.numbered path idx) = sfx).
  { unfold Filesystem.suffix at 1. rewrite SuffixFacts.name_numbered.
    fold sfx. rewrite <- !TextFacts.append_assoc.
    apply K. rewrite ST. destruct b; discriminate. }
  split; [exact SX|]. split; [|apply OutputPathFacts.parent_numbered].
  unfold Filesystem.stem. cbv zeta. rewrite SX, SuffixFacts.name_numbered.
  fold sfx. rewrite <- !TextFacts.append_assoc. rewrite SuffixFacts.stem_of.
  reflexivity.
Qed.

Lemma numbered_candidate_keeps_suffix_witness :
  Filesystem.suffix (Filesystem.Path_of_string "/work/hero.png") <> EmptyString
  /\ Filesystem.name
       (Filesystem.numbered (Filesystem.Path_of_string "/work/hero.png") 2)
     = "hero_2.png"
  /\ Filesystem.suffix
       (Filesystem.numbered (Filesystem.Path_of_string "/work/hero.png") 2)
     = Filesystem.suffix (Filesystem.Path_of_string "/work/hero.png").
Proof.
  assert (N : Filesystem.suffix (Filesystem.Path_of_string "/work/hero.png")
              <> EmptyString) by discriminate.
  split; [exact N|]. split; [reflexivity|].
  exact (proj1 (numbered_candidate_keeps_suffix
                  (Filesystem.Path_of_string "/work/hero.png") 2 N)).
Defined.

Module UrlFacts.
Import Json Errors Extraction.

Lemma flat_map_nil {A B : Type} (f : A -> list B) (l : list A) :
  flat_map f l = [] <-> Forall (fun x => f x = []) l.
Proof.
  induction l as [|x l IH]; simpl.
  - split; auto.
  - split.
    + intros H. apply app_eq_nil in H as [H1 H2]. constructor; tauto.
    + intros H. inversion H; subst. rewrite H2. now apply IH.
Qed.

Lemma existsb_false {A : Type} (f : A -> bool) (l : list A) :
  existsb f l = false <-> Forall (fun x => f x = false) l.
Proof.
  induction l as [|x l IH]; simpl.
  - split; auto.
  - rewrite orb_false_iff, IH. split.
    + intros [H1 H2]. now constructor.
    + intros H. now inversion H.
Qed.

(** The code visits a URL exactly when the payload holds one. *)
Lemma visited_nil (v : json) :
  Spec.visited v = [] <-> Notions.has_url v = false.
Proof.
  induction v as [| | |s|items IH|fields IH] using json_ind;
    try (simpl; tauto).
  - simpl. destruct (is_http s); split; congruence.
  - simpl. rewrite flat_map_nil, existsb_false.
    rewrite !Forall_forall in *. split; intros H x I; apply IH; auto.
  - rewrite MediaUrlFacts.visited_obj. cbn [Notions.has_url].
    rewrite existsb_false. split.
    + intros H. apply app_eq_nil in H as [_ H]. rewrite flat_map_nil in H.
      rewrite !Forall_forall in *. intros x I. apply IH; auto.
    + intros H.
      assert (A : forall kv, In kv fields -> Spec.visited (snd kv) = []).
      { rewrite !Forall_forall in *. intros x I. apply IH; auto. }
      assert (P : flat_map (fun kv => Spec.visited (snd kv)) fields = []).
      { apply flat_map_nil, Forall_forall. exact A. }
      rewrite P, app_nil_r. apply flat_map_nil, Forall_forall. intros k _.
      destruct (lookup k fields) as [x|] eqn:L; auto.
      apply (A (k, x)). now apply MediaUrlFacts.lookup_In.
Qed.

End UrlFacts.

(** X25 ([_extract_first_media_url]).  A URL that the extraction returns
    starts with [http://] or [https://], and the extraction returns
    nothing exactly when the payload holds no such string at any
    depth. *)
Theorem extracted_url_has_http_scheme :
  forall (urlparse_path : string -> string) (payload : Json.json),
    match Extraction._extract_first_media_url urlparse_path payload with
    | Some url =>
        Extraction.is_http url = true /\ Notions.has_url payload = true
    | None => Notions.has_url payload = false
    end.
Proof.
  intros urlparse_path payload.
  destruct (Extraction._extract_first_media_url urlparse_path payload)
    as [u|] eqn:E.
  - split; [exact (PipelineFacts.extracted_is_http _ _ _ E)|].
    destruct (Notions.has_url payload) eqn:H; [reflexivity|].
    apply UrlFacts.visited_nil in H.
    rewrite MediaUrlFacts.extract_visited, H in E. discriminate E.
  - apply UrlFacts.visited_nil.
    rewrite MediaUrlFacts.extract_visited in E.
    unfold Spec.preferred_candidate in E.
    destruct (find _ (Spec.visited payload)); [discriminate|].
    destruct (Spec.visited payload); [reflexivity|discriminate].
Qed.

Module ForbiddenFacts.
Import Json Errors Eff FalClient FalApi.

Lemma forbidden_request json_loads method url (r : response) :
  status_code r = 403 ->
  _request json_loads method url (Answered r)
  = Raise
      (if contains "/models/usage" url
       then GenvoyToolError "ADMIN_KEY_REQUIRED"
              (Msg "fal.ai usage history requires an Admin API key.")
       else GenvoyToolError "FAL_API_ERROR"
              (Msg (Py.str_of_nat (status_code r) ++
                    " response from fal.ai: " ++ body_excerpt r))).
Proof.
  intros S. unfold _request. rewrite S. simpl.
  destruct (contains "/models/usage" url); reflexivity.
Qed.

End ForbiddenFacts.

(** X26 ([FalClient.list_recent] and the catalogue calls).  When the
    service answers 403, [list_recent] raises ADMIN_KEY_REQUIRED, while
    the search, the listing, the schema and the pricing calls raise
    FAL_API_ERROR; the estimate is then not asked for after the pricing
    call has failed. *)
Theorem forbidden_answers_by_endpoint :
  forall (json_loads : string -> option Json.json)
         (transport : list FalApi.call -> FalApi.call -> FalClient.exchange)
         (n : FalApi.net),
    (forall log c, exists r,
        transport log c = FalClient.Answered r
        /\ FalClient.status_code r = 403) ->
    let code_of_run (m : Eff.M FalApi.net Json.json) :=
      match fst (m n) with
      | Errors.Ok _ => None
      | Errors.Raise e => Errors.code_of e
      end in
    (forall model_id limit,
        code_of_run (FalApi.list_recent json_loads transport model_id limit)
        = Some "ADMIN_KEY_REQUIRED")
    /\ (forall query category cursor,
          code_of_run (FalApi.search_models json_loads transport query
                         category cursor None)
          = Some "FAL_API_ERROR")
    /\ (forall category cursor,
          code_of_run (FalApi.list_models json_loads transport
                         category cursor None)
          = Some "FAL_API_ERROR")
    /\ (forall model_id,
          code_of_run (FalApi.get_schema json_loads transport model_id)
          = Some "FAL_API_ERROR")
    /\ (forall model_id count,
          code_of_run (FalApi.estimate_cost json_loads transport
                         model_id count)
          = Some "FAL_API_ERROR"
          /\ List.length
               (FalApi.sent
                  (snd (FalApi.estimate_cost json_loads transport
                          model_id count n)))
             = S (List.length (FalApi.sent n))).
Proof.
  intros json_loads transport n F. cbv zeta.
  assert (R : forall method url params body n0,
             url = (FalClient.BASE_API ++ "/models")%string
             \/ url = (FalClient.BASE_API ++ "/models/pricing")%string ->
             exists msg,
               FalApi.request json_loads transport method url params body n0
               = (Errors.Raise (Errors.GenvoyToolError "FAL_API_ERROR" msg),
                  FalApi.Net (FalApi.sent n0 ++
                                [FalApi.Call method url params body])
                    (FalApi.open_clients n0))).
  { intros method url params body n0 U.
    unfold FalApi.request, FalApi.perform.
    destruct (F (FalApi.sent n0) (FalApi.Call method url params body))
      as (r & -> & S).
    rewrite (ForbiddenFacts.forbidden_request _ _ _ _ S).
    destruct U as [-> | ->]; eexists; reflexivity. }
  split; [|split; [|split; [|split]]].
  - intros model_id limit. unfold FalApi.list_recent, FalApi.request,
      FalApi.perform. cbn [fst].
    match goal with
    | |- context [transport ?l ?c] => destruct (F l c) as (r & -> & S)
    end.
    now rewrite (ForbiddenFacts.forbidden_request _ _ _ _ S).
  - intros query category cursor. unfold FalApi.search_models.
    replace (FalApi.truthy_str cursor && FalApi.truthy_str None
             && FalApi.str_ne cursor None) with false
      by (now rewrite andb_false_r).
    cbv zeta.
    match goal with
    | |- context [FalApi.request _ _ ?m ?u ?p ?b n] =>
        destruct (R m u p b n (or_introl eq_refl)) as [msg ->]
    end.
    reflexivity.
  - intros category cursor. unfold FalApi.list_models.
    replace (FalApi.truthy_str cursor && FalApi.truthy_str None
             && FalApi.str_ne cursor None) with false
      by (now rewrite andb_false_r).
    cbv zeta.
    match goal with
    | |- context [FalApi.request _ _ ?m ?u ?p ?b n] =>
        destruct (R m u p b n (or_introl eq_refl)) as [msg ->]
    end.
    reflexivity.
  - intros model_id. unfold FalApi.get_schema, Eff.mbind.
    match goal with
    | |- context [FalApi.request _ _ ?m ?u ?p ?b n] =>
        destruct (R m u p b n (or_introl eq_refl)) as [msg ->]
    end.
    reflexivity.
  - intros model_id count. unfold FalApi.estimate_cost, Eff.mbind.
    match goal with
    | |- context [FalApi.request _ _ ?m ?u ?p ?b n] =>
        destruct (R m u p b n (or_intror eq_refl)) as [msg ->]
    end.
    cbn [fst snd FalApi.sent]. split; [reflexivity|].
    rewrite length_app. simpl. lia.
Qed.

Lemma forbidden_answers_by_endpoint_witness :
  (forall log c, exists r,
      Notions.forbidding_transport log c = FalClient.Answered r
      /\ FalClient.status_code r = 403)
  /\ match fst (FalApi.list_recent Spec.sample_loads
                  Notions.forbidding_transport None 20 (FalApi.Net [] 1)) with
     | Errors.Ok _ => None
     | Errors.Raise e => Errors.code_of e
     end = Some "ADMIN_KEY_REQUIRED".
Proof.
  assert (F : forall log c, exists r,
             Notions.forbidding_transport log c = FalClient.Answered r
             /\ FalClient.status_code r = 403).
  { intros log c. eexists. split; reflexivity. }
  split; [exact F|].
  exact (proj1 (forbidden_answers_by_endpoint Spec.sample_loads
                  Notions.forbidding_transport (FalApi.Net [] 1) F) None 20%Z).
Defined.

(* ================================================================== *)
(** ** The tests of the repository for the tools, the settings and the
       download, replayed on the model *)

Module ReplayTools.
Import Json Errors Eff Filesystem.

(** [test_get_settings_normalizes_raw_key],
    [test_get_settings_keeps_prefixed_key] and
    [test_get_settings_raises_when_key_required_and_missing]. *)
Example settings_key_normalisation :
  Config.get_settings (Some "abc123") true
    = Ok (Config.MkSettings "Key abc123")
  /\ Config.get_settings (Some "Key abc123") true
     = Ok (Config.MkSettings "Key abc123")
  /\ Config.get_settings (Some EmptyString) true
     = Raise (OtherError "RuntimeError").
Proof. repeat split; reflexivity. Qed.

(** [test_fal_client_requires_key] *)
Example client_requires_key :
  FalApi.__init__ EmptyString
  = Raise (GenvoyToolError "MISSING_FAL_KEY" (Msg "FAL_KEY is not configured.")).
Proof. reflexivity. Qed.

(** [test_search_models_page_alias_maps_to_cursor] *)
Example search_page_alias :
  FalApi.sent
    (snd (FalApi.search_models Spec.sample_loads
            (fun _ _ => FalClient.Answered (FalClient.Response 200 [] "{}"))
            "flux" None None (Some "legacy-page") (FalApi.Net [] 1)))
  = [ FalApi.Call "GET" "https://api.fal.ai/v1/models"
        [("q", JStr "flux"); ("cursor", JStr "legacy-page")] None ].
Proof. reflexivity. Qed.

(** [test_get_schema_prefers_first_model_openapi] *)
Example schema_of_first_model :
  fst (FalApi.get_schema
         (fun _ =>
            Some (JObj
              [("models",
                JArr [ JObj [("openapi", JObj [("title", JStr "SchemaA")])];
                       JObj [("openapi", JObj [("title", JStr "SchemaB")])] ])]))
         (fun _ _ => FalClient.Answered (FalClient.Response 200 [] "body"))
         "fal-ai/flux/dev" (FalApi.Net [] 1))
  = Ok (JObj [("title", JStr "SchemaA")]).
Proof. reflexivity. Qed.

(** [test_estimate_cost_calls_pricing_and_estimate_endpoints] *)
Example estimate_calls_both_endpoints :
  map FalApi.call_url
    (FalApi.sent
       (snd (FalApi.estimate_cost Spec.sample_loads
               (fun _ _ => FalClient.Answered (FalClient.Response 200 [] "{}"))
               "fal-ai/flux/dev" 3 (FalApi.Net [] 1))))
  = [ "https://api.fal.ai/v1/models/pricing";
      "https://api.fal.ai/v1/models/pricing/estimate" ].
Proof. reflexivity. Qed.

(** [test_search_models_rejects_conflicting_cursor_and_page] and
    [test_tool_validation_surfaces_invalid_model_id] *)
Example tools_validate_first :
  option_map code_of
    (match fst (Tools.search_models Spec.sample_loads
                  Notions.forbidding_transport (Some "Key test") "flux" None
                  (Some "cursor-A") (Some "cursor-B") (FalApi.Net [] 0)) with
     | Raise e => Some e
     | Ok _ => None
     end)
  = Some (Some "AMBIGUOUS_PAGINATION_CURSOR")
  /\ Tools.get_schema Spec.sample_loads Notions.forbidding_transport
       (Some "Key test") "invalid model id" (FalApi.Net [] 0)
     = (Raise (GenvoyToolError "INVALID_MODEL_ID"
                 (Msg "Invalid model ID format.")), FalApi.Net [] 0).
Proof. split; reflexivity. Qed.

(** [test_download_to_file_success]: the extension comes from the
    content type, and the size is that of the body. *)
Example download_success :
  Download.download_to_file Spec.sample_cwd MediaType.simple_urlparse_path
    (fun _ => Download.Served 200 [("Content-Type", "image/png")] ["PNGDATA"]
                FalClient.Closed)
    "https://cdn.fal.ai/artifact/abc" (Path_of_string "/work/result")
    Spec.sample_store
  = (Ok (Download.MkDownloadResult (Path_of_string "/work/result.png")
           "image" 7 (Some "image/png")),
     Spec.sample_store ++ [(["work"; "result.png"], File)]).
Proof. reflexivity. Qed.

(** [test_download_to_file_cdn_expired] *)
Example download_cdn_expired :
  Download.download_to_file Spec.sample_cwd MediaType.simple_urlparse_path
    (fun _ => Download.Served 404 [] ["missing"] FalClient.Closed)
    "https://cdn.fal.ai/artifact/expired" (Path_of_string "/work/result.png")
    Spec.sample_store
  = (Raise Download.cdn_expired, Spec.sample_store).
Proof. reflexivity. Qed.

(** A transfer that breaks after the file was opened leaves the file
    behind, and the next attempt, which finds that name taken, writes to
    the next free one. *)
Example download_retry_after_broken_body :
  Download.download_to_file Spec.sample_cwd MediaType.simple_urlparse_path
    (fun k =>
       Download.Served 200 [("Content-Type", "image/png")] ["PNG"]
         (if Nat.eqb k 0 then FalClient.Broken "reset" else FalClient.Closed))
    "https://cdn.fal.ai/artifact/abc" (Path_of_string "/work/result")
    Spec.sample_store
  = (Ok (Download.MkDownloadResult (Path_of_string "/work/result_1.png")
           "image" 3 (Some "image/png")),
     Spec.sample_store ++ [ (["work"; "result.png"], File);
                            (["work"; "result_1.png"], File) ]).
Proof. reflexivity. Qed.

(** [test_generate_pipeline_end_to_end]: the job completes on the event
    stream, the file is downloaded and copied, and the cost and the
    duration come from the result and from the terminal status. *)
Example generate_end_to_end :
  let loads := fun s : string =>
    if String.eqb s "submit" then Some (JObj [("request_id", JStr "req-1")])
    else if String.eqb s "terminal" then
      Some (JObj [ ("status", JStr "COMPLETED");
                   ("usage", JObj [("cost_usd", JNum (42 # 100))]);
                   ("timings", JObj [("duration_ms", JNum 1234)]) ])
    else if String.eqb s "result" then
      Some (JObj [ ("result",
                    JObj [("url", JStr "https://cdn.fal.ai/m-req-1.png")]);
                   ("usage", JObj [("cost", JStr "$0.15")]) ])
    else None in
  let net :=
    Pipeline.Network (Some "Key test")
      (FalClient.Answered (FalClient.Response 200 [] "submit"))
      (FalClient.Stream 200 ["data: terminal"; EmptyString] FalClient.Closed)
      Spec.sample_status
      (FalClient.Answered (FalClient.Response 200 [] "result"))
      (fun _ => Download.Served 200 [("Content-Type", "image/png")] ["PNG"]
                  FalClient.Closed) in
  Pipeline.generate Spec.sample_cwd loads Spec.sample_repr Spec.sample_float
    MediaType.simple_urlparse_path (fun q => q) net
    "fal-ai/flux/dev" "a floating island" "out/hero" (Some "repo/hero")
    (Some [("seed", JNum 7)]) Notions.sample_state
  = (Ok (Server.MkGenerateResult "req-1" "/work/out/hero.png"
           (Some "/work/repo/hero.png") "image"
           (inject_Z 3 / 1024)%Q "fal-ai/flux/dev"
           (Some (15 # 100)%Q) (Some 1234%Z)
           "https://cdn.fal.ai/m-req-1.png"),
     Pipeline.State
       (Spec.sample_store ++
          [ (["work"; "out"], Dir); (["work"; "out"; "hero.png"], File);
            (["work"; "repo"], Dir); (["work"; "repo"; "hero.png"], File) ])
       (FalClient.World 0
          [JObj [ ("status", JStr "COMPLETED");
                  ("usage", JObj [("cost_usd", JNum (42 # 100))]);
                  ("timings", JObj [("duration_ms", JNum 1234)]) ]])
       0).
Proof. vm_compute. reflexivity. Qed.

(** Two requests at the edge of the working directory: the directory
    itself with an extension to add, which [resolve_output_path] turns
    into a sibling of it, and a copy onto the directory itself, which
    [copy_to_repo] sends to the next free sibling. *)
Example requests_for_the_working_directory_itself :
  fst (resolve_output_path Spec.sample_cwd (Path_of_string ".")
         (Some ".png") Spec.sample_store)
    = Ok (Path_of_string "/work.png")
  /\ copy_to_repo Spec.sample_cwd (Path_of_string "/work/hero.png")
       (Path_of_string ".") Spec.sample_store
     = (Ok (Path_of_string "/work_1"),
        Spec.sample_store ++ [(["work_1"], File)]).
Proof. split; reflexivity. Qed.

End ReplayTools.
